(** * Aether Conductor: a shallow embedding of the authorization loop

    The development follows the TypeScript sources of the conductor package
    (interceptor, injector, analyzer, forwarder, orchestrator), of the browser
    executor and of the gateway RPC handlers.

    Conventions of the embedding.
    - A JavaScript string is a [string]: the sequence of the bytes of its
      UTF-8 encoding, which is what Node writes to a pipe.  Source literals
      are taken byte for byte from the source files.  [toLowerCase], [trim]
      and the class [\s] are modelled on ASCII.
    - [Date.now()] reads a clock that the caller passes in as [now]; the
      calls within one synchronous run read the same value.
    - A function that may throw returns an [Outcome]; a method that mutates
      an object threads the object explicitly and keeps the mutations made
      before a throw.
    - An [async] method is cut at its [await]s: one definition runs it to
      the first [await], one continues it from each settled promise.  The
      event loop that feeds a component its inputs is a function from the
      list of inputs; what a collaborator answers is part of the input.
    - A collaborator that is called but not modelled (executor, messaging
      plane, event listeners, audit file) appears as a log of the calls
      made to it. *)

From Stdlib Require Import ZArith QArith Ascii.
From stdpp Require Import gmap strings list fin_maps.

Local Open Scope Z_scope.

(** ** Exceptions and state *)

(** What a call produced: a value, or a thrown error rendered by
    [String(err)]. *)
Inductive Outcome (A : Type) : Type :=
  | Returned (a : A)
  | Threw (err : string).
Arguments Returned {A} a.
Arguments Threw {A} err.

(** A computation over a mutable object of type [S]. *)
Definition Run (S A : Type) : Type := S -> Outcome A * S.

Definition ret {S A} (a : A) : Run S A := fun s => (Returned a, s).

Definition throw {S A} (err : string) : Run S A := fun s => (Threw err, s).

Definition bind {S A B} (m : Run S A) (k : A -> Run S B) : Run S B :=
  fun s =>
    match m s with
    | (Returned a, s') => k a s'
    | (Threw e, s') => (Threw e, s')
    end.

(** [try { m } catch (err) { h err }]. *)
Definition try_catch {S A} (m : Run S A) (h : string -> Run S A) : Run S A :=
  fun s =>
    match m s with
    | (Returned a, s') => (Returned a, s')
    | (Threw e, s') => h e s'
    end.

Definition modify {S} (f : S -> S) : Run S unit := fun s => (Returned tt, f s).

Definition gets {S A} (f : S -> A) : Run S A := fun s => (Returned (f s), s).

Declare Scope run_scope.
Delimit Scope run_scope with run.
Notation "'call' x <- m ; k" := (bind m (fun x => k))
  (at level 10, x name, m at level 100, k at level 200,
   format "'[v' 'call'  x  <-  m ; '/' k ']'") : run_scope.
Notation "'run' m ; k" := (bind m (fun _ => k))
  (at level 10, m at level 100, k at level 200,
   format "'[v' 'run'  m ; '/' k ']'") : run_scope.

(** ** JavaScript string methods used by the sources *)

Module Js.

Definition ESC : ascii := "027"%char.
Definition BEL : ascii := "007"%char.
Definition LF : ascii := "010"%char.
Definition CR : ascii := "013"%char.

Definition newline : string := String LF "".

(** A value used as a condition: the empty string is falsy. *)
Definition truthy (s : string) : bool :=
  match s with "" => false | _ => true end.

(** [o] used as a condition where [o] is an optional string:
    [undefined] and [""] are both falsy. *)
Definition truthy_opt (o : option string) : bool :=
  match o with Some s => truthy s | None => false end.

Definition eqb (a b : string) : bool := bool_decide (a = b).

(** [t.startsWith(p)] *)
Fixpoint startsWith (t p : string) {struct p} : bool :=
  match p, t with
  | "", _ => true
  | String a p', String b t' => bool_decide (a = b) && startsWith t' p'
  | String _ _, "" => false
  end.

(** [t.includes(p)] *)
Fixpoint includes (t p : string) : bool :=
  startsWith t p ||
  match t with
  | "" => false
  | String _ t' => includes t' p
  end.

(** [s.slice(0, n)] *)
Fixpoint slice0 (n : nat) (s : string) : string :=
  match n, s with
  | S n', String c s' => String c (slice0 n' s')
  | _, _ => ""
  end.

Definition is_upper (c : ascii) : bool :=
  let n := nat_of_ascii c in (65 <=? n)%nat && (n <=? 90)%nat.

Definition is_lower (c : ascii) : bool :=
  let n := nat_of_ascii c in (97 <=? n)%nat && (n <=? 122)%nat.

Definition is_digit (c : ascii) : bool :=
  let n := nat_of_ascii c in (48 <=? n)%nat && (n <=? 57)%nat.

Definition lower_char (c : ascii) : ascii :=
  if is_upper c then ascii_of_nat (nat_of_ascii c + 32) else c.

(** [s.toLowerCase()], on the ASCII letters; bytes of other characters
    are kept. *)
Fixpoint toLowerCase (s : string) : string :=
  match s with
  | "" => ""
  | String c s' => String (lower_char c) (toLowerCase s')
  end.

(** White space of [trim] and of the regular expression class [\s],
    restricted to ASCII: tab, line feed, vertical tab, form feed,
    carriage return and space. *)
Definition is_space (c : ascii) : bool := Ascii.is_space c.

Fixpoint trimStart (s : string) : string :=
  match s with
  | "" => ""
  | String c s' => if is_space c then trimStart s' else s
  end.

(** Drops trailing white space: a character is kept when it is not a
    space or when something is kept after it. *)
Fixpoint trimEnd (s : string) : string :=
  match s with
  | "" => ""
  | String c s' =>
      match trimEnd s' with
      | "" => if is_space c then "" else String c ""
      | r => String c r
      end
  end.

(** [s.trim()] *)
Definition trim (s : string) : string := trimEnd (trimStart s).

(** [lines.join(sep)] *)
Fixpoint join (sep : string) (lines : list string) : string :=
  match lines with
  | [] => ""
  | [l] => l
  | l :: rest => l +:+ sep +:+ join sep rest
  end.

Definition concat (chunks : list string) : string :=
  foldr String.append "" chunks.

End Js.

(** ** Data model (types.ts) *)

Inductive ExternalAccessKind : Type :=
  | UrlVisit | CredentialFetch | ApiCheck | ServiceAction
  | FileDownload | Verification | UnknownKind.

Inductive BrowserAction : Type :=
  | Navigate (url : string)
  | Screenshot (selector : option string)
  | ExtractText (selector : option string)
  | Click (selector : string)
  | TypeInto (selector text : string)
  | Wait (ms : Z)
  | Scrape (url : string) (selectors : list (string * string)).

(** The [type] tag of an action. *)
Definition action_type (a : BrowserAction) : string :=
  match a with
  | Navigate _ => "navigate"
  | Screenshot _ => "screenshot"
  | ExtractText _ => "extract-text"
  | Click _ => "click"
  | TypeInto _ _ => "type"
  | Wait _ => "wait"
  | Scrape _ _ => "scrape"
  end.

Record BrowserActionResult : Type := {
  action : BrowserAction;
  success : bool;
  data : option string;
  screenshotPath : option string;
  error : option string;
}.

Record ExternalAccessRequest : Type := {
  id : string;
  kind : ExternalAccessKind;
  summary : string;
  rawOutput : string;
  url : option string;
  service : option string;
  dataNeeded : option string;
  suggestedActions : option (list BrowserAction);
  createdAtMs : Z;
  expiresAtMs : Z;
  sessionKey : option string;
}.

Inductive ConductorDecision : Type :=
  | Approve | Deny | ApproveWithInstructions.

Record ConductorAuthorization : Type := {
  requestId : string;
  decision : ConductorDecision;
  instructions : option string;
  resolvedBy : option string;
  resolvedAtMs : Z;
}.

Record ConductorInjection : Type := {
  inj_requestId : string;
  inj_success : bool;
  payload : string;
  actionResults : option (list BrowserActionResult);
  injectedAtMs : Z;
}.

Record ConductorHistoryEntry : Type := {
  h_request : ExternalAccessRequest;
  h_authorization : option ConductorAuthorization;
  h_injection : option ConductorInjection;
  completedAtMs : Z;
}.

(** ** Terminal interceptor (interceptor.ts): the stdin side *)

Module Interceptor.

(** The child process as the injector sees it: whether its stdin is
    writable, and the chunks written to it so far, oldest first. *)
Record ChildProcess : Type := {
  writable : bool;
  stdin : list string;
}.

Record TerminalInterceptor : Type := {
  child : option ChildProcess;
}.

Definition not_writable : string :=
  "Error: Cannot inject: child process stdin not writable".

(** [inject(text)] (interceptor.ts, lines 91-96) *)
Definition inject (text : string) : Run TerminalInterceptor unit :=
  fun t =>
    match child t with
    | Some c =>
        if writable c
        then (Returned tt,
              {| child := Some {| writable := true;
                                  stdin := stdin c ++ [text] |} |})
        else throw not_writable t
    | None => throw not_writable t
    end.

(** [injectLine(text)] (lines 99-101) *)
Definition injectLine (text : string) : Run TerminalInterceptor unit :=
  inject (text +:+ Js.newline).

(** The chunks written to the child's stdin. *)
Definition written (t : TerminalInterceptor) : list string :=
  match child t with Some c => stdin c | None => [] end.

(** The byte stream the child reads. *)
Definition stream (t : TerminalInterceptor) : string :=
  Js.concat (written t).

(** A running child with a writable, still empty stdin. *)
Definition fresh : TerminalInterceptor :=
  {| child := Some {| writable := true; stdin := [] |} |}.

End Interceptor.

(** ** Result injector (injector.ts) *)

Module Injector.
Import Interceptor.
Local Open Scope run_scope.

Definition of_bytes (l : list nat) : string :=
  foldr (fun n s => String (ascii_of_nat n) s) "" l.

(** The characters between the summary and the reason in the denial
    template of injector.ts, as the source file holds them: U+00E2,
    U+20AC, U+201D, in UTF-8 the bytes C3 A2, E2 82 AC, E2 80 9D. *)
Definition denial_dash : string :=
  of_bytes [195; 162; 226; 130; 172; 226; 128; 157]%nat.

(** U+2014 EM DASH, in UTF-8 the bytes E2 80 94. *)
Definition em_dash : string := of_bytes [226; 128; 148]%nat.

Definition failure_line (r : BrowserActionResult) : string :=
  "  - " +:+ action_type (action r) +:+ ": " +:+
  default "unknown error" (error r).

(** The lines one successful result contributes (the [switch] on
    [result.action.type]). *)
Definition success_lines (r : BrowserActionResult) : list string :=
  match action r with
  | Navigate u => ["[Aether] Navigated to: " +:+ u]
  | ExtractText _ =>
      match data r with
      | Some d => if Js.truthy d then ["[Aether] Extracted content:"; d] else []
      | None => []
      end
  | Screenshot _ =>
      match screenshotPath r with
      | Some p => if Js.truthy p then ["[Aether] Screenshot saved: " +:+ p] else []
      | None => []
      end
  | Scrape _ _ =>
      match data r with
      | Some d => if Js.truthy d then ["[Aether] Scraped data:"; d] else []
      | None => []
      end
  | Click sel => ["[Aether] Clicked: " +:+ sel]
  | TypeInto sel _ => ["[Aether] Typed into: " +:+ sel]
  | Wait _ =>
      match data r with
      | Some d =>
          if Js.truthy d
          then ["[Aether] " +:+ action_type (action r) +:+ ": " +:+ d]
          else []
      | None => []
      end
  end.

(** [formatInjectionPayload(request, results)] (injector.ts, lines 15-78) *)
Definition formatInjectionPayload
    (request : ExternalAccessRequest)
    (results : list BrowserActionResult) : string :=
  let header := "[Aether] External access result for: " +:+ summary request in
  let successfulResults := filter (fun r => success r = true) results in
  let failedResults := filter (fun r => success r = false) results in
  if (length successfulResults =? 0)%nat && (0 <? length failedResults)%nat
  then
    Js.join Js.newline
      ([header; "[Aether] All actions failed:"] ++
       map failure_line failedResults)
  else
    Js.join Js.newline
      ([header] ++
       concat (map success_lines successfulResults) ++
       (if (0 <? length failedResults)%nat
        then "[Aether] Some actions failed:" :: map failure_line failedResults
        else [])).

(** The three writes every injection makes. *)
Definition injectEnvelope (text : string) : Run TerminalInterceptor unit :=
  run injectLine "";
  run injectLine text;
  injectLine "".

(** [injectResults(interceptor, request, results)] (lines 83-103) *)
Definition injectResults (now : Z)
    (request : ExternalAccessRequest)
    (results : list BrowserActionResult)
  : Run TerminalInterceptor ConductorInjection :=
  let payload := formatInjectionPayload request results in
  let success := existsb (fun r => success r) results in
  run injectEnvelope payload;
  ret {| inj_requestId := id request;
         inj_success := success;
         payload := payload;
         actionResults := Some results;
         injectedAtMs := now |}.

Definition denialPayload (request : ExternalAccessRequest)
    (reason : option string) : string :=
  "[Aether] Request denied: " +:+ summary request +:+
  (if Js.truthy_opt reason
   then " " +:+ denial_dash +:+ " " +:+ default "" reason
   else "") +:+
  ". Proceeding without external access.".

(** [injectDenial(interceptor, request, reason?)] (lines 108-125) *)
Definition injectDenial (now : Z)
    (request : ExternalAccessRequest) (reason : option string)
  : Run TerminalInterceptor ConductorInjection :=
  let payload := denialPayload request reason in
  run injectEnvelope payload;
  ret {| inj_requestId := id request;
         inj_success := false;
         payload := payload;
         actionResults := None;
         injectedAtMs := now |}.

Definition timeoutPayload (request : ExternalAccessRequest) : string :=
  "[Aether] Authorization timed out for: " +:+ summary request +:+
  ". Proceeding without external access.".

(** [injectTimeout(interceptor, request)] (lines 130-146) *)
Definition injectTimeout (now : Z) (request : ExternalAccessRequest)
  : Run TerminalInterceptor ConductorInjection :=
  let payload := timeoutPayload request in
  run injectEnvelope payload;
  ret {| inj_requestId := id request;
         inj_success := false;
         payload := payload;
         actionResults := None;
         injectedAtMs := now |}.

End Injector.

(** ** Configuration (types.ts) *)

Record ConductorForwardTarget : Type := {
  channel : string;
  to : string;
  accountId : option string;
  threadId : option string;
}.

Record ConductorAuthConfig : Type := {
  targets : option (list ConductorForwardTarget);
  timeoutMs : option Z;
  autoApprovePatterns : option (list string);
  autoDenyPatterns : option (list string);
}.

Record ConductorAnalyzerConfig : Type := {
  confidenceThreshold : option Q;
}.

Record ConductorBrowserConfig : Type := {
  profile : option string;
  actionTimeoutMs : option Z;
  captureScreenshots : option bool;
}.

Record ConductorConfig : Type := {
  analyzer : option ConductorAnalyzerConfig;
  auth : option ConductorAuthConfig;
  browser : option ConductorBrowserConfig;
}.

(** ** URL globs of the auto rules (conductor.ts, [matchGlob]) *)

(** The regular expression engine of the host: [new RegExp(source,
    "i").test(value)].  The sources only build the expression; the engine is
    the runtime's. *)
Class RegExp : Type := {
  test_ignoreCase : string -> string -> bool;
}.

Module Glob.

(** The class [[.+^${}()|[\]\\]] of the first [replace]. *)
Definition is_meta (c : ascii) : bool :=
  bool_decide (c ∈ [ "."; "+"; "^"; "$"; "{"; "}"; "("; ")"; "|"; "[";
                     "]"; "\" ]%char).

(** [.replace(/[.+^${}()|[\]\\]/g, "\\$&")]: a backslash before every
    character of the class. *)
Fixpoint escapeMeta (s : string) : string :=
  match s with
  | "" => ""
  | String c s' =>
      if is_meta c then String "\" (String c (escapeMeta s'))
      else String c (escapeMeta s')
  end.

(** [.replace(/c/g, by)] for a single literal character [c]. *)
Fixpoint replaceAll (c : ascii) (by_ : string) (s : string) : string :=
  match s with
  | "" => ""
  | String d s' =>
      if bool_decide (d = c) then by_ +:+ replaceAll c by_ s'
      else String d (replaceAll c by_ s')
  end.

(** The expression [regex] built from [pattern]. *)
Definition regex (pattern : string) : string :=
  replaceAll "?" "." (replaceAll "*" ".*" (escapeMeta pattern)).

(** [matchGlob(pattern, value)] (conductor.ts, lines 350-356) *)
Definition matchGlob `{RegExp} (pattern value : string) : bool :=
  test_ignoreCase ("^" +:+ regex pattern +:+ "$") value.

(** The syntax characters of a regular expression pattern. *)
Definition is_syntax (c : ascii) : bool :=
  bool_decide (c ∈ [ "^"; "$"; "\"; "."; "*"; "+"; "?"; "("; ")"; "[";
                     "]"; "{"; "}"; "|" ]%char).

(** The glob syntax as the specification words it, character by
    character: [*] is [.*], [?] is [.], every other syntax character is
    escaped, anything else stands for itself. *)
Definition shellStyleChar (c : ascii) : string :=
  if bool_decide (c = "*"%char) then ".*"
  else if bool_decide (c = "?"%char) then "."
  else if is_syntax c then String "\" (String c "")
  else String c "".

Fixpoint shellStyle (pattern : string) : string :=
  match pattern with
  | "" => ""
  | String c rest => shellStyleChar c +:+ shellStyle rest
  end.

End Glob.

(** An engine for the expressions [Glob.regex] builds, on ASCII values:
    [^], then literals, escaped literals, [.] and [.*], then [$]. *)
Module AsciiRegExp.

Inductive Atom : Type :=
  | Lit (c : ascii)
  | AnyChar
  | AnyStar.

Fixpoint atoms (src : string) : list Atom :=
  match src with
  | "" => []
  | String "\" (String c rest) => Lit c :: atoms rest
  | String "." (String "*" rest) => AnyStar :: atoms rest
  | String "." rest => AnyChar :: atoms rest
  | String "$" "" => []
  | String c rest => Lit c :: atoms rest
  end.

Definition line_terminator (c : ascii) : bool :=
  bool_decide (c = Js.LF) || bool_decide (c = Js.CR).

Definition same_letter (a b : ascii) : bool :=
  bool_decide (Js.lower_char a = Js.lower_char b).

Fixpoint matches (p : list Atom) : string -> bool :=
  match p with
  | [] => fun v => Js.eqb v ""
  | Lit c :: r => fun v =>
      match v with
      | String d v' => same_letter c d && matches r v'
      | "" => false
      end
  | AnyChar :: r => fun v =>
      match v with
      | String d v' => negb (line_terminator d) && matches r v'
      | "" => false
      end
  | AnyStar :: r =>
      fix star (v : string) : bool :=
        matches r v ||
        match v with
        | String d v' => negb (line_terminator d) && star v'
        | "" => false
        end
  end.

Definition test (source value : string) : bool :=
  match source with
  | String "^" body => matches (atoms body) value
  | _ => false
  end.

Definition engine : RegExp := {| test_ignoreCase := test |}.

End AsciiRegExp.

(** ** Orchestrator (conductor.ts) *)

Inductive ConductorEvent : Type :=
  | EvStarted (pid : option Z) (ts : Z)
  | EvOutput (text : string) (ts : Z)
  | EvRequestDetected (request : ExternalAccessRequest)
  | EvAuthorizationRequested (requestId : string)
  | EvAuthorizationReceived (auth : ConductorAuthorization)
  | EvExecuting (requestId : string)
  | EvInjection (injection : ConductorInjection)
  | EvError (message : string) (requestId : option string) (ts : Z)
  | EvStopped (ts : Z).

(** A line of the audit log: the [data] passed to [audit]. *)
Inductive AuditData : Type :=
  | AuditStarted (pid : option Z)
  | AuditAutoDenied (request : ExternalAccessRequest)
  | AuditAutoApproved (request : ExternalAccessRequest)
  | AuditRequestDetected (request : ExternalAccessRequest)
  | AuditAuthorizationReceived (auth : ConductorAuthorization)
  | AuditInjection (injection : ConductorInjection).

(** What the analyzer returns: the request without [id], [createdAtMs] and
    [expiresAtMs]. *)
Record AnalyzedRequest : Type := {
  a_kind : ExternalAccessKind;
  a_summary : string;
  a_rawOutput : string;
  a_url : option string;
  a_service : option string;
  a_dataNeeded : option string;
  a_suggestedActions : option (list BrowserAction);
}.

Record AnalyzerResult : Type := {
  detected : bool;
  request : option AnalyzedRequest;
  confidence : Q;
}.

Inductive AutoDecision : Type := AutoApprove | AutoDeny.

Module Conductor.
Import Interceptor Injector.
Local Open Scope run_scope.

(** The instance state.  [pending] and [history] are [this.state]; the
    other fields log what the instance did to its collaborators: events
    delivered by [emit], lines written to the audit stream ([None] when
    the log is off), calls of [executor.execute], of
    [forwarder.requestAuthorization] and of [forwarder.notifyResult]. *)
Record Session : Type := {
  pending : gmap string ExternalAccessRequest;
  history : list ConductorHistoryEntry;
  interceptor : TerminalInterceptor;
  events : list ConductorEvent;
  auditStream : option (list (AuditData * Z));
  executed : list (ExternalAccessRequest * ConductorAuthorization);
  forwarded : list ExternalAccessRequest;
  notified : list (ExternalAccessRequest * ConductorInjection);
}.

Definition set_pending (f : gmap string ExternalAccessRequest ->
                            gmap string ExternalAccessRequest)
    (s : Session) : Session :=
  {| pending := f (pending s); history := history s;
     interceptor := interceptor s; events := events s;
     auditStream := auditStream s; executed := executed s;
     forwarded := forwarded s; notified := notified s |}.

Definition set_history (f : list ConductorHistoryEntry ->
                            list ConductorHistoryEntry)
    (s : Session) : Session :=
  {| pending := pending s; history := f (history s);
     interceptor := interceptor s; events := events s;
     auditStream := auditStream s; executed := executed s;
     forwarded := forwarded s; notified := notified s |}.

Definition set_interceptor (t : TerminalInterceptor) (s : Session) : Session :=
  {| pending := pending s; history := history s;
     interceptor := t; events := events s;
     auditStream := auditStream s; executed := executed s;
     forwarded := forwarded s; notified := notified s |}.

Definition set_events (f : list ConductorEvent -> list ConductorEvent)
    (s : Session) : Session :=
  {| pending := pending s; history := history s;
     interceptor := interceptor s; events := f (events s);
     auditStream := auditStream s; executed := executed s;
     forwarded := forwarded s; notified := notified s |}.

Definition set_auditStream (a : option (list (AuditData * Z)))
    (s : Session) : Session :=
  {| pending := pending s; history := history s;
     interceptor := interceptor s; events := events s;
     auditStream := a; executed := executed s;
     forwarded := forwarded s; notified := notified s |}.

Definition set_executed
    (f : list (ExternalAccessRequest * ConductorAuthorization) ->
         list (ExternalAccessRequest * ConductorAuthorization))
    (s : Session) : Session :=
  {| pending := pending s; history := history s;
     interceptor := interceptor s; events := events s;
     auditStream := auditStream s; executed := f (executed s);
     forwarded := forwarded s; notified := notified s |}.

Definition set_forwarded
    (f : list ExternalAccessRequest -> list ExternalAccessRequest)
    (s : Session) : Session :=
  {| pending := pending s; history := history s;
     interceptor := interceptor s; events := events s;
     auditStream := auditStream s; executed := executed s;
     forwarded := f (forwarded s); notified := notified s |}.

Definition set_notified
    (f : list (ExternalAccessRequest * ConductorInjection) ->
         list (ExternalAccessRequest * ConductorInjection))
    (s : Session) : Session :=
  {| pending := pending s; history := history s;
     interceptor := interceptor s; events := events s;
     auditStream := auditStream s; executed := executed s;
     forwarded := forwarded s; notified := f (notified s) |}.

(** A call on [this.interceptor]. *)
Definition on_interceptor {A} (m : Run TerminalInterceptor A)
  : Run Session A :=
  fun s =>
    match m (interceptor s) with
    | (o, t) => (o, set_interceptor t s)
    end.

(** [emit(event)]: every listener is called inside a [try]. *)
Definition emit (e : ConductorEvent) : Run Session unit :=
  modify (set_events (fun l => l ++ [e])).

(** [audit(data)] *)
Definition audit (now : Z) (d : AuditData) : Run Session unit :=
  fun s =>
    match auditStream s with
    | None => (Returned tt, s)
    | Some l => (Returned tt, set_auditStream (Some (l ++ [(d, now)])) s)
    end.

(** [recordHistory(request, auth, injection)] *)
Definition recordHistory (now : Z) (request : ExternalAccessRequest)
    (auth : ConductorAuthorization) (injection : ConductorInjection)
  : Run Session unit :=
  modify (set_history (fun h =>
    h ++ [{| h_request := request;
             h_authorization := Some auth;
             h_injection := Some injection;
             completedAtMs := now |}])).

(** [checkAutoRules(request)] (conductor.ts, lines 276-297) *)
Definition checkAutoRules `{RegExp} (config : ConductorConfig)
    (request : ExternalAccessRequest) : option AutoDecision :=
  match url request with
  | None => None
  | Some u =>
      if negb (Js.truthy u) then None
      else
        let denyPatterns :=
          default [] (a ← auth config; autoDenyPatterns a) in
        if existsb (fun pattern => Glob.matchGlob pattern u) denyPatterns
        then Some AutoDeny
        else
          let approvePatterns :=
            default [] (a ← auth config; autoApprovePatterns a) in
          if existsb (fun pattern => Glob.matchGlob pattern u) approvePatterns
          then Some AutoApprove
          else None
  end.

(** Who awaits [executeAndInject]: [handleAuthorization], whose promise
    is dropped with [void], or the auto-approve branch of
    [handleTerminalOutput], which sits inside that method's [try]. *)
Inductive Caller : Type := ByAuthorization | ByAutoApprove.

(** An async method suspended at an [await]. *)
Inductive Awaiting : Type :=
  | AwaitExecute (c : Caller) (request : ExternalAccessRequest)
      (auth : ConductorAuthorization)
  | AwaitNotify (c : Caller) (request : ExternalAccessRequest)
      (auth : ConductorAuthorization)
  | AwaitForward (request : ExternalAccessRequest)
  | AwaitAnalyze (text : string).

(** [executeAndInject] (conductor.ts, lines 248-270), up to
    [await this.executor.execute(request, auth)]. *)
Definition executeAndInject_call (c : Caller)
    (request : ExternalAccessRequest) (auth : ConductorAuthorization)
  : Run Session (option Awaiting) :=
  run emit (EvExecuting (id request));
  run modify (set_executed (fun l => l ++ [(request, auth)]));
  ret (Some (AwaitExecute c request auth)).

(** The [catch (err)] block of [executeAndInject]. *)
Definition executeAndInject_catch (now : Z)
    (request : ExternalAccessRequest) (auth : ConductorAuthorization)
    (errMsg : string) : Run Session (option Awaiting) :=
  run emit (EvError errMsg (Some (id request)) now);
  call injection <-
    on_interceptor
      (injectDenial now request (Some ("execution failed: " +:+ errMsg)));
  run recordHistory now request auth injection;
  ret None.

(** [executeAndInject], from the result of [executor.execute] to
    [await this.forwarder.notifyResult(request, injection)]. *)
Definition executeAndInject_executed (now : Z) (c : Caller)
    (request : ExternalAccessRequest) (auth : ConductorAuthorization)
    (outcome : Outcome (list BrowserActionResult))
  : Run Session (option Awaiting) :=
  match outcome with
  | Threw err => executeAndInject_catch now request auth err
  | Returned results =>
      try_catch
        (call injection <- on_interceptor (injectResults now request results);
         run emit (EvInjection injection);
         run audit now (AuditInjection injection);
         run recordHistory now request auth injection;
         run modify (set_notified (fun l => l ++ [(request, injection)]));
         ret (Some (AwaitNotify c request auth)))
        (executeAndInject_catch now request auth)
  end.

(** [executeAndInject], after [forwarder.notifyResult] settled. *)
Definition executeAndInject_notified (now : Z)
    (request : ExternalAccessRequest) (auth : ConductorAuthorization)
    (outcome : Outcome unit) : Run Session (option Awaiting) :=
  match outcome with
  | Returned _ => ret None
  | Threw err => executeAndInject_catch now request auth err
  end.

(** [handleAuthorization(auth)] (conductor.ts, lines 228-246), up to its
    first [await]. *)
Definition handleAuthorization (now : Z) (auth : ConductorAuthorization)
  : Run Session (option Awaiting) :=
  call found <- gets (fun s => pending s !! requestId auth);
  match found with
  | None => ret None
  | Some request =>
      run modify (set_pending (delete (requestId auth)));
      run emit (EvAuthorizationReceived auth);
      run audit now (AuditAuthorizationReceived auth);
      match decision auth with
      | Deny =>
          call injection <-
            on_interceptor (injectDenial now request (Some "operator denied"));
          run recordHistory now request auth injection;
          ret None
      | _ => executeAndInject_call ByAuthorization request auth
      end
  end.

(** The [catch (err)] block of [handleTerminalOutput]. *)
Definition handleTerminalOutput_catch (now : Z) (err : string)
  : Run Session (option Awaiting) :=
  run emit (EvError ("Analyzer failed: " +:+ err) None now);
  ret None.

(** [handleTerminalOutput(text)] (conductor.ts, lines 167-226), up to
    [await this.analyzer.analyze(text)]. *)
Definition handleTerminalOutput (now : Z) (text : string)
  : Run Session (option Awaiting) :=
  run emit (EvOutput text now);
  ret (Some (AwaitAnalyze text)).

(** [handleTerminalOutput], from the analyzer's result to the next
    [await]; [newId] is what [generateRequestId()] returns when called. *)
Definition handleTerminalOutput_analyzed `{RegExp} (config : ConductorConfig)
    (now : Z) (newId : string) (outcome : Outcome AnalyzerResult)
  : Run Session (option Awaiting) :=
  match outcome with
  | Threw err => handleTerminalOutput_catch now err
  | Returned result =>
      let threshold :=
        default (7 # 10)%Q (a ← analyzer config; confidenceThreshold a) in
      match request result with
      | None => ret None
      | Some analyzed =>
          if negb (detected result)
             || negb (Qle_bool threshold (confidence result))
          then ret None
          else
            let request :=
              {| id := newId;
                 kind := a_kind analyzed;
                 summary := a_summary analyzed;
                 rawOutput := a_rawOutput analyzed;
                 url := a_url analyzed;
                 service := a_service analyzed;
                 dataNeeded := a_dataNeeded analyzed;
                 suggestedActions := a_suggestedActions analyzed;
                 createdAtMs := now;
                 expiresAtMs :=
                   now + default 120000 (a ← auth config; timeoutMs a);
                 sessionKey := None |} in
            try_catch
              (match checkAutoRules config request with
               | Some AutoDeny =>
                   run audit now (AuditAutoDenied request);
                   call injection <-
                     on_interceptor
                       (injectDenial now request
                          (Some "blocked by auto-deny rule"));
                   run recordHistory now request
                         {| requestId := id request;
                            decision := Deny;
                            instructions := None;
                            resolvedBy := Some "auto-deny";
                            resolvedAtMs := now |}
                         injection;
                   ret None
               | Some AutoApprove =>
                   run audit now (AuditAutoApproved request);
                   run emit (EvRequestDetected request);
                   executeAndInject_call ByAutoApprove request
                     {| requestId := id request;
                        decision := Approve;
                        instructions := None;
                        resolvedBy := Some "auto-approve";
                        resolvedAtMs := now |}
               | None =>
                   run modify (set_pending (insert (id request) request));
                   run emit (EvRequestDetected request);
                   run audit now (AuditRequestDetected request);
                   run emit (EvAuthorizationRequested (id request));
                   run modify (set_forwarded (fun l => l ++ [request]));
                   ret (Some (AwaitForward request))
               end)
              (handleTerminalOutput_catch now)
      end
  end.

(** How a rejection of [executeAndInject] ends: unobserved under
    [handleAuthorization], caught under [handleTerminalOutput]. *)
Definition under_caller (now : Z) (c : Caller)
    (m : Run Session (option Awaiting)) : Run Session (option Awaiting) :=
  match c with
  | ByAuthorization => m
  | ByAutoApprove => try_catch m (handleTerminalOutput_catch now)
  end.

(** *** The event loop around the instance *)

(** What settles an awaited promise. *)
Inductive Settlement : Type :=
  | AnalyzerSettled (outcome : Outcome AnalyzerResult) (newId : string)
  | ExecutorSettled (outcome : Outcome (list BrowserActionResult))
  | VoidSettled (outcome : Outcome unit).

(** What the instance reacts to: a flush of the interceptor, an
    authorization from the forwarder's callback, and the settling of the
    [n]-th suspended method. *)
Inductive Input : Type :=
  | Flush (text : string)
  | Authorization (auth : ConductorAuthorization)
  | Resume (n : nat) (r : Settlement).

Record System : Type := {
  session : Session;
  tasks : list Awaiting;
}.

(** The continuation of a suspended method, when the settlement is of the
    kind it awaits. *)
Definition resume `{RegExp} (config : ConductorConfig) (now : Z)
    (t : Awaiting) (r : Settlement)
  : option (Run Session (option Awaiting)) :=
  match t, r with
  | AwaitAnalyze _, AnalyzerSettled o newId =>
      Some (handleTerminalOutput_analyzed config now newId o)
  | AwaitExecute c request auth, ExecutorSettled o =>
      Some (under_caller now c
              (executeAndInject_executed now c request auth o))
  | AwaitNotify c request auth, VoidSettled o =>
      Some (under_caller now c
              (executeAndInject_notified now request auth o))
  | AwaitForward _, VoidSettled (Returned _) => Some (ret None)
  | AwaitForward _, VoidSettled (Threw err) =>
      Some (handleTerminalOutput_catch now err)
  | _, _ => None
  end.

(** Runs a method to its next [await] or to its end; a rejection that
    nobody observes leaves the state as the method left it. *)
Definition spawn (m : Run Session (option Awaiting)) (rest : list Awaiting)
    (s : Session) : System :=
  match m s with
  | (Returned (Some t), s') => {| session := s'; tasks := rest ++ [t] |}
  | (_, s') => {| session := s'; tasks := rest |}
  end.

Definition step `{RegExp} (config : ConductorConfig) (now : Z)
    (i : Input) (sys : System) : System :=
  match i with
  | Flush text =>
      spawn (handleTerminalOutput now text) (tasks sys) (session sys)
  | Authorization auth =>
      spawn (handleAuthorization now auth) (tasks sys) (session sys)
  | Resume n r =>
      match tasks sys !! n with
      | None => sys
      | Some t =>
          match resume config now t r with
          | None => sys
          | Some m => spawn m (delete n (tasks sys)) (session sys)
          end
      end
  end.

(** A run of the loop: each input with the clock reading at its time. *)
Definition steps `{RegExp} (config : ConductorConfig)
    (inputs : list (Z * Input)) (sys : System) : System :=
  foldl (fun acc ni => step config ni.1 ni.2 acc) sys inputs.

(** [stubExecutor.execute()] (conductor.ts, lines 46-51) *)
Definition stubExecutor_execute (request : ExternalAccessRequest)
    (auth : ConductorAuthorization) : Outcome (list BrowserActionResult) :=
  Returned [].

(** *** Predicates on the instance state *)

(** [i] has no entry in the pending map. *)
Definition absent (i : string) (s : Session) : Prop :=
  pending s !! i = None.

(** A computation that leaves an absent id absent, however it ends. *)
Definition keeps_absent (i : string) {A} (m : Run Session A) : Prop :=
  forall s, absent i s -> absent i (m s).2.

(** The request id an input makes [generateRequestId()] return, if any. *)
Definition draws (i : Input) : option string :=
  match i with
  | Resume _ (AnalyzerSettled _ newId) => Some newId
  | _ => None
  end.

(** The history records a run appended have an injection that reports
    failure. *)
Definition appended_failures (before after : Session) : Prop :=
  exists new,
    history after = history before ++ new
    /\ Forall (fun h => exists injection,
                 h_injection h = Some injection
                 /\ inj_success injection = false) new.

End Conductor.

(** ** Analyzer (analyzer.ts): control sequences *)

Module Analyzer.

Definition is_letter (c : ascii) : bool := Js.is_upper c || Js.is_lower c.

(** The class [[0-9;]]. *)
Definition is_param (c : ascii) : bool :=
  Js.is_digit c || bool_decide (c = ";"%char).

(** Length of the match of [[0-9;]*[a-zA-Z]] at the start of [s].  The
    two classes are disjoint, so the greedy star has one way to succeed. *)
Fixpoint csiTail (s : string) : option nat :=
  match s with
  | "" => None
  | String c s' =>
      if is_letter c then Some 1%nat
      else if is_param c then S <$> csiTail s'
      else None
  end.

(** Length of the match of [/\x1B\[[0-9;]*[a-zA-Z]/] at the start of [s]. *)
Definition csiMatch (s : string) : option nat :=
  match s with
  | String e (String "[" rest) =>
      if bool_decide (e = Js.ESC) then (fun n => S (S n)) <$> csiTail rest
      else None
  | _ => None
  end.

(** Whether [s] starts with a line terminator, which [.] does not match:
    LF, CR, U+2028 or U+2029 (in UTF-8: E2 80 A8 and E2 80 A9). *)
Definition at_line_terminator (s : string) : bool :=
  match s with
  | String c rest =>
      bool_decide (c = Js.LF) || bool_decide (c = Js.CR) ||
      (bool_decide (c = "226"%char) &&
       match rest with
       | String d (String e _) =>
           bool_decide (d = "128"%char) &&
           (bool_decide (e = "168"%char) || bool_decide (e = "169"%char))
       | _ => false
       end)
  | "" => false
  end.

(** Length of the match of [.*?\x07] at the start of [s]: up to the first
    BEL, when no line terminator comes before it. *)
Fixpoint oscTail (s : string) : option nat :=
  match s with
  | "" => None
  | String c s' =>
      if bool_decide (c = Js.BEL) then Some 1%nat
      else if at_line_terminator s then None
      else S <$> oscTail s'
  end.

(** Length of the match of [/\x1B\].*?\x07/] at the start of [s]. *)
Definition oscMatch (s : string) : option nat :=
  match s with
  | String e (String "]" rest) =>
      if bool_decide (e = Js.ESC) then (fun n => S (S n)) <$> oscTail rest
      else None
  | _ => None
  end.

(** [s.replace(re, "")] for a global expression [re] that never matches
    the empty string, given by the length of its match at the start of a
    string: [skip] characters of the current match are still to drop. *)
Fixpoint removeAll (matchAt : string -> option nat) (skip : nat)
    (s : string) : string :=
  match s with
  | "" => ""
  | String c s' =>
      match skip with
      | S k => removeAll matchAt k s'
      | O =>
          match matchAt s with
          | Some (S k) => removeAll matchAt k s'
          | _ => String c (removeAll matchAt 0 s')
          end
      end
  end.

(** [stripAnsi(text)] (analyzer.ts, lines 348-351) *)
Definition stripAnsi (text : string) : string :=
  removeAll oscMatch 0 (removeAll csiMatch 0 text).

(** [s] holds no ESC character. *)
Fixpoint esc_free (s : string) : bool :=
  match s with
  | "" => true
  | String c s' => negb (bool_decide (c = Js.ESC)) && esc_free s'
  end.

(** Whether the expression given by the length of its match at the start
    of a string matches nowhere in [s]. *)
Fixpoint matchFree (matchAt : string -> option nat) (s : string) : bool :=
  match s with
  | "" => true
  | String _ s' =>
      match matchAt s with
      | Some (S _) => false
      | _ => matchFree matchAt s'
      end
  end.

(** [s] holds no complete CSI sequence and no complete OSC sequence:
    neither expression of [stripAnsi] matches anywhere in it. *)
Definition sequence_free (s : string) : bool :=
  matchFree csiMatch s && matchFree oscMatch s.

(** *** Well-formed terminal output *)

(** A piece of terminal output: plain text, a CSI sequence with its
    parameters and final letter, or an OSC sequence with its body. *)
Inductive Segment : Type :=
  | Text (t : string)
  | Csi (params : string) (final : ascii)
  | Osc (body : string).

Definition rendered (g : Segment) : string :=
  match g with
  | Text t => t
  | Csi params final =>
      String Js.ESC (String "[" (params +:+ String final ""))
  | Osc body => String Js.ESC (String "]" (body +:+ String Js.BEL ""))
  end.

Fixpoint every (ok : ascii -> bool) (s : string) : bool :=
  match s with
  | "" => true
  | String c s' => ok c && every ok s'
  end.

(** A byte of an OSC body: not ESC, BEL, LF or CR, and not the lead byte
    E2 of U+2028 and U+2029. *)
Definition osc_byte (c : ascii) : bool :=
  negb (bool_decide (c = Js.ESC)) && negb (bool_decide (c = Js.BEL)) &&
  negb (bool_decide (c = Js.LF)) && negb (bool_decide (c = Js.CR)) &&
  negb (bool_decide (c = "226"%char)).

Definition well_formed (g : Segment) : bool :=
  match g with
  | Text t => esc_free t
  | Csi params final => every is_param params && is_letter final
  | Osc body => every osc_byte body
  end.

(** The bytes of the output, and the text in it. *)
Fixpoint output (gs : list Segment) : string :=
  match gs with
  | [] => ""
  | g :: rest => rendered g +:+ output rest
  end.

(** The output after the first [replace]: the CSI sequences are gone. *)
Fixpoint withoutCsi (gs : list Segment) : list Segment :=
  match gs with
  | [] => []
  | Csi _ _ :: rest => withoutCsi rest
  | g :: rest => g :: withoutCsi rest
  end.

Fixpoint visible (gs : list Segment) : string :=
  match gs with
  | [] => ""
  | Text t :: rest => t +:+ visible rest
  | _ :: rest => visible rest
  end.

End Analyzer.

(** ** Authorization forwarder (forwarder.ts) *)

Module Forwarder.

Record PendingRequest : Type := {
  p_request : ExternalAccessRequest;
  timer : nat;
}.

Record InboundMessage : Type := {
  m_channel : string;
  from : string;
  text : string;
}.

(** The closure state of [createConductorForwarder].  [pending] is the
    [Map], in insertion order; [timers] are the armed timeouts, by handle,
    each with the request id its callback closes over and its delay;
    [sent] logs the calls of [deps.sendMessage], by target and by the
    request whose [formatAuthorizationRequest] text is sent, and
    [delivered] the authorizations handed to the subscribed callbacks. *)
Record State : Type := {
  pending : list (string * PendingRequest);
  timers : gmap nat (string * Z);
  nextTimer : nat;
  sent : list (ConductorForwardTarget * ExternalAccessRequest);
  delivered : list ConductorAuthorization;
}.

Definition initial : State :=
  {| pending := []; timers := ∅; nextTimer := 0;
     sent := []; delivered := [] |}.

(** [pending.has(k)] *)
Definition map_has (k : string) (m : list (string * PendingRequest)) : bool :=
  existsb (fun e => Js.eqb e.1 k) m.

(** [pending.delete(k)] *)
Definition map_delete (k : string) (m : list (string * PendingRequest))
  : list (string * PendingRequest) :=
  filter (fun e => e.1 <> k) m.

(** [pending.set(k, v)]: a present key keeps its place. *)
Fixpoint map_set (k : string) (v : PendingRequest)
    (m : list (string * PendingRequest)) : list (string * PendingRequest) :=
  match m with
  | [] => [(k, v)]
  | e :: rest =>
      if Js.eqb e.1 k then (k, v) :: rest else e :: map_set k v rest
  end.

(** [s] without the prefix [w], when [s] starts with [w] up to the case
    of ASCII letters. *)
Fixpoint dropWord (w s : string) : option string :=
  match w, s with
  | "", _ => Some s
  | String a w', String b s' =>
      if bool_decide (Js.lower_char a = Js.lower_char b)
      then dropWord w' s' else None
  | String _ _, "" => None
  end.

(** [s] without a leading [\s+]. *)
Definition dropSpaces (s : string) : option string :=
  match s with
  | String c s' => if Js.is_space c then Some (Js.trimStart s') else None
  | "" => None
  end.

(** [text.replace(/^(?:yes|approve)\s+/i, "")] *)
Definition stripApproval (text : string) : string :=
  match dropWord "yes" text ≫= dropSpaces with
  | Some rest => rest
  | None =>
      match dropWord "approve" text ≫= dropSpaces with
      | Some rest => rest
      | None => text
      end
  end.

Definition isApproval (text : string) : bool :=
  Js.eqb text "yes" || Js.eqb text "approve" || Js.eqb text "go" ||
  Js.eqb text "y" || Js.startsWith text "yes ".

Definition isDenial (text : string) : bool :=
  Js.eqb text "no" || Js.eqb text "deny" || Js.eqb text "n" ||
  Js.startsWith text "no ".

Definition hasInstructions (text : string) : bool :=
  Js.startsWith text "yes " || Js.startsWith text "approve ".

Definition matchesId (text requestId : string) : bool :=
  Js.includes text (Js.slice0 8 requestId).

(** The body of the loop over [pending.entries()] for one entry: the
    authorization the message resolves this entry with, if it does. *)
Definition resolves (now : Z) (msg : InboundMessage) (text : string)
    (size : nat) (requestId : string) : option ConductorAuthorization :=
  if matchesId text requestId
     || ((size =? 1)%nat && (isApproval text || isDenial text))
  then
    let approved :=
      isApproval text || (matchesId text requestId && negb (isDenial text)) in
    Some {| requestId := requestId;
            decision :=
              if approved
              then if hasInstructions text
                   then ApproveWithInstructions else Approve
              else Deny;
            instructions :=
              if approved && hasInstructions text
              then Some (Js.trim (stripApproval text)) else None;
            resolvedBy := Some (m_channel msg +:+ ":" +:+ from msg);
            resolvedAtMs := now |}
  else None.

(** The loop: the first entry the message resolves, with its
    authorization. *)
Fixpoint firstResolved (now : Z) (msg : InboundMessage) (text : string)
    (size : nat) (entries : list (string * PendingRequest))
  : option (PendingRequest * ConductorAuthorization) :=
  match entries with
  | [] => None
  | (requestId, entry) :: rest =>
      match resolves now msg text size requestId with
      | Some auth => Some (entry, auth)
      | None => firstResolved now msg text size rest
      end
  end.

(** The callback given to [deps.onInboundMessage] (forwarder.ts, lines
    47-89). *)
Definition onInboundMessage (now : Z) (msg : InboundMessage)
    (s : State) : State :=
  let text := Js.toLowerCase (Js.trim (text msg)) in
  match firstResolved now msg text (length (pending s)) (pending s) with
  | None => s
  | Some (entry, auth) =>
      {| pending := map_delete (requestId auth) (pending s);
         timers := delete (timer entry) (timers s);
         nextTimer := nextTimer s;
         sent := sent s;
         delivered := delivered s ++ [auth] |}
  end.

(** How far [requestAuthorization] got: it returned, or it is suspended
    at [await Promise.allSettled(sends)]. *)
Inductive Progress : Type :=
  | Finished
  | AwaitSends.

(** [requestAuthorization(request)] (forwarder.ts, lines 93-139), up to
    its [await]. *)
Definition requestAuthorization (config : ConductorAuthConfig)
    (request : ExternalAccessRequest) (s : State) : Progress * State :=
  let targets := default [] (targets config) in
  if (length targets =? 0)%nat then (Finished, s)
  else
    (AwaitSends,
     {| pending := pending s;
        timers := timers s;
        nextTimer := nextTimer s;
        sent := sent s ++ map (fun target => (target, request)) targets;
        delivered := delivered s |}).

(** [requestAuthorization(request)], after the sends settled: the
    timeout is armed and the request is tracked. *)
Definition requestAuthorization_settled (config : ConductorAuthConfig)
    (request : ExternalAccessRequest) (s : State) : State :=
  let timeoutMs := default 120000 (timeoutMs config) in
  let timer := nextTimer s in
  {| pending :=
       map_set (id request) {| p_request := request; timer := timer |}
         (pending s);
     timers := <[timer := (id request, timeoutMs)]> (timers s);
     nextTimer := S timer;
     sent := sent s;
     delivered := delivered s |}.

(** The whole call, the sends having settled. *)
Definition requestAuthorization_complete (config : ConductorAuthConfig)
    (request : ExternalAccessRequest) (s : State) : State :=
  match requestAuthorization config request s with
  | (Finished, s') => s'
  | (AwaitSends, s') => requestAuthorization_settled config request s'
  end.

(** The timeout callback armed for [requestId] runs (lines 123-136). *)
Definition onTimeout (now : Z) (handle : nat) (s : State) : State :=
  match timers s !! handle with
  | None => s
  | Some (requestId, _) =>
      if map_has requestId (pending s)
      then
        {| pending := map_delete requestId (pending s);
           timers := delete handle (timers s);
           nextTimer := nextTimer s;
           sent := sent s;
           delivered :=
             delivered s ++
             [{| requestId := requestId;
                 decision := Deny;
                 instructions := None;
                 resolvedBy := Some "timeout";
                 resolvedAtMs := now |}] |}
      else
        {| pending := pending s;
           timers := delete handle (timers s);
           nextTimer := nextTimer s;
           sent := sent s;
           delivered := delivered s |}
  end.

(** A request is tracked: it is in the pending set with an armed timer
    of its own. *)
Definition tracked (i : string) (s : State) : Prop :=
  exists entry delay,
    (i, entry) ∈ pending s /\ timers s !! timer entry = Some (i, delay).

End Forwarder.

(** ** Browser executor (browser-executor.ts) *)

Module BrowserExecutor.
Local Open Scope run_scope.

Definition is_navigate (a : BrowserAction) : bool :=
  match a with Navigate _ => true | _ => false end.

Definition is_screenshot (a : BrowserAction) : bool :=
  match a with Screenshot _ => true | _ => false end.

(** [resolveActions(request, authorization)] (browser-executor.ts) *)
Definition resolveActions (request : ExternalAccessRequest)
    (authorization : ConductorAuthorization) : list BrowserAction :=
  let suggested := default [] (suggestedActions request) in
  let actions :=
    match suggested, url request with
    | [], Some u =>
        if Js.truthy u then [Navigate u; ExtractText None] else []
    | _, _ => suggested
    end in
  match instructions authorization with
  | None => actions
  | Some given =>
      if negb (Js.truthy given) then actions
      else
        let instructions := Js.toLowerCase given in
        let navAction := find is_navigate actions in
        if Js.includes instructions "only screenshot"
           || Js.includes instructions "just screenshot"
        then
          match navAction with
          | Some nav => [nav; Screenshot None]
          | None => [Screenshot None]
          end
        else if Js.includes instructions "only fetch"
                || Js.includes instructions "just fetch"
        then
          match navAction with
          | Some nav => [nav; ExtractText None]
          | None => [ExtractText None]
          end
        else actions
  end.

Section WithBrowser.

(** The browser control plane behind [executeAction(action, opts)]:
    its state, and what a call with a profile and a timeout does to it
    and returns or throws. *)
Context {Browser : Type}.
Variable executeAction :
  BrowserAction -> string -> Z -> Run Browser BrowserActionResult.

(** The browser together with the log of the actions dispatched to it,
    oldest first. *)
Record Plane : Type := {
  browser : Browser;
  dispatched : list BrowserAction;
}.

(** One [await executeAction(action, { profile, actionTimeoutMs })]. *)
Definition dispatch (profile : string) (actionTimeoutMs : Z)
    (a : BrowserAction) : Run Plane BrowserActionResult :=
  fun p =>
    match executeAction a profile actionTimeoutMs (browser p) with
    | (o, b) => (o, {| browser := b; dispatched := dispatched p ++ [a] |})
    end.

(** The [for (const action of actions)] loop; [results] is the array
    built so far. *)
Fixpoint actionLoop (profile : string) (actionTimeoutMs : Z)
    (actions : list BrowserAction) (results : list BrowserActionResult)
  : Run Plane (list BrowserActionResult) :=
  match actions with
  | [] => ret results
  | action :: rest =>
      fun p =>
        match dispatch profile actionTimeoutMs action p with
        | (Returned result, p') =>
            if negb (success result) && is_navigate action
            then (Returned (results ++ [result]), p')
            else actionLoop profile actionTimeoutMs rest
                   (results ++ [result]) p'
        | (Threw err, p') =>
            actionLoop profile actionTimeoutMs rest
              (results ++ [{| action := action; success := false;
                              data := None; screenshotPath := None;
                              error := Some err |}]) p'
        end
  end.

(** The trailing [try { screenshot } catch {}]. *)
Definition trailingScreenshot (profile : string) (actionTimeoutMs : Z)
    (results : list BrowserActionResult)
  : Run Plane (list BrowserActionResult) :=
  fun p =>
    match dispatch profile actionTimeoutMs (Screenshot None) p with
    | (Returned screenshotResult, p') =>
        (Returned (results ++ [screenshotResult]), p')
    | (Threw _, p') => (Returned results, p')
    end.

(** [createBrowserExecutor(config).execute(request, authorization)]
    (browser-executor.ts) *)
Definition execute (config : ConductorBrowserConfig)
    (request : ExternalAccessRequest)
    (authorization : ConductorAuthorization)
  : Run Plane (list BrowserActionResult) :=
  let profile := default "openclaw" (profile config) in
  let actionTimeoutMs := default 30000 (actionTimeoutMs config) in
  let captureScreenshots :=
    negb (bool_decide (captureScreenshots config = Some false)) in
  let actions := resolveActions request authorization in
  if (length actions =? 0)%nat then ret []
  else
    call results <- actionLoop profile actionTimeoutMs actions [];
    if captureScreenshots && negb (existsb is_screenshot actions)
    then trailingScreenshot profile actionTimeoutMs results
    else ret results.

End WithBrowser.

End BrowserExecutor.

(** ** Gateway RPC handlers (gateway/server-methods/conductor.ts) *)

Module Gateway.

Record ConductorRequestParams : Type := {
  p_kind : option string;
  p_summary : option string;
  p_url : option string;
  p_service : option string;
  p_dataNeeded : option string;
  p_timeoutMs : option Z;
}.

(** The parameters of [conductor.resolve] as they arrive: the cast to
    [ConductorResolveParams] checks nothing. *)
Record ConductorResolveParams : Type := {
  r_id : option string;
  r_decision : option string;
  r_instructions : option string;
}.

(** An entry of [conductorPending].  [owner] stands for the entry's
    [resolve] closure: the call of [conductor.request] whose decision
    promise it settles. *)
Record ConductorPendingEntry : Type := {
  e_id : string;
  e_kind : string;
  e_summary : string;
  e_url : option string;
  e_createdAtMs : Z;
  e_expiresAtMs : Z;
  owner : nat;
}.

Record HistoryEntry : Type := {
  g_id : string;
  g_kind : string;
  g_summary : string;
  g_decision : string;
  g_completedAtMs : Z;
}.

(** The value a decision promise is resolved with. *)
Record DecisionValue : Type := {
  d_decision : string;
  d_instructions : option string;
}.

Inductive ErrorCode : Type := INVALID_REQUEST.

(** What a handler passes to [respond]. *)
Inductive Response : Type :=
  | RespondError (code : ErrorCode) (message : string)
  | RespondDecision (i : string) (v : DecisionValue)
      (createdAtMs expiresAtMs : Z)
  | RespondOk.

Inductive Broadcast : Type :=
  | Requested (i kind summary : string) (url service dataNeeded : option string)
      (createdAtMs expiresAtMs : Z)
  | Resolved (i decision : string) (instructions resolvedBy : option string)
      (ts : Z).

(** The decision promise of one call of [conductor.request]. *)
Inductive PromiseState : Type :=
  | Unsettled
  | Settled (v : DecisionValue)
  | Consumed.

(** One call of [conductor.request] suspended at [await decisionPromise]:
    the variables its continuation closes over, the state of its promise
    ([Consumed] once the continuation has run) and whether its timer is
    still armed. *)
Record RequestCall : Type := {
  c_entry : ConductorPendingEntry;
  c_promise : PromiseState;
  c_timer : bool;
}.

(** The module state and the event loop's: the pending map and the
    history, the calls of [conductor.request] made so far, the microtask
    queue (calls whose continuation is ready, oldest first), and the logs
    of [context.broadcast] and of the deferred [respond] calls. *)
Record State : Type := {
  conductorPending : gmap string ConductorPendingEntry;
  conductorHistory : list HistoryEntry;
  calls : list RequestCall;
  microtasks : list nat;
  broadcasts : list Broadcast;
  responses : list (nat * Response);
}.

Definition initial : State :=
  {| conductorPending := ∅; conductorHistory := []; calls := [];
     microtasks := []; broadcasts := []; responses := [] |}.

(** [resolveDecision(value)] of call [n]: the first settlement readies
    the continuation, later ones do nothing. *)
Definition resolveDecision (n : nat) (v : DecisionValue) (s : State) : State :=
  match calls s !! n with
  | Some c =>
      match c_promise c with
      | Unsettled =>
          {| conductorPending := conductorPending s;
             conductorHistory := conductorHistory s;
             calls := <[n := {| c_entry := c_entry c;
                                c_promise := Settled v;
                                c_timer := c_timer c |}]> (calls s);
             microtasks := microtasks s ++ [n];
             broadcasts := broadcasts s;
             responses := responses s |}
      | _ => s
      end
  | None => s
  end.

(** [conductor.request] (lines 55-116), up to [await decisionPromise];
    [newId] is what
    [crypto.randomUUID()] returns.  The result is the error passed to
    [respond] when the parameters are refused. *)
Definition conductor_request (now : Z) (newId : string)
    (p : ConductorRequestParams) (s : State) : option Response * State :=
  if negb (Js.truthy_opt (p_summary p)) && negb (Js.truthy_opt (p_url p))
  then (Some (RespondError INVALID_REQUEST "summary or url required"), s)
  else
    let timeoutMs := default 120000 (p_timeoutMs p) in
    let createdAtMs := now in
    let expiresAtMs := createdAtMs + timeoutMs in
    let entry :=
      {| e_id := newId;
         e_kind := default "unknown" (p_kind p);
         e_summary :=
           match p_summary p with
           | Some given => given
           | None => "Access " +:+ default "undefined" (p_url p)
           end;
         e_url := p_url p;
         e_createdAtMs := createdAtMs;
         e_expiresAtMs := expiresAtMs;
         owner := length (calls s) |} in
    (None,
     {| conductorPending := <[newId := entry]> (conductorPending s);
        conductorHistory := conductorHistory s;
        calls := calls s ++ [{| c_entry := entry; c_promise := Unsettled;
                                c_timer := true |}];
        microtasks := microtasks s;
        broadcasts :=
          broadcasts s ++
          [Requested newId (e_kind entry) (e_summary entry) (p_url p)
             (p_service p) (p_dataNeeded p) createdAtMs expiresAtMs];
        responses := responses s |}).

(** The timer callback of call [n] (lines 109-114). *)
Definition onTimer (n : nat) (s : State) : State :=
  match calls s !! n with
  | Some c =>
      if c_timer c then
        let disarmed :=
          {| conductorPending := conductorPending s;
             conductorHistory := conductorHistory s;
             calls := <[n := {| c_entry := c_entry c;
                                c_promise := c_promise c;
                                c_timer := false |}]> (calls s);
             microtasks := microtasks s;
             broadcasts := broadcasts s;
             responses := responses s |} in
        match conductorPending s !! e_id (c_entry c) with
        | Some _ =>
            resolveDecision n
              {| d_decision := "deny"; d_instructions := None |}
              {| conductorPending :=
                   delete (e_id (c_entry c)) (conductorPending disarmed);
                 conductorHistory := conductorHistory disarmed;
                 calls := calls disarmed;
                 microtasks := microtasks disarmed;
                 broadcasts := broadcasts disarmed;
                 responses := responses disarmed |}
        | None => disarmed
        end
      else s
  | None => s
  end.

(** [conductor.request], after [await decisionPromise], for call [n]
    (lines 116-138). *)
Definition conductor_request_decided (now : Z) (n : nat) (s : State) : State :=
  match calls s !! n with
  | Some c =>
      match c_promise c with
      | Settled result =>
          let entry := c_entry c in
          {| conductorPending := delete (e_id entry) (conductorPending s);
             conductorHistory :=
               conductorHistory s ++
               [{| g_id := e_id entry; g_kind := e_kind entry;
                   g_summary := e_summary entry;
                   g_decision := d_decision result;
                   g_completedAtMs := now |}];
             calls := <[n := {| c_entry := entry; c_promise := Consumed;
                                c_timer := false |}]> (calls s);
             microtasks := microtasks s;
             broadcasts := broadcasts s;
             responses :=
               responses s ++
               [(n, RespondDecision (e_id entry) result
                      (e_createdAtMs entry) (e_expiresAtMs entry))] |}
      | _ => s
      end
  | None => s
  end.

Definition valid_decision (d : string) : bool :=
  Js.eqb d "approve" || Js.eqb d "deny" ||
  Js.eqb d "approve-with-instructions".

(** [conductor.resolve] (lines 141-191); [client] is the caller's display
    name or id. *)
Definition conductor_resolve (now : Z) (client : option string)
    (p : ConductorResolveParams) (s : State) : Response * State :=
  match r_id p, r_decision p with
  | Some i, Some d =>
      if negb (Js.truthy i) || negb (Js.truthy d)
      then (RespondError INVALID_REQUEST "id and decision required", s)
      else if negb (valid_decision d)
      then (RespondError INVALID_REQUEST "invalid decision", s)
      else
        match conductorPending s !! i with
        | None => (RespondError INVALID_REQUEST "unknown request id", s)
        | Some entry =>
            let s1 :=
              resolveDecision (owner entry)
                {| d_decision := d; d_instructions := r_instructions p |} s in
            (RespondOk,
             {| conductorPending := conductorPending s1;
                conductorHistory := conductorHistory s1;
                calls := calls s1;
                microtasks := microtasks s1;
                broadcasts :=
                  broadcasts s1 ++
                  [Resolved i d (r_instructions p) client now];
                responses := responses s1 |})
        end
  | _, _ => (RespondError INVALID_REQUEST "id and decision required", s)
  end.

(** The microtask checkpoint at the end of a task: the ready
    continuations run, oldest first. *)
Definition drain (now : Z) (s : State) : State :=
  foldl (fun acc n => conductor_request_decided now n acc)
    {| conductorPending := conductorPending s;
       conductorHistory := conductorHistory s;
       calls := calls s;
       microtasks := [];
       broadcasts := broadcasts s;
       responses := responses s |}
    (microtasks s).

(** The tasks of the event loop: an RPC call, or a timer firing. *)
Inductive Task : Type :=
  | CallRequest (newId : string) (p : ConductorRequestParams)
  | CallResolve (client : option string) (p : ConductorResolveParams)
  | TimerFires (n : nat).

(** Modelled from the spec: the gateway's dispatcher, which is not part
    of these sources.  As in the specification's scheduling model (single
    process, cooperative, resolutions submitted one at a time) every RPC
    call is handled in a task of its own: one task, run to completion
    with the microtasks it readied, and what it passed to [respond]
    before suspending or returning.  The handlers themselves, with no
    such assumption, are [occur] below. *)
Definition perform (now : Z) (t : Task) (s : State) : option Response * State :=
  match t with
  | CallRequest newId p =>
      match conductor_request now newId p s with
      | (r, s') => (r, drain now s')
      end
  | CallResolve client p =>
      match conductor_resolve now client p s with
      | (r, s') => (Some r, drain now s')
      end
  | TimerFires n => (None, drain now (onTimer n s))
  end.

Definition performAll (tasks : list (Z * Task)) (s : State) : State :=
  foldl (fun acc nt => (perform nt.1 nt.2 acc).2) s tasks.

(** The request id a task makes [crypto.randomUUID()] return, if any. *)
Definition draws (t : Task) : option string :=
  match t with
  | CallRequest newId _ => Some newId
  | _ => None
  end.

(** Between two tasks no continuation is waiting to run. *)
Definition idle (s : State) : Prop := microtasks s = [].

(** Every pending entry belongs to a call that still awaits its decision
    and that closes over the entry's id. *)
Definition owned (s : State) : Prop :=
  forall i e,
    conductorPending s !! i = Some e ->
    exists c,
      calls s !! owner e = Some c
      /\ c_promise c = Unsettled
      /\ e_id (c_entry c) = i.

(** The states the handlers leave between tasks. *)
Definition consistent (s : State) : Prop := idle s /\ owned s.

(** [i] has no entry in [conductorPending]. *)
Definition absent (i : string) (s : State) : Prop :=
  conductorPending s !! i = None.

(** *** The handlers under any dispatcher *)








End Gateway.

(** ** Invariants of the orchestrator's records *)

Module Ledger.
Import Interceptor Conductor.

(** [inject] would write: there is a child and its stdin is writable. *)
Definition can_write (t : TerminalInterceptor) : bool :=
  match child t with
  | Some c => writable c
  | None => false
  end.

(** An invariant of the event loop: [S] holds of the instance state and
    [T] of every suspended method. *)
Definition holds (S : Session -> Prop) (T : Awaiting -> Prop)
    (sys : System) : Prop :=
  S (session sys) /\ Forall T (tasks sys).

(** What a method run from [s] establishes: [S] of the state it leaves,
    however it ends, and [T] of the method it suspends as. *)
Definition establishes (S : Session -> Prop) (T : Awaiting -> Prop)
    (m : Run Session (option Awaiting)) (s : Session) : Prop :=
  S (m s).2 /\ forall t, (m s).1 = Returned (Some t) -> T t.

(** Every pending request is stored under its own id. *)
Definition keyed (s : Session) : Prop :=
  forall i r, pending s !! i = Some r -> id r = i.

(** A history record whose authorization and injection are those of its
    request. *)
Definition matched (h : ConductorHistoryEntry) : Prop :=
  exists a j,
    h_authorization h = Some a /\ h_injection h = Some j
    /\ requestId a = id (h_request h) /\ inj_requestId j = id (h_request h).

(** A suspended execution whose authorization is that of its request. *)
Definition matched_task (t : Awaiting) : Prop :=
  match t with
  | AwaitExecute _ r a | AwaitNotify _ r a => requestId a = id r
  | _ => True
  end.

(** The pending map and the history are in order. *)
Definition filed (s : Session) : Prop :=
  keyed s /\ Forall matched (history s).

(** No call of the executor carries a denial. *)
Definition approved_only (s : Session) : Prop :=
  Forall (fun ra => decision ra.2 <> Deny) (executed s).

Definition approved_task (t : Awaiting) : Prop :=
  match t with
  | AwaitExecute _ _ a | AwaitNotify _ _ a => decision a <> Deny
  | _ => True
  end.

(** The logs of [later] extend those of [earlier]. *)
Definition extends (earlier later : Session) : Prop :=
  history earlier `prefix_of` history later
  /\ written (interceptor earlier) `prefix_of` written (interceptor later)
  /\ default [] (auditStream earlier) `prefix_of`
     default [] (auditStream later)
  /\ events earlier `prefix_of` events later.

(** Three writes per history record, counted from [earlier]. *)
Definition balanced (earlier later : Session) : Prop :=
  (length (written (interceptor later))
   + 3 * length (history earlier)
   = length (written (interceptor earlier))
     + 3 * length (history later))%nat.

End Ledger.

(** ** Terminal interceptor (interceptor.ts): the output side *)

Module Capture.
Import Interceptor.

(** One unit for a byte that starts a character, two for one that starts
    a four-byte sequence (a character outside the basic plane, a surrogate
    pair in UTF-16), none for a continuation byte. *)
Definition units (c : ascii) : nat :=
  let n := nat_of_ascii c in
  if (n <? 128)%nat then 1%nat
  else if (n <? 192)%nat then 0%nat
  else if (n <? 240)%nat then 1%nat
  else 2%nat.

(** [s.length]: the UTF-16 code units of the text that [s] encodes. *)
Fixpoint length16 (s : string) : nat :=
  match s with
  | "" => 0%nat
  | String c s' => (units c + length16 s')%nat
  end.

(** What the interceptor emits to its listeners. *)
Inductive Emitted : Type :=
  | EmOutput (text : string)
  | EmFlush (buffered : string)
  | EmExit (code : option Z) (signal : option string)
  | EmError (err : string).

(** A child process handle: its stdin, its [killed] flag and the signals
    sent to it with [kill]. *)
Record Spawned : Type := {
  io : ChildProcess;
  killed : bool;
  signals : list string;
}.

(** The instance: [child], [buffer], whether [flushTimer] holds a timer,
    and around it the live [setInterval] timers, the armed force-kill
    timeouts, the ["data"] listeners added to [process.stdin], the events
    emitted, and the children the instance no longer refers to. *)
Record State : Type := {
  child : option Spawned;
  buffer : string;
  flushTimer : bool;
  intervals : nat;
  timeouts : nat;
  listeners : nat;
  emitted : list Emitted;
  released : list Spawned;
}.

(** [new TerminalInterceptor(config)] *)
Definition created : State :=
  {| child := None; buffer := ""; flushTimer := false; intervals := 0;
     timeouts := 0; listeners := 0; emitted := []; released := [] |}.

Definition set_child (c : option Spawned) (s : State) : State :=
  {| child := c; buffer := buffer s; flushTimer := flushTimer s;
     intervals := intervals s; timeouts := timeouts s;
     listeners := listeners s; emitted := emitted s;
     released := released s |}.

Definition set_buffer (b : string) (s : State) : State :=
  {| child := child s; buffer := b; flushTimer := flushTimer s;
     intervals := intervals s; timeouts := timeouts s;
     listeners := listeners s; emitted := emitted s;
     released := released s |}.

Definition set_timer (armed : bool) (live : nat) (s : State) : State :=
  {| child := child s; buffer := buffer s; flushTimer := armed;
     intervals := live; timeouts := timeouts s;
     listeners := listeners s; emitted := emitted s;
     released := released s |}.

Definition set_timeouts (n : nat) (s : State) : State :=
  {| child := child s; buffer := buffer s; flushTimer := flushTimer s;
     intervals := intervals s; timeouts := n;
     listeners := listeners s; emitted := emitted s;
     released := released s |}.

Definition set_listeners (n : nat) (s : State) : State :=
  {| child := child s; buffer := buffer s; flushTimer := flushTimer s;
     intervals := intervals s; timeouts := timeouts s;
     listeners := n; emitted := emitted s;
     released := released s |}.

Definition release (c : Spawned) (s : State) : State :=
  {| child := child s; buffer := buffer s; flushTimer := flushTimer s;
     intervals := intervals s; timeouts := timeouts s;
     listeners := listeners s; emitted := emitted s;
     released := released s ++ [c] |}.

(** [this.emit(name, ...)] *)
Definition emit (e : Emitted) (s : State) : State :=
  {| child := child s; buffer := buffer s; flushTimer := flushTimer s;
     intervals := intervals s; timeouts := timeouts s;
     listeners := listeners s; emitted := emitted s ++ [e];
     released := released s |}.

(** [flushBuffer()] (interceptor.ts, lines 136-142); a string has length
    0 exactly when it is empty. *)
Definition flushBuffer (s : State) : State :=
  if Js.truthy (buffer s)
  then emit (EmFlush (buffer s)) (set_buffer "" s)
  else s.

(** [appendBuffer(text)] (lines 129-134) *)
Definition appendBuffer (maxBufferSize : Z) (text : string) (s : State)
  : State :=
  let s' := set_buffer (buffer s +:+ text) s in
  if maxBufferSize <=? Z.of_nat (length16 (buffer s'))
  then flushBuffer s'
  else s'.

(** [startFlushTimer()] (lines 144-148) *)
Definition startFlushTimer (s : State) : State :=
  set_timer true (S (intervals s)) s.

(** [stopFlushTimer()] (lines 150-155) *)
Definition stopFlushTimer (s : State) : State :=
  if flushTimer s then set_timer false (pred (intervals s)) s else s.

(** [child.kill(signal)]: the signal is recorded, and [killed] is set when
    it was delivered. *)
Definition kill (signal : string) (delivered : bool) (c : Spawned)
  : Spawned :=
  {| io := io c; killed := killed c || delivered;
     signals := signals c ++ [signal] |}.

Definition already_running : string := "Error: Interceptor already running".

(** [start()] (lines 43-88); [spawned] is the stdin of the process that
    [spawn] returns. *)
Definition start (spawned : ChildProcess) : Run State unit :=
  fun s =>
    match child s with
    | Some _ => (Threw already_running, s)
    | None =>
        (Returned tt,
         startFlushTimer
           (set_listeners (S (listeners s))
              (set_child
                 (Some {| io := spawned; killed := false; signals := [] |})
                 s)))
    end.

(** The ["data"] handlers of the child's stdout and stderr (lines 54-67);
    [text] is [chunk.toString("utf8")]. *)
Definition onData (maxBufferSize : Z) (text : string) (s : State) : State :=
  emit (EmOutput text) (appendBuffer maxBufferSize text s).

(** The child's ["exit"] handler (lines 69-73) *)
Definition onExit (code : option Z) (signal : option string) (s : State)
  : State :=
  emit (EmExit code signal) (stopFlushTimer (flushBuffer s)).

(** The child's ["error"] handler (lines 75-77) *)
Definition onError (err : string) (s : State) : State :=
  emit (EmError err) s.

(** One ["data"] listener of [process.stdin] (lines 80-84): the chunk is
    written when the child's stdin is writable and dropped otherwise. *)
Definition forwardChunk (chunk : string) (s : State) : State :=
  match child s with
  | Some c =>
      if writable (io c)
      then set_child
             (Some {| io := {| writable := true;
                               stdin := stdin (io c) ++ [chunk] |};
                      killed := killed c; signals := signals c |}) s
      else s
  | None => s
  end.

(** A chunk typed by the operator: every listener added so far runs. *)
Definition onStdin (chunk : string) (s : State) : State :=
  Nat.iter (listeners s) (forwardChunk chunk) s.

(** [stop()] (lines 114-127) *)
Definition stop (delivered : bool) (s : State) : State :=
  let s1 := stopFlushTimer (flushBuffer s) in
  match child s1 with
  | Some c =>
      if negb (killed c)
      then set_child None
             (release (kill "SIGTERM" delivered c)
                (set_timeouts (S (timeouts s1)) s1))
      else set_child None (release c s1)
  | None => set_child None s1
  end.

(** The callback of the 5 s timeout that [stop()] arms (lines 120-124). *)
Definition onForceKill (delivered : bool) (s : State) : State :=
  match timeouts s with
  | O => s
  | S n =>
      let s1 := set_timeouts n s in
      match child s1 with
      | Some c =>
          if negb (killed c)
          then set_child (Some (kill "SIGKILL" delivered c)) s1
          else s1
      | None => s1
      end
  end.

(** The callback of the interval timer (lines 145-147), while a timer is
    live. *)
Definition onInterval (s : State) : State :=
  match intervals s with
  | O => s
  | S _ => flushBuffer s
  end.

(** [inject(text)] (lines 91-96) on the instance's current child. *)
Definition inject (text : string) : Run State unit :=
  fun s =>
    match child s with
    | Some c =>
        if writable (io c)
        then (Returned tt,
              set_child
                (Some {| io := {| writable := true;
                                  stdin := stdin (io c) ++ [text] |};
                         killed := killed c; signals := signals c |}) s)
        else (Threw not_writable, s)
    | None => (Threw not_writable, s)
    end.

(** The instance as the injector sees it. *)
Definition stdin_side (s : State) : TerminalInterceptor :=
  {| Interceptor.child := io <$> child s |}.

(** What happens to the instance: a call of one of its methods, or one of
    the callbacks it registered. *)
Inductive Event : Type :=
  | Start (spawned : ChildProcess)
  | Stop (delivered : bool)
  | Inject (text : string)
  | Data (text : string)
  | Interval
  | ForceKill (delivered : bool)
  | Exit (code : option Z) (signal : option string)
  | Error (err : string)
  | Stdin (chunk : string).

(** A method that throws leaves the instance as it was at the throw. *)
Definition react (maxBufferSize : Z) (s : State) (e : Event) : State :=
  match e with
  | Start spawned => (start spawned s).2
  | Stop delivered => stop delivered s
  | Inject text => (inject text s).2
  | Data text => onData maxBufferSize text s
  | Interval => onInterval s
  | ForceKill delivered => onForceKill delivered s
  | Exit code signal => onExit code signal s
  | Error err => onError err s
  | Stdin chunk => onStdin chunk s
  end.

Definition reacts (maxBufferSize : Z) (events : list Event) (s : State)
  : State :=
  foldl (react maxBufferSize) s events.

(** The texts of the ["flush"] events, oldest first. *)
Definition flushes (l : list Emitted) : list string :=
  omap (fun e => match e with EmFlush b => Some b | _ => None end) l.

(** The texts of the ["output"] events, oldest first. *)
Definition outputs (l : list Emitted) : list string :=
  omap (fun e => match e with EmOutput t => Some t | _ => None end) l.

(** The texts the child's output streams delivered, oldest first. *)
Definition delivered_texts (events : list Event) : list string :=
  omap (fun e => match e with Data t => Some t | _ => None end) events.

Definition is_start (e : Event) : bool :=
  match e with Start _ => true | _ => false end.

Definition is_stop (e : Event) : bool :=
  match e with Stop _ => true | _ => false end.

(** What one event adds to the captured text. *)
Definition carried (e : Event) : string :=
  match e with Data t => t | _ => "" end.

(** The interval timers that are live are the one [flushTimer] holds, and
    a timer is held only while a child is. *)
Definition timed (s : State) : Prop :=
  intervals s = (if flushTimer s then 1%nat else 0%nat)
  /\ (flushTimer s = true -> child s <> None).

(** No ["flush"] event carries the empty string. *)
Definition substantial (s : State) : Prop :=
  Forall (fun b => b <> "") (flushes (emitted s)).

(** The buffer is shorter than [maxBufferSize]. *)
Definition below (maxBufferSize : Z) (s : State) : Prop :=
  Z.of_nat (length16 (buffer s)) < maxBufferSize.

(** One ["data"] listener on [process.stdin] for every child spawned: the
    current one and those let go of. *)
Definition listening (s : State) : Prop :=
  listeners s
  = (length (released s)
     + match child s with Some _ => 1 | None => 0 end)%nat.

(** Everything captured so far: what was flushed, then what is buffered. *)
Definition captured (s : State) : string :=
  Js.concat (flushes (emitted s)) +:+ buffer s.

End Capture.

(** ** Analyzer (analyzer.ts): the regex analyzer and its helpers *)

(** The host functions the analyzer calls: [new RegExp(source,
    "i").exec(input)], which gives [null] or the match with its first
    group ([undefined] when the group took no part or the expression has
    none), and the string methods [toLowerCase] and [trim]. *)
Class Host : Type := {
  exec_ignoreCase : string -> string -> option (string * option string);
  toLowerCase : string -> string;
  trim : string -> string;
}.

Module Detection.
Import Analyzer.

Definition quote : string := String (ascii_of_nat 34) "".

(** The white space and line terminators of [\s] beyond ASCII, in UTF-8:
    U+00A0, U+1680, U+2000 to U+200A, U+2028, U+2029, U+202F, U+205F,
    U+3000 and U+FEFF. *)
Definition wide_spaces : list string :=
  map Injector.of_bytes
    ([[194; 160]; [225; 154; 128]] ++
     map (fun n => [226; 128; n]) (seq 128 11) ++
     [[226; 128; 168]; [226; 128; 169]; [226; 128; 175];
      [226; 129; 159]; [227; 128; 128]; [239; 187; 191]])%nat.

(** Whether a character of the class [\s] starts [s]. *)
Definition at_space (s : string) : bool :=
  match s with
  | "" => false
  | String c _ =>
      Js.is_space c || existsb (fun w => Js.startsWith s w) wide_spaces
  end.

(** The delimiters that the class of [extractUrl] excludes besides white
    space: double quote, quote, backquote, closing parenthesis, closing
    bracket and greater-than. *)
Definition url_stop (c : ascii) : bool :=
  bool_decide (c ∈ [ascii_of_nat 34; "'"; "`"; ")"; "]"; ">"]%char).

(** Whether the class of [extractUrl], any character but white space and
    the six delimiters, matches at the start of [s].  A character of
    several bytes is matched byte by byte: no byte after the first starts
    a character of [\s]. *)
Definition url_char (s : string) : bool :=
  match s with
  | "" => false
  | String c _ => negb (at_space s) && negb (url_stop c)
  end.

(** The longest run of characters of the class at the start of [s]. *)
Fixpoint urlRun (s : string) : string :=
  match s with
  | "" => ""
  | String c s' => if url_char s then String c (urlRun s') else ""
  end.

(** [s.slice(n)] *)
Fixpoint skip (n : nat) (s : string) : string :=
  match n, s with
  | S n', String _ s' => skip n' s'
  | _, _ => s
  end.

(** The match of [https?:\/\/] at the start of [s], and what follows. *)
Definition schemeAt (s : string) : option (string * string) :=
  if Js.startsWith s "https://" then Some ("https://", skip 8 s)
  else if Js.startsWith s "http://" then Some ("http://", skip 7 s)
  else None.

(** The match of the expression of [extractUrl] at the start of [s]: the
    scheme, then one character of the class or more. *)
Definition urlAt (s : string) : option string :=
  match schemeAt s with
  | Some (scheme, rest) =>
      match urlRun rest with
      | "" => None
      | found => Some (scheme +:+ found)
      end
  | None => None
  end.

(** [extractUrl(text)] (analyzer.ts, lines 353-356): the leftmost match. *)
Fixpoint extractUrl (text : string) : option string :=
  match urlAt text with
  | Some u => Some u
  | None =>
      match text with
      | "" => None
      | String _ rest => extractUrl rest
      end
  end.

(** [buildSummary(kind, url, service, _text)] (lines 408-431) *)
Definition buildSummary (kind : ExternalAccessKind) (url service : option string)
    (_text : string) : string :=
  let target := default (default "external resource" service) url in
  match kind with
  | UrlVisit => "Visit " +:+ target
  | CredentialFetch => "Fetch credentials from " +:+ target
  | ApiCheck => "Check API endpoint at " +:+ target
  | ServiceAction => "Perform action on " +:+ target
  | FileDownload => "Download file from " +:+ target
  | Verification => "Verify page/deployment at " +:+ target
  | UnknownKind => "External access request: " +:+ target
  end.

(** [buildSuggestedActions(kind, url)] (lines 433-461) *)
Definition buildSuggestedActions (kind : ExternalAccessKind)
    (url : option string) : option (list BrowserAction) :=
  match url with
  | None => None
  | Some u =>
      if negb (Js.truthy u) then None
      else
        Some (Navigate u ::
              match kind with
              | UrlVisit | Verification => [Screenshot None; ExtractText None]
              | CredentialFetch => [ExtractText None]
              | ApiCheck => [ExtractText None]
              | FileDownload => []
              | _ => [Screenshot None]
              end)
  end.

Definition services : list string :=
  [
    "Railway"; "Vercel"; "Netlify"; "Supabase"; "Firebase"; "AWS";
    "GCP"; "Azure"; "Heroku"; "Render"; "Fly"; "GitHub"; "GitLab";
    "Bitbucket"; "Cloudflare"; "DigitalOcean"; "MongoDB"; "Redis";
    "PostgreSQL"; "MySQL"; "Stripe"; "Twilio"; "SendGrid"; "Auth0";
    "Okta"
  ].

Definition DEFAULT_PATTERNS : list (string * ExternalAccessKind) :=
  [
    ("(?:please\s+)?(?:go\s+to|visit|open|navigate\s+to|check|" +:+
      "browse\s+to)\s+(https?:\/\/[^\s" +:+
      quote +:+
      "'`]+)",
     UrlVisit);
    ("(?:i\s+need\s+you\s+to\s+)?(?:look\s+at|view)\s+(https?:" +:+
      "\/\/[^\s" +:+
      quote +:+
      "'`]+)",
     UrlVisit);
    ("(?:need|require|get|fetch|grab|retrieve)\s+(?:the\s+)?(?" +:+
      ":credentials?|creds?|api\s*keys?|tokens?|secrets?|passwo" +:+
      "rds?)\s+(?:from|for|on)\s+(\S+)",
     CredentialFetch);
    ("(?:DATABASE_URL|DB_URL|API_KEY|SECRET_KEY|ACCESS_TOKEN|A" +:+
      "UTH_TOKEN)\s*(?:from|on|at)\s+(\S+)",
     CredentialFetch);
    ("(?:check|verify|test|hit|call)\s+(?:the\s+)?(?:api|endpo" +:+
      "int)\s+(?:at\s+)?(https?:\/\/[^\s" +:+
      quote +:+
      "'`]+)",
     ApiCheck);
    ("(?:go\s+to|open|log\s+in(?:to)?|sign\s+in(?:to)?)\s+(?:t" +:+
      "he\s+)?(\w+)\s+(?:dashboard|console|portal|admin|panel|s" +:+
      "ettings)",
     ServiceAction);
    ("(?:Railway|Vercel|Netlify|Supabase|Firebase|AWS|GCP|Azur" +:+
      "e|Heroku|Render|Fly)\s+(?:dashboard|console|settings)",
     ServiceAction);
    ("(?:download|fetch|get)\s+(?:the\s+)?(?:file|asset|resour" +:+
      "ce)\s+(?:from|at)\s+(https?:\/\/[^\s" +:+
      quote +:+
      "'`]+)",
     FileDownload);
    ("(?:verify|confirm|check\s+if|see\s+if|make\s+sure)\s+(?:" +:+
      "the\s+)?(?:page|site|website|app|deployment)\s+(?:at\s+)" +:+
      "?(https?:\/\/[^\s" +:+
      quote +:+
      "'`]+)",
     Verification)
  ].

Definition dataNeededPatterns : list string :=
  ["(?:need|looking for|want)\s+(?:the\s+)?(.+?)(?:\.|$)";
   "(?:DATABASE_URL|DB_URL|API_KEY|SECRET_KEY|ACCESS_TOKEN|AUTH_TOKEN)\b"].

Section WithHost.
Context `{Host}.

(** [extractServiceName(text)] (lines 358-392) *)
Definition extractServiceName (text : string) : option string :=
  find (fun service => Js.includes (toLowerCase text) (toLowerCase service))
    services.

(** [extractDataNeeded(text)] (lines 394-406) *)
Definition extractDataNeeded (text : string) : option string :=
  let fix first (patterns : list string) : option string :=
    match patterns with
    | [] => None
    | pattern :: rest =>
        match exec_ignoreCase pattern text with
        | Some (whole, group) => Some (trim (default whole group))
        | None => first rest
        end
    end in
  first dataNeededPatterns.

(** The first of [allPatterns] that matches: its match and its kind. *)
Fixpoint firstMatch (allPatterns : list (string * ExternalAccessKind))
    (cleaned : string)
  : option ((string * option string) * ExternalAccessKind) :=
  match allPatterns with
  | [] => None
  | (pattern, kind) :: rest =>
      match exec_ignoreCase pattern cleaned with
      | Some found => Some (found, kind)
      | None => firstMatch rest cleaned
      end
  end.

(** [createRegexAnalyzer(config).analyze(terminalOutput)] (lines 84-116);
    [patterns] is [config.patterns ?? []]. *)
Definition analyze (patterns : list string) (terminalOutput : string)
  : AnalyzerResult :=
  let customPatterns := map (fun p => (p, UnknownKind)) patterns in
  let allPatterns := DEFAULT_PATTERNS ++ customPatterns in
  let cleaned := stripAnsi terminalOutput in
  match firstMatch allPatterns cleaned with
  | Some (found, kind) =>
      let url := extractUrl (default cleaned found.2) in
      let service := extractServiceName cleaned in
      {| detected := true;
         request :=
           Some {| a_kind := kind;
                   a_summary := buildSummary kind url service cleaned;
                   a_rawOutput := terminalOutput;
                   a_url := url;
                   a_service := service;
                   a_dataNeeded := extractDataNeeded cleaned;
                   a_suggestedActions := buildSuggestedActions kind url |};
         confidence := 8 # 10 |}
  | None => {| detected := false; request := None; confidence := 0 |}
  end.

End WithHost.

(** The result with [rawOutput] replaced. *)
Definition with_rawOutput (raw : string) (r : AnalyzerResult)
  : AnalyzerResult :=
  {| detected := detected r;
     request :=
       (fun q => {| a_kind := a_kind q;
                    a_summary := a_summary q;
                    a_rawOutput := raw;
                    a_url := a_url q;
                    a_service := a_service q;
                    a_dataNeeded := a_dataNeeded q;
                    a_suggestedActions := a_suggestedActions q |})
       <$> request r;
     confidence := confidence r |}.

(** An action that only reads the page. *)
Definition reads_page (a : BrowserAction) : Prop :=
  a = Screenshot None \/ a = ExtractText None.

(** The request [handleTerminalOutput] builds from what the analyzer
    returned carries its URL and its suggested actions. *)
Definition built_from (q : AnalyzedRequest) (r : ExternalAccessRequest)
  : Prop :=
  url r = a_url q /\ suggestedActions r = a_suggestedActions q.

(** A host for expressions without syntax characters, on ASCII text: the
    expression matches where its text occurs, letter case aside. *)
Module Literal.

Fixpoint foundAt (source text : string) : option string :=
  if Js.startsWith (Js.toLowerCase text) (Js.toLowerCase source)
  then Some (Js.slice0 (String.length source) text)
  else
    match text with
    | "" => None
    | String _ rest => foundAt source rest
    end.

Definition exec (source text : string) : option (string * option string) :=
  if every (fun c => negb (Glob.is_syntax c)) source
  then (fun whole => (whole, None)) <$> foundAt source text
  else None.

Definition host : Host :=
  {| exec_ignoreCase := exec;
     toLowerCase := Js.toLowerCase;
     trim := Js.trim |}.

End Literal.

End Detection.

(** ** The forwarder over time *)

Module ForwarderLoop.
Import Forwarder.

(** The forwarder and the calls of [requestAuthorization] suspended at
    [await Promise.allSettled(sends)], oldest first. *)
Record System : Type := {
  state : State;
  sending : list ExternalAccessRequest;
}.

Definition started : System := {| state := initial; sending := [] |}.

(** What the forwarder reacts to: a call of [requestAuthorization], the
    sends of the [n]-th suspended call settling, an inbound message, and
    the timeout with handle [h] firing. *)
Inductive Input : Type :=
  | Request (request : ExternalAccessRequest)
  | SendsSettled (n : nat)
  | Message (msg : InboundMessage)
  | TimerFires (h : nat).

Definition step (config : ConductorAuthConfig) (now : Z) (i : Input)
    (sys : System) : System :=
  match i with
  | Request request =>
      match requestAuthorization config request (state sys) with
      | (Finished, s') => {| state := s'; sending := sending sys |}
      | (AwaitSends, s') =>
          {| state := s'; sending := sending sys ++ [request] |}
      end
  | SendsSettled n =>
      match sending sys !! n with
      | Some request =>
          {| state := requestAuthorization_settled config request (state sys);
             sending := delete n (sending sys) |}
      | None => sys
      end
  | Message msg =>
      {| state := onInboundMessage now msg (state sys);
         sending := sending sys |}
  | TimerFires h =>
      {| state := onTimeout now h (state sys); sending := sending sys |}
  end.

Definition steps (config : ConductorAuthConfig)
    (inputs : list (Z * Input)) (sys : System) : System :=
  foldl (fun acc ni => step config ni.1 ni.2 acc) sys inputs.

Definition bit (b : bool) : nat := if b then 1%nat else 0%nat.

(** How many elements of [l] satisfy [p]. *)
Fixpoint tally {A : Type} (p : A -> bool) (l : list A) : nat :=
  match l with
  | [] => 0%nat
  | x :: rest => (bit (p x) + tally p rest)%nat
  end.

(** The authorizations delivered for request [i]. *)
Definition deliveries (i : string) (s : State) : nat :=
  tally (fun a => Js.eqb (requestId a) i) (delivered s).

Definition requests_id (i : string) (ni : Z * Input) : bool :=
  match ni.2 with
  | Request request => Js.eqb (id request) i
  | _ => false
  end.

(** The calls of [requestAuthorization] for request [i]. *)
Definition requests (i : string) (inputs : list (Z * Input)) : nat :=
  tally (requests_id i) inputs.

(** The authorizations a request can still receive: one while it is in
    the pending map, one for every call for it that is still sending. *)
Definition outstanding (i : string) (sys : System) : nat :=
  (bit (map_has i (pending (state sys)))
   + tally (fun request => Js.eqb (id request) i) (sending sys))%nat.

End ForwarderLoop.

(** ** Gateway RPC handlers: the history query and the answers given *)

Module GatewayQueries.
Import Gateway.

(** [array.slice(start)] for an integer [start]: a negative [start]
    counts from the end, and both ends are clamped. *)
Definition slice_from {A : Type} (start : Z) (l : list A) : list A :=
  let len := Z.of_nat (length l) in
  let k := if start <? 0 then Z.max (len + start) 0 else Z.min start len in
  drop (Z.to_nat k) l.

(** [conductor.history] (lines 214-220), for an integer [limit]: the
    entries and the total passed to [respond]. *)
Definition conductor_history (limit : option Z) (s : State)
  : list HistoryEntry * nat :=
  let limit := default 50 limit in
  let recent := slice_from (- limit) (conductorHistory s) in
  (recent, length (conductorHistory s)).

(** The request id and the decision a response answers with. *)
Definition answered (r : nat * Response) : option (string * string) :=
  match r.2 with
  | RespondDecision i v _ _ => Some (i, d_decision v)
  | _ => None
  end.

(** The request id and the decision a history entry records. *)
Definition recorded (h : HistoryEntry) : string * string :=
  (g_id h, g_decision h).

(** The history holds the decisions answered so far, in their order. *)
Definition mirrored (s : State) : Prop :=
  omap answered (responses s) = map recorded (conductorHistory s).

End GatewayQueries.

(** ** Browser executor: one action (browser-executor.ts, [executeAction]) *)

Module BrowserActions.
Local Open Scope run_scope.

(** What [browserStatus] resolves with, as far as the code looks at it:
    a falsy value, or an object with its [running] field. *)
Inductive StatusValue : Type :=
  | StatusFalsy
  | StatusObject (running : option bool).

(** What [browserSnapshot] resolves with: an object with its [snapshot]
    field and what [JSON.stringify] makes of it, or a value that is not
    an object, with its [String(...)]. *)
Inductive SnapshotValue : Type :=
  | SnapshotObject (snapshot : option string) (json : Outcome (option string))
  | SnapshotOther (rendered : string).

Inductive ActRequest : Type :=
  | ActClick (ref : string)
  | ActType (ref text : string).

(** The browser control client of the host application, on a browser
    state [Browser]; the last argument of each call is the profile.
    [browserScreenshotAction] resolves with an object, of which the
    [path] field is read; [numberToString] is the rendering of a number
    in a template literal. *)
Class BrowserClient (Browser : Type) : Type := {
  browserStatus : string -> Run Browser StatusValue;
  browserStart : string -> Run Browser unit;
  browserNavigate : string -> string -> Run Browser unit;
  browserScreenshotAction :
    option string -> string -> Run Browser (option string);
  browserSnapshot : option string -> string -> Run Browser SnapshotValue;
  browserAct : ActRequest -> string -> Run Browser unit;
  numberToString : Z -> string;
}.

Section WithClient.
Context {Browser : Type} `{BrowserClient Browser}.

Definition succeeded (action : BrowserAction) (data : option string)
    (screenshotPath : option string) : BrowserActionResult :=
  {| action := action; success := true; data := data;
     screenshotPath := screenshotPath; error := None |}.

(** [{ action, success: false, error: String(err) }] *)
Definition failed (action : BrowserAction) (err : string)
  : BrowserActionResult :=
  {| action := action; success := false; data := None;
     screenshotPath := None; error := Some err |}.

(** The "ensure browser is running" block (lines 458-471). *)
Definition ensureRunning (profile : string) : Run Browser unit :=
  try_catch
    (call status <- browserStatus profile;
     match status with
     | StatusFalsy | StatusObject (Some false) => browserStart profile
     | _ => ret tt
     end)
    (fun _ => try_catch (browserStart profile) (fun _ => ret tt)).

(** The text of a snapshot (lines 512-515 and 574-577). *)
Definition snapshotText (snapshot : SnapshotValue)
  : Run Browser (option string) :=
  match snapshot with
  | SnapshotObject (Some text) _ => ret (Some text)
  | SnapshotObject None (Returned json) => ret json
  | SnapshotObject None (Threw err) => throw err
  | SnapshotOther rendered => ret (Some rendered)
  end.

(** [executeAction(action, { profile, actionTimeoutMs })] (lines 447-599),
    the modules of its dynamic imports being loaded. *)
Definition executeAction (action : BrowserAction) (profile : string)
    (actionTimeoutMs : Z) : Run Browser BrowserActionResult :=
  run ensureRunning profile;
  match action with
  | Navigate url =>
      try_catch
        (run browserNavigate url profile;
         ret (succeeded action (Some ("Navigated to " +:+ url)) None))
        (fun err => ret (failed action err))
  | Screenshot selector =>
      try_catch
        (call path <- browserScreenshotAction selector profile;
         ret (succeeded action
                (Some ("Screenshot saved to " +:+ default "undefined" path))
                path))
        (fun err => ret (failed action err))
  | ExtractText selector =>
      try_catch
        (call snapshot <- browserSnapshot selector profile;
         call text <- snapshotText snapshot;
         ret (succeeded action text None))
        (fun err => ret (failed action err))
  | Click selector =>
      try_catch
        (run browserAct (ActClick selector) profile;
         ret (succeeded action (Some ("Clicked " +:+ selector)) None))
        (fun err => ret (failed action err))
  | TypeInto selector text =>
      try_catch
        (run browserAct (ActType selector text) profile;
         ret (succeeded action (Some ("Typed into " +:+ selector)) None))
        (fun err => ret (failed action err))
  | Wait ms =>
      ret (succeeded action
             (Some ("Waited " +:+ numberToString ms +:+ "ms")) None)
  | Scrape url _ =>
      try_catch
        (run browserNavigate url profile;
         call snapshot <- browserSnapshot None profile;
         call text <- snapshotText snapshot;
         ret (succeeded action text None))
        (fun err => ret (failed action err))
  end.

End WithClient.

(** A result that reports on [a]: it succeeded without an error or
    failed with one. *)
Definition reports (a : BrowserAction) (r : BrowserActionResult) : Prop :=
  action r = a
  /\ (success r = true /\ error r = None
      \/ success r = false /\ error r <> None /\ data r = None).

(** What a run dispatched: some of the plan, from its start, then
    perhaps the trailing screenshot. *)
Definition follows (plan done : list BrowserAction) : Prop :=
  exists listed,
    listed `prefix_of` plan
    /\ (done = listed \/ done = listed ++ [Screenshot None]).

(** The decimal digits of [n], at most [fuel] of them, before [acc]. *)
Fixpoint digits (fuel : nat) (n : N) (acc : string) : string :=
  match fuel with
  | O => acc
  | S fuel' =>
      let acc' :=
        String (ascii_of_N (48 + n mod 10)) acc in
      if (n / 10 =? 0)%N then acc' else digits fuel' (n / 10)%N acc'
  end.

(** An integer below 10^21 as a template literal renders it. *)
Definition decimal (z : Z) : string :=
  if z <? 0 then "-" +:+ digits 21 (Z.to_N (- z)) ""
  else digits 21 (Z.to_N z) "".

(** A client without network: it is running, navigation throws, a
    screenshot is saved, a snapshot is the empty page. *)
Definition unplugged : BrowserClient unit :=
  {| browserStatus := fun _ => ret (StatusObject (Some true));
     browserStart := fun _ => ret tt;
     browserNavigate :=
       fun _ _ => throw "Error: net::ERR_INTERNET_DISCONNECTED";
     browserScreenshotAction := fun _ _ => ret (Some "/tmp/shot.png");
     browserSnapshot := fun _ _ => ret (SnapshotObject (Some "") (Returned None));
     browserAct := fun _ _ => ret tt;
     numberToString := decimal |}.

End BrowserActions.

(** ** Sample data: the scenarios of the specification *)

Module Samples.

Definition vercel : ExternalAccessRequest :=
  {| id := "7c9e6679-7425-40de-944b-e07fc1f90ae7";
     kind := CredentialFetch;
     summary := "Fetch credentials from Vercel";
     rawOutput := "I need the API_KEY from Vercel to continue.";
     url := None;
     service := Some "Vercel";
     dataNeeded := Some "API_KEY from Vercel to continue";
     suggestedActions := None;
     createdAtMs := 1000;
     expiresAtMs := 121000;
     sessionKey := None |}.

Definition railway : ExternalAccessRequest :=
  {| id := "1b4e28ba-2fa1-41d2-883f-0016d3cca427";
     kind := UrlVisit;
     summary := "Visit https://railway.app/dashboard";
     rawOutput :=
       "Please go to https://railway.app/dashboard to get the DB URL.";
     url := Some "https://railway.app/dashboard";
     service := Some "Railway";
     dataNeeded := None;
     suggestedActions :=
       Some [Navigate "https://railway.app/dashboard"; Screenshot None;
             ExtractText None];
     createdAtMs := 1000;
     expiresAtMs := 121000;
     sessionKey := None |}.

(** A request with nothing to act on: no URL and no suggested action. *)
Definition portal : ExternalAccessRequest :=
  {| id := "6fa459ea-ee8a-4ca4-894e-db77e160355e";
     kind := ServiceAction;
     summary := "Perform action on Railway";
     rawOutput :=
       "Please open the Railway dashboard and find the database URL.";
     url := None;
     service := Some "Railway";
     dataNeeded := None;
     suggestedActions := None;
     createdAtMs := 1000;
     expiresAtMs := 121000;
     sessionKey := None |}.

Definition approves (r : ExternalAccessRequest) : ConductorAuthorization :=
  {| requestId := id r; decision := Approve; instructions := None;
     resolvedBy := Some "whatsapp:+15550100"; resolvedAtMs := 5000 |}.

Definition denies (r : ExternalAccessRequest) : ConductorAuthorization :=
  {| requestId := id r; decision := Deny; instructions := None;
     resolvedBy := Some "whatsapp:+15550100"; resolvedAtMs := 5000 |}.

(** What the forwarder's timer emits. *)
Definition timesOut (r : ExternalAccessRequest) : ConductorAuthorization :=
  {| requestId := id r; decision := Deny; instructions := None;
     resolvedBy := Some "timeout"; resolvedAtMs := 121000 |}.

(** An instance waiting on [r], with a writable child and the audit log on. *)
Definition awaiting (r : ExternalAccessRequest) : Conductor.Session :=
  {| Conductor.pending := {[ id r := r ]};
     Conductor.history := [];
     Conductor.interceptor := Interceptor.fresh;
     Conductor.events := [];
     Conductor.auditStream := Some [];
     Conductor.executed := [];
     Conductor.forwarded := [r];
     Conductor.notified := [] |}.

Definition waiting (r : ExternalAccessRequest) : Conductor.System :=
  {| Conductor.session := awaiting r; Conductor.tasks := [] |}.

Definition noConfig : ConductorConfig :=
  {| analyzer := None; auth := None; browser := None |}.

(** ESC ESC [0m [0m: a sequence inside the pieces of another. *)
Definition spliced : string :=
  String Js.ESC (String Js.ESC "[0m[0m").

(** ESC [32m Please visit https://test.dev/api ESC [0m *)
Definition coloured : string :=
  String Js.ESC "[32mPlease visit https://test.dev/api" +:+
  String Js.ESC "[0m".

Definition overlapping : ConductorConfig :=
  {| analyzer := None;
     auth := Some {| targets := None;
                     timeoutMs := None;
                     autoApprovePatterns := Some ["https://*.example/*"];
                     autoDenyPatterns := Some ["https://evil.example/*"] |};
     browser := None |}.

Definition steal : ExternalAccessRequest :=
  {| id := "de305d54-75b4-431b-adb2-eb6b9e546014";
     kind := UrlVisit;
     summary := "Visit https://evil.example/steal";
     rawOutput := "Visit https://evil.example/steal";
     url := Some "https://evil.example/steal";
     service := None;
     dataNeeded := None;
     suggestedActions :=
       Some [Navigate "https://evil.example/steal"; Screenshot None;
             ExtractText None];
     createdAtMs := 1000;
     expiresAtMs := 121000;
     sessionKey := None |}.

(** The stream the specification gives for scenario 2, with U+2014. *)
Definition expectedDenialStream : string :=
  Js.newline +:+
  "[Aether] Request denied: Fetch credentials from Vercel " +:+
  Injector.em_dash +:+
  " operator denied. Proceeding without external access." +:+
  Js.newline +:+ Js.newline.

Definition noTargets : ConductorAuthConfig :=
  {| targets := Some [];
     timeoutMs := Some 500;
     autoApprovePatterns := None;
     autoDenyPatterns := None |}.

Definition operator : ConductorForwardTarget :=
  {| channel := "whatsapp"; to := "+15550100";
     accountId := None; threadId := None |}.

Definition oneTarget : ConductorAuthConfig :=
  {| targets := Some [operator];
     timeoutMs := Some 500;
     autoApprovePatterns := None;
     autoDenyPatterns := None |}.

(** A forwarder tracking the Vercel request alone. *)
Definition oneForwarded : Forwarder.State :=
  Forwarder.requestAuthorization_complete oneTarget vercel Forwarder.initial.

Definition approveWithGuidance : Forwarder.InboundMessage :=
  {| Forwarder.m_channel := "whatsapp";
     Forwarder.from := "+15550100";
     Forwarder.text := "Approve only fetch the DB URL" |}.

Definition yesWithGuidance : Forwarder.InboundMessage :=
  {| Forwarder.m_channel := "whatsapp";
     Forwarder.from := "+15550100";
     Forwarder.text := "  YES only fetch the DB URL " |}.

(** A request with a URL and no suggested action. *)
Definition database : ExternalAccessRequest :=
  {| id := "9a0b4c22-6f1d-4c57-8d4e-2f8a52f0c3b1";
     kind := CredentialFetch;
     summary := "Fetch credentials from https://railway.app/project/db";
     rawOutput := "get the credentials from https://railway.app/project/db";
     url := Some "https://railway.app/project/db";
     service := Some "Railway";
     dataNeeded := None;
     suggestedActions := None;
     createdAtMs := 1000;
     expiresAtMs := 121000;
     sessionKey := None |}.

Definition defaultBrowser : ConductorBrowserConfig :=
  {| profile := None; actionTimeoutMs := None; captureScreenshots := None |}.

(** A browser plane without network: a navigate returns a failure, every
    other action succeeds. *)
Definition offline (a : BrowserAction) (profile : string)
    (actionTimeoutMs : Z) : Run unit BrowserActionResult :=
  fun b =>
    (Returned {| action := a;
                 success := negb (BrowserExecutor.is_navigate a);
                 data := None;
                 screenshotPath := None;
                 error :=
                   if BrowserExecutor.is_navigate a
                   then Some "Error: net::ERR_INTERNET_DISCONNECTED"
                   else None |},
     b).

Definition portalId : string := "0e37df36-f698-11e6-8dd4-cb9ced3df976".

Definition openPortal : Gateway.ConductorRequestParams :=
  {| Gateway.p_kind := None;
     Gateway.p_summary := Some "open portal";
     Gateway.p_url := Some "https://x.test";
     Gateway.p_service := None;
     Gateway.p_dataNeeded := None;
     Gateway.p_timeoutMs := None |}.

Definition approvePortal : Gateway.ConductorResolveParams :=
  {| Gateway.r_id := Some portalId;
     Gateway.r_decision := Some "approve";
     Gateway.r_instructions := None |}.


End Samples.

(** * Properties *)

(** ** The orchestrator resolves an id at most once *)

Module ConductorFacts.
Import Interceptor Injector Conductor.
Local Open Scope run_scope.

Lemma keeps_ret i {A} (a : A) : keeps_absent i (ret a).
Proof. intros s Hs. exact Hs. Qed.

Lemma keeps_bind i {A B} (m : Run Session A) (k : A -> Run Session B) :
  keeps_absent i m -> (forall a, keeps_absent i (k a)) ->
  keeps_absent i (bind m k).
Proof.
  intros Hm Hk s Hs. unfold bind.
  specialize (Hm s Hs). destruct (m s) as [[a|e] s']; simpl in *.
  - apply Hk, Hm.
  - exact Hm.
Qed.

Lemma keeps_try_catch i {A} (m : Run Session A) (h : string -> Run Session A) :
  keeps_absent i m -> (forall e, keeps_absent i (h e)) ->
  keeps_absent i (try_catch m h).
Proof.
  intros Hm Hh s Hs. unfold try_catch.
  specialize (Hm s Hs). destruct (m s) as [[a|e] s']; simpl in *.
  - exact Hm.
  - apply Hh, Hm.
Qed.

Lemma keeps_emit i e : keeps_absent i (emit e).
Proof. intros s Hs. exact Hs. Qed.

Lemma keeps_audit i now d : keeps_absent i (audit now d).
Proof. intros s Hs. unfold audit. destruct (auditStream s); exact Hs. Qed.

Lemma keeps_on_interceptor i {A} (m : Run TerminalInterceptor A) :
  keeps_absent i (on_interceptor m).
Proof.
  intros s Hs. unfold on_interceptor.
  destruct (m (interceptor s)) as [o t]. exact Hs.
Qed.

Lemma keeps_recordHistory i now r a j : keeps_absent i (recordHistory now r a j).
Proof. intros s Hs. exact Hs. Qed.

Lemma keeps_set_executed i f : keeps_absent i (modify (set_executed f)).
Proof. intros s Hs. exact Hs. Qed.

Lemma keeps_set_notified i f : keeps_absent i (modify (set_notified f)).
Proof. intros s Hs. exact Hs. Qed.

Lemma keeps_set_forwarded i f : keeps_absent i (modify (set_forwarded f)).
Proof. intros s Hs. exact Hs. Qed.

Lemma keeps_delete i j : keeps_absent i (modify (set_pending (delete j))).
Proof.
  intros s Hs. unfold absent in *. simpl.
  destruct (decide (j = i)) as [->|Hne].
  - apply lookup_delete_eq.
  - rewrite lookup_delete_ne by exact Hne. exact Hs.
Qed.

Lemma keeps_insert i j r :
  j <> i -> keeps_absent i (modify (set_pending (insert j r))).
Proof.
  intros Hne s Hs. unfold absent in *. simpl.
  rewrite lookup_insert_ne by exact Hne. exact Hs.
Qed.

Create HintDb keeps discriminated.
#[local] Hint Resolve keeps_ret keeps_emit keeps_audit keeps_on_interceptor
  keeps_recordHistory keeps_set_executed keeps_set_notified
  keeps_set_forwarded keeps_delete : keeps.

(** Splits a sequence of calls into its calls. *)
Ltac keeps_steps :=
  repeat first
    [ apply keeps_bind; [ | intros ? ]
    | apply keeps_try_catch; [ | intros ? ]
    | solve [ auto with keeps ] ].

Lemma keeps_executeAndInject_call i c r a :
  keeps_absent i (executeAndInject_call c r a).
Proof. unfold executeAndInject_call. keeps_steps. Qed.

Lemma keeps_executeAndInject_catch i now r a e :
  keeps_absent i (executeAndInject_catch now r a e).
Proof. unfold executeAndInject_catch. keeps_steps. Qed.

Lemma keeps_executeAndInject_executed i now c r a o :
  keeps_absent i (executeAndInject_executed now c r a o).
Proof.
  unfold executeAndInject_executed. destruct o.
  - keeps_steps.
  - apply keeps_executeAndInject_catch.
Qed.

Lemma keeps_executeAndInject_notified i now r a o :
  keeps_absent i (executeAndInject_notified now r a o).
Proof.
  unfold executeAndInject_notified. destruct o.
  - auto with keeps.
  - apply keeps_executeAndInject_catch.
Qed.

Lemma keeps_handleTerminalOutput_catch i now e :
  keeps_absent i (handleTerminalOutput_catch now e).
Proof. unfold handleTerminalOutput_catch. keeps_steps. Qed.

Lemma keeps_handleTerminalOutput i now text :
  keeps_absent i (handleTerminalOutput now text).
Proof. unfold handleTerminalOutput. keeps_steps. Qed.

Lemma keeps_under_caller i now c m :
  keeps_absent i m -> keeps_absent i (under_caller now c m).
Proof.
  intros Hm. destruct c; simpl; [exact Hm |].
  apply keeps_try_catch; [exact Hm | intros e].
  apply keeps_handleTerminalOutput_catch.
Qed.

Lemma keeps_handleAuthorization i now a :
  keeps_absent i (handleAuthorization now a).
Proof.
  unfold handleAuthorization.
  apply keeps_bind; [intros s Hs; exact Hs | intros [r|]].
  - apply keeps_bind; [auto with keeps | intros _].
    apply keeps_bind; [auto with keeps | intros _].
    apply keeps_bind; [auto with keeps | intros _].
    destruct (decision a); try apply keeps_executeAndInject_call.
    keeps_steps.
  - auto with keeps.
Qed.

(** The analyzer's continuation can only add the id it has just drawn. *)
Lemma keeps_handleTerminalOutput_analyzed `{RegExp} i config now newId o :
  newId <> i ->
  keeps_absent i (handleTerminalOutput_analyzed config now newId o).
Proof.
  intros Hne. unfold handleTerminalOutput_analyzed.
  destruct o as [result|e]; [| apply keeps_handleTerminalOutput_catch].
  destruct (request result) as [analyzed|]; [| auto with keeps].
  destruct (negb (detected result) || _); [auto with keeps |].
  apply keeps_try_catch; [| intros e; apply keeps_handleTerminalOutput_catch].
  destruct (checkAutoRules _ _) as [[|]|].
  - keeps_steps.
  - keeps_steps.
  - apply keeps_bind; [apply keeps_insert; exact Hne | intros _].
    keeps_steps.
Qed.

Lemma spawn_absent i m rest s :
  keeps_absent i m -> absent i s -> absent i (session (spawn m rest s)).
Proof.
  intros Hm Hs. unfold spawn. specialize (Hm s Hs).
  destruct (m s) as [[[t|]|e] s']; exact Hm.
Qed.

Lemma keeps_resume `{RegExp} i config now n t r m :
  draws (Resume n r) <> Some i ->
  resume config now t r = Some m -> keeps_absent i m.
Proof.
  intros Hd Hr.
  destruct t as [c rq a|c rq a|rq|text], r as [o newId|o|o];
    simpl in Hr; try discriminate.
  - injection Hr as <-. apply keeps_under_caller,
      keeps_executeAndInject_executed.
  - injection Hr as <-. apply keeps_under_caller,
      keeps_executeAndInject_notified.
  - destruct o; injection Hr as <-.
    + apply keeps_ret.
    + apply keeps_handleTerminalOutput_catch.
  - injection Hr as <-. apply keeps_handleTerminalOutput_analyzed.
    intros ->. apply Hd. reflexivity.
Qed.

(** No input but the drawing of [i] itself brings [i] back. *)
Lemma step_absent `{RegExp} i config now input sys :
  draws input <> Some i ->
  absent i (session sys) -> absent i (session (step config now input sys)).
Proof.
  intros Hd Hs. destruct input as [text|a|n r]; unfold step.
  - apply spawn_absent; [apply keeps_handleTerminalOutput | exact Hs].
  - apply spawn_absent; [apply keeps_handleAuthorization | exact Hs].
  - destruct (tasks sys !! n) as [t|]; [| exact Hs].
    destruct (resume config now t r) as [m|] eqn:Hr; [| exact Hs].
    apply spawn_absent; [| exact Hs].
    eapply keeps_resume; [exact Hd | exact Hr].
Qed.

Lemma steps_absent `{RegExp} i config inputs sys :
  Forall (fun ni => draws ni.2 <> Some i) inputs ->
  absent i (session sys) -> absent i (session (steps config inputs sys)).
Proof.
  intros Hall. revert sys. unfold steps.
  induction Hall as [|[now input] rest Hd _ IH]; intros sys Hs.
  - exact Hs.
  - cbn [foldl]. apply IH. apply step_absent; [exact Hd | exact Hs].
Qed.

(** An authorization whose id is not pending changes nothing. *)
Lemma authorization_unknown_id `{RegExp} config now a sys :
  absent (requestId a) (session sys) ->
  step config now (Authorization a) sys = sys.
Proof.
  intros Hs. destruct sys as [s ts]. cbn [session] in Hs.
  unfold step, spawn, handleAuthorization, bind, gets. cbn [session tasks].
  unfold absent in Hs. rewrite Hs. reflexivity.
Qed.

(** [handleAuthorization] deletes the id before anything that can fail
    or suspend: it is absent in the state the method leaves, also when
    the injection threw and when the execution has only started. *)
Lemma authorization_removes `{RegExp} config now a sys :
  absent (requestId a) (session (step config now (Authorization a) sys)).
Proof.
  destruct (pending (session sys) !! requestId a) as [r|] eqn:Hp.
  - unfold step, spawn, handleAuthorization.
    unfold bind at 1. unfold gets at 1. rewrite Hp.
    unfold bind at 1. unfold modify at 1.
    set (s1 := set_pending (delete (requestId a)) (session sys)).
    assert (H1 : absent (requestId a) s1)
      by (unfold absent, s1; simpl; apply lookup_delete_eq).
    match goal with
    | |- context [ match ?m s1 with _ => _ end ] =>
        assert (Hk : keeps_absent (requestId a) m)
    end.
    { apply keeps_bind; [auto with keeps | intros _].
      apply keeps_bind; [auto with keeps | intros _].
      destruct (decision a); try apply keeps_executeAndInject_call.
      keeps_steps. }
    match goal with
    | |- context [ match ?m s1 with _ => _ end ] =>
        specialize (Hk s1 H1); destruct (m s1) as [[[t|]|e] s2]
    end; exact Hk.
  - rewrite authorization_unknown_id by exact Hp. exact Hp.
Qed.

(** Scenario 1, approved: the executor is called once, and the operator's
    second "yes" finds nothing to resolve. *)
Example approved_twice_executes_once :
  let config := Samples.noConfig in
  let after :=
    steps (H := AsciiRegExp.engine) config
      [(5000, Authorization (Samples.approves Samples.railway));
       (5001, Authorization (Samples.approves Samples.railway))]
      (Samples.waiting Samples.railway) in
  executed (session after)
  = [(Samples.railway, Samples.approves Samples.railway)]
  /\ tasks after
     = [AwaitExecute ByAuthorization Samples.railway
          (Samples.approves Samples.railway)].
Proof. vm_compute. split; reflexivity. Qed.

(** C1.  The orchestrator resolves a request id at most once.  Handling an
    authorization removes its id from the pending map before the method
    can fail or suspend, so the id is absent from the state it leaves; and
    a later authorization for the same id, whatever happened in between
    short of the id being drawn again for a new request, finds no pending
    entry and changes nothing: no second execution, no second write to the
    child's stdin, no second history record. *)
Theorem resolve_at_most_once `{RegExp} (config : ConductorConfig)
    (now now' : Z) (a dup : ConductorAuthorization)
    (inputs : list (Z * Input)) (sys : System) :
  requestId dup = requestId a ->
  Forall (fun ni => draws ni.2 <> Some (requestId a)) inputs ->
  let resolved := step config now (Authorization a) sys in
  let later := steps config inputs resolved in
  pending (session resolved) !! requestId a = None
  /\ step config now' (Authorization dup) later = later.
Proof.
  intros Hid Hfresh resolved later. split.
  - apply authorization_removes.
  - apply authorization_unknown_id. rewrite Hid.
    apply steps_absent; [exact Hfresh | apply authorization_removes].
Qed.

(** The railway request is approved, the executor answers, and a denial
    for the same id arrives afterwards. *)
Lemma resolve_at_most_once_witness :
  let resolved :=
    step (H := AsciiRegExp.engine) Samples.noConfig 5000
      (Authorization (Samples.approves Samples.railway))
      (Samples.waiting Samples.railway) in
  let later :=
    steps (H := AsciiRegExp.engine) Samples.noConfig
      [(5200, Resume 0 (ExecutorSettled (Returned [])))] resolved in
  pending (session resolved) !! id Samples.railway = None
  /\ step (H := AsciiRegExp.engine) Samples.noConfig 6000
       (Authorization (Samples.denies Samples.railway)) later = later.
Proof.
  apply (resolve_at_most_once (H := AsciiRegExp.engine) Samples.noConfig
           5000 6000 (Samples.approves Samples.railway)
           (Samples.denies Samples.railway)
           [(5200, Resume 0 (ExecutorSettled (Returned [])))]
           (Samples.waiting Samples.railway)).
  - reflexivity.
  - repeat constructor. simpl. discriminate.
Defined.

End ConductorFacts.

(** ** What is written to the worker *)

Module InjectionFacts.
Import Interceptor Injector Conductor.
Local Open Scope run_scope.

(** Scenario 1: the payload starts with the header for the summary. *)
Example payload_header :
  formatInjectionPayload Samples.railway
    [{| action := Navigate "https://railway.app/dashboard"; success := true;
        data := Some "Navigated to https://railway.app/dashboard";
        screenshotPath := None; error := None |};
     {| action := ExtractText None; success := false;
        data := None; screenshotPath := None;
        error := Some "Error: timeout" |}]
  = Js.join Js.newline
      ["[Aether] External access result for: Visit https://railway.app/dashboard";
       "[Aether] Navigated to: https://railway.app/dashboard";
       "[Aether] Some actions failed:";
       "  - extract-text: Error: timeout"].
Proof. vm_compute. reflexivity. Qed.

(** An unwritable stdin: the injection throws and nothing is written. *)
Example inject_unwritable :
  injectDenial 5000 Samples.vercel (Some "operator denied")
    {| child := Some {| writable := false; stdin := [] |} |}
  = (Threw not_writable,
     {| child := Some {| writable := false; stdin := [] |} |}).
Proof. reflexivity. Qed.

(** The three writes of an injection on a writable stdin. *)
Lemma injectEnvelope_writable (text : string) (w : list string) :
  injectEnvelope text {| child := Some {| writable := true; stdin := w |} |}
  = (Returned tt,
     {| child := Some {| writable := true;
                         stdin := w ++ [Js.newline; text +:+ Js.newline;
                                        Js.newline] |} |}).
Proof.
  unfold injectEnvelope, injectLine, inject, bind. simpl.
  rewrite <- !app_assoc. reflexivity.
Qed.

Lemma injectDenial_writable (now : Z) (request : ExternalAccessRequest)
    (reason : option string) (w : list string) :
  injectDenial now request reason
    {| child := Some {| writable := true; stdin := w |} |}
  = (Returned {| inj_requestId := id request;
                 inj_success := false;
                 payload := denialPayload request reason;
                 actionResults := None;
                 injectedAtMs := now |},
     {| child := Some {| writable := true;
                         stdin := w ++ [Js.newline;
                                        denialPayload request reason
                                          +:+ Js.newline;
                                        Js.newline] |} |}).
Proof.
  unfold injectDenial, bind. rewrite injectEnvelope_writable. reflexivity.
Qed.

(** The denial sentence and the timeout sentence differ, whatever the
    summary and the reason. *)
Lemma denial_is_not_timeout (request : ExternalAccessRequest)
    (reason : option string) :
  denialPayload request reason <> timeoutPayload request.
Proof.
  unfold denialPayload, timeoutPayload. cbv [String.append].
  intros Heq. discriminate Heq.
Qed.

(** C2.  What the code does when the authorization is the forwarder's
    timeout, or any other denial: [handleAuthorization] looks at the
    decision only, so the three writes carry the denial sentence with the
    reason "operator denied", which is not the timeout sentence.
    [injectTimeout] is imported by conductor.ts and never called. *)
Theorem timeout_injects_denial (now : Z) (a : ConductorAuthorization)
    (request : ExternalAccessRequest) (s : Session) (w : list string) :
  pending s !! requestId a = Some request ->
  decision a = Deny ->
  resolvedBy a = Some "timeout" ->
  interceptor s = {| child := Some {| writable := true; stdin := w |} |} ->
  let sentence := denialPayload request (Some "operator denied") in
  written (interceptor (handleAuthorization now a s).2)
  = w ++ [Js.newline; sentence +:+ Js.newline; Js.newline]
  /\ sentence <> timeoutPayload request.
Proof.
  intros Hp Hd _ Hi sentence. split; [| apply denial_is_not_timeout].
  unfold handleAuthorization, bind, gets. rewrite Hp.
  unfold modify, emit, audit, modify. simpl.
  destruct (auditStream s); simpl; rewrite Hd;
    unfold bind, on_interceptor; simpl; rewrite Hi;
    rewrite injectDenial_writable; reflexivity.
Qed.

(** Scenario 3: no operator reply, the forwarder's timer denies. *)
Lemma timeout_injects_denial_witness :
  let sentence := denialPayload Samples.portal (Some "operator denied") in
  written (interceptor
             (handleAuthorization 121000 (Samples.timesOut Samples.portal)
                (Samples.awaiting Samples.portal)).2)
  = [] ++ [Js.newline; sentence +:+ Js.newline; Js.newline]
  /\ sentence <> timeoutPayload Samples.portal.
Proof.
  apply (timeout_injects_denial 121000 (Samples.timesOut Samples.portal)
           Samples.portal (Samples.awaiting Samples.portal) []).
  - reflexivity.
  - reflexivity.
  - reflexivity.
  - reflexivity.
Defined.

(** C3.  What the child reads when the operator denies the Vercel request:
    the three writes are as specified, but between the summary and the
    reason stand the eight bytes C3 A2 E2 82 AC E2 80 9D of the source
    literal, not the three bytes E2 80 94 of an em dash. *)
Theorem denial_stream_bytes :
  stream (interceptor
            (handleAuthorization 5000 (Samples.denies Samples.vercel)
               (Samples.awaiting Samples.vercel)).2)
  = Js.newline +:+
    "[Aether] Request denied: Fetch credentials from Vercel " +:+
    of_bytes [195; 162; 226; 130; 172; 226; 128; 157]%nat +:+
    " operator denied. Proceeding without external access." +:+
    Js.newline +:+ Js.newline
  /\ stream (interceptor
               (handleAuthorization 5000 (Samples.denies Samples.vercel)
                  (Samples.awaiting Samples.vercel)).2)
     <> Samples.expectedDenialStream.
Proof.
  split.
  - vm_compute. reflexivity.
  - vm_compute. intros Heq. discriminate Heq.
Qed.

(** [results.some((r) => r.success)] *)
Lemma some_success (results : list BrowserActionResult) :
  existsb (fun r => success r) results = true
  <-> exists r, r ∈ results /\ success r = true.
Proof.
  rewrite existsb_exists. split; intros [r [Hin Hr]]; exists r; split;
    try exact Hr; apply list_elem_of_In; exact Hin.
Qed.

Lemma injectResults_returns (now : Z) (request : ExternalAccessRequest)
    (results : list BrowserActionResult) (t t' : TerminalInterceptor)
    (injection : ConductorInjection) :
  injectResults now request results t = (Returned injection, t') ->
  injection = {| inj_requestId := id request;
                 inj_success := existsb (fun r => success r) results;
                 payload := formatInjectionPayload request results;
                 actionResults := Some results;
                 injectedAtMs := now |}.
Proof.
  unfold injectResults, bind, ret.
  destruct (injectEnvelope _ t) as [[[]|e] t1]; intros Heq;
    [injection Heq as <- _; reflexivity | discriminate Heq].
Qed.

(** C9.  [injectResults] reports success exactly when some action result
    succeeded.  The stub executor returns the empty list, so with no
    executor configured whatever an approved request records, the result
    injection or the denial that replaces it when the injection fails,
    reports [success = false]. *)
Theorem success_iff_some_result (now : Z) (request : ExternalAccessRequest)
    (results : list BrowserActionResult) (t t' : TerminalInterceptor)
    (injection : ConductorInjection) :
  injectResults now request results t = (Returned injection, t') ->
  (inj_success injection = true
   <-> exists r, r ∈ results /\ success r = true)
  /\ (results = [] -> inj_success injection = false)
  /\ (forall c auth s,
        stubExecutor_execute request auth = Returned []
        /\ appended_failures s
             (executeAndInject_executed now c request auth
                (stubExecutor_execute request auth) s).2).
Proof.
  intros Hret. apply injectResults_returns in Hret. subst injection. simpl.
  split; [apply some_success |]. split; [intros ->; reflexivity |].
  intros c auth s. split; [reflexivity |].
  unfold stubExecutor_execute, executeAndInject_executed, try_catch, bind.
  unfold on_interceptor, injectResults, bind at 1.
  destruct (injectEnvelope _ (interceptor s)) as [[[]|e] t1] eqn:Henv.
  - unfold ret, emit, modify, audit. simpl.
    destruct (auditStream s); simpl;
      (eexists; split; [reflexivity |]);
      repeat constructor; eexists; split; reflexivity.
  - unfold executeAndInject_catch, bind, emit, modify, on_interceptor.
    simpl. unfold injectDenial, bind at 1.
    destruct (injectEnvelope _ t1) as [[[]|e'] t2]; simpl.
    + eexists; split; [reflexivity |].
      repeat constructor. eexists; split; reflexivity.
    + exists []. split; [symmetry; apply app_nil_r | constructor].
Qed.

Lemma success_iff_some_result_witness :
  let injection :=
    {| inj_requestId := id Samples.railway;
       inj_success := false;
       payload := formatInjectionPayload Samples.railway [];
       actionResults := Some [];
       injectedAtMs := 5200 |} in
  (inj_success injection = true
   <-> exists r, r ∈ @nil BrowserActionResult /\ success r = true)
  /\ (@nil BrowserActionResult = [] -> inj_success injection = false)
  /\ (forall c auth s,
        stubExecutor_execute Samples.railway auth = Returned []
        /\ appended_failures s
             (executeAndInject_executed 5200 c Samples.railway auth
                (stubExecutor_execute Samples.railway auth) s).2).
Proof.
  apply (success_iff_some_result 5200 Samples.railway [] fresh
           (injectResults 5200 Samples.railway [] fresh).2).
  reflexivity.
Defined.

End InjectionFacts.

(** ** Auto rules *)

Module AutoRuleFacts.
Import Conductor.

Example regex_evil :
  Glob.regex "https://evil.example/*" = "https://evil\.example/.*".
Proof. reflexivity. Qed.

Example regex_metacharacters :
  Glob.regex "a+b?(c)[d]{e}|f^g$h\i" = "a\+b.\(c\)\[d\]\{e\}\|f\^g\$h\\i".
Proof. reflexivity. Qed.

(** Scenario 5 and its neighbours, on the ASCII engine: the glob is
    anchored, ignores case, and its dot is a literal dot. *)
Example glob_evil :
  Glob.matchGlob (H := AsciiRegExp.engine) "https://evil.example/*"
    "https://EVIL.example/steal" = true
  /\ Glob.matchGlob (H := AsciiRegExp.engine) "https://evil.example/*"
       "https://evilxexample/steal" = false
  /\ Glob.matchGlob (H := AsciiRegExp.engine) "https://evil.example/*"
       "see https://evil.example/steal" = false.
Proof. vm_compute. repeat split; reflexivity. Qed.

(** An empty url is no url: no rule applies, whatever the patterns. *)
Example empty_url_no_rule :
  checkAutoRules (H := AsciiRegExp.engine)
    {| analyzer := None;
       auth := Some {| targets := None; timeoutMs := None;
                       autoApprovePatterns := Some ["*"];
                       autoDenyPatterns := Some ["*"] |};
       browser := None |}
    {| id := id Samples.portal; kind := kind Samples.portal;
       summary := summary Samples.portal;
       rawOutput := rawOutput Samples.portal;
       url := Some ""; service := None; dataNeeded := None;
       suggestedActions := None; createdAtMs := 1000; expiresAtMs := 121000;
       sessionKey := None |}
  = None.
Proof. reflexivity. Qed.

(** The three [replace] calls together translate a glob character by
    character, as the specification words it. *)
Lemma regex_cons (c : ascii) (rest : string) :
  Glob.regex (String c rest) = Glob.shellStyleChar c +:+ Glob.regex rest.
Proof. destruct c as [[] [] [] [] [] [] [] []]; reflexivity. Qed.

Lemma regex_shellStyle (pattern : string) :
  Glob.regex pattern = Glob.shellStyle pattern.
Proof.
  induction pattern as [|c rest IH]; [reflexivity |].
  rewrite regex_cons, IH. reflexivity.
Qed.

Lemma existsb_matching `{RegExp} (u : string) (patterns : list string) :
  (exists p, p ∈ patterns /\ Glob.matchGlob p u = true) ->
  existsb (fun pattern => Glob.matchGlob pattern u) patterns = true.
Proof.
  intros [p [Hin Hm]]. apply existsb_exists. exists p.
  split; [apply list_elem_of_In; exact Hin | exact Hm].
Qed.

(** C6, read for every url, fails: the empty url matches the glob [*] of
    both lists, and no rule applies to it, since [if (!url) return null]
    takes an empty url for a missing one. *)
Lemma empty_url_is_not_denied :
  ~ (forall (engine : RegExp) (config : ConductorConfig)
            (request : ExternalAccessRequest) (u : string),
       url request = Some u ->
       (exists p, p ∈ default [] (a ← auth config; autoDenyPatterns a)
                  /\ Glob.matchGlob p u = true) ->
       (exists q, q ∈ default [] (a ← auth config; autoApprovePatterns a)
                  /\ Glob.matchGlob q u = true) ->
       checkAutoRules config request = Some AutoDeny).
Proof.
  intros Hall.
  specialize (Hall AsciiRegExp.engine
    {| analyzer := None;
       auth := Some {| targets := None; timeoutMs := None;
                       autoApprovePatterns := Some ["*"];
                       autoDenyPatterns := Some ["*"] |};
       browser := None |}
    {| id := id Samples.portal; kind := kind Samples.portal;
       summary := summary Samples.portal;
       rawOutput := rawOutput Samples.portal;
       url := Some ""; service := None; dataNeeded := None;
       suggestedActions := None; createdAtMs := 1000; expiresAtMs := 121000;
       sessionKey := None |}
    "" eq_refl).
  assert (Hdenied : @None AutoDecision = Some AutoDeny).
  { apply Hall; exists "*"; (split; [apply list_elem_of_here |]);
      vm_compute; reflexivity. }
  discriminate Hdenied.
Qed.

(** C6, amended.  Deny patterns are tried before approve patterns: a
    request whose URL is not empty and matches a glob of each list is
    denied.  A glob is matched as the anchored, case-insensitive
    expression in which [*] became [.*], [?] became [.] and every other
    syntax character was escaped. *)
Theorem deny_before_approve `{RegExp} (config : ConductorConfig)
    (request : ExternalAccessRequest) (u : string) :
  url request = Some u ->
  u <> "" ->
  (exists p, p ∈ default [] (a ← auth config; autoDenyPatterns a)
             /\ Glob.matchGlob p u = true) ->
  (exists q, q ∈ default [] (a ← auth config; autoApprovePatterns a)
             /\ Glob.matchGlob q u = true) ->
  checkAutoRules config request = Some AutoDeny
  /\ (forall pattern value,
        Glob.matchGlob pattern value
        = test_ignoreCase ("^" +:+ Glob.shellStyle pattern +:+ "$") value).
Proof.
  intros Hu Hne Hdeny _. split.
  - unfold checkAutoRules. rewrite Hu.
    destruct u as [|c u']; [contradiction |]. simpl.
    rewrite (existsb_matching _ _ Hdeny). reflexivity.
  - intros pattern value. unfold Glob.matchGlob.
    rewrite regex_shellStyle. reflexivity.
Qed.

(** Scenario 5, with an approve pattern that matches the same URL. *)
Lemma deny_before_approve_witness :
  checkAutoRules (H := AsciiRegExp.engine) Samples.overlapping
    Samples.steal = Some AutoDeny
  /\ (forall pattern value,
        Glob.matchGlob (H := AsciiRegExp.engine) pattern value
        = AsciiRegExp.test ("^" +:+ Glob.shellStyle pattern +:+ "$") value).
Proof.
  apply (deny_before_approve (H := AsciiRegExp.engine) Samples.overlapping
           Samples.steal "https://evil.example/steal").
  - reflexivity.
  - discriminate.
  - exists "https://evil.example/*". split.
    + apply list_elem_of_In. simpl. left. reflexivity.
    + vm_compute. reflexivity.
  - exists "https://*.example/*". split.
    + apply list_elem_of_In. simpl. left. reflexivity.
    + vm_compute. reflexivity.
Defined.

End AutoRuleFacts.

(** ** Stripping control sequences *)

Module AnalyzerFacts.
Import Analyzer.

(** The analyzer's own test: the colour codes go, the text stays. *)
Example stripAnsi_coloured :
  stripAnsi Samples.coloured = "Please visit https://test.dev/api".
Proof. vm_compute. reflexivity. Qed.

(** A window title (OSC form) goes as well; a line break ends the search
    for its BEL. *)
Example stripAnsi_title :
  stripAnsi (String Js.ESC "]0;build" +:+ String Js.BEL "done") = "done"
  /\ stripAnsi (String Js.ESC "]0;build" +:+ String Js.LF "x"
                +:+ String Js.BEL "done")
     = String Js.ESC "]0;build" +:+ String Js.LF "x" +:+ String Js.BEL "done".
Proof. vm_compute. split; reflexivity. Qed.

Example stripAnsi_spliced :
  stripAnsi Samples.spliced = String Js.ESC "[0m"
  /\ stripAnsi (stripAnsi Samples.spliced) = "".
Proof. vm_compute. split; reflexivity. Qed.

(** Both expressions start with ESC. *)
Lemma csiMatch_starts_with_esc (c : ascii) (s : string) (n : nat) :
  csiMatch (String c s) = Some n -> c = Js.ESC.
Proof.
  unfold csiMatch. destruct s as [|d rest]; [discriminate |].
  destruct d as [[] [] [] [] [] [] [] []]; try discriminate.
  case_bool_decide; [intros _; assumption | discriminate].
Qed.

Lemma oscMatch_starts_with_esc (c : ascii) (s : string) (n : nat) :
  oscMatch (String c s) = Some n -> c = Js.ESC.
Proof.
  unfold oscMatch. destruct s as [|d rest]; [discriminate |].
  destruct d as [[] [] [] [] [] [] [] []]; try discriminate.
  case_bool_decide; [intros _; assumption | discriminate].
Qed.

(** A global replace whose expression starts with ESC leaves a text
    without ESC as it is. *)
Lemma removeAll_esc_free (matchAt : string -> option nat) (s : string) :
  (forall c rest n, matchAt (String c rest) = Some n -> c = Js.ESC) ->
  esc_free s = true -> removeAll matchAt 0 s = s.
Proof.
  intros Hstart. induction s as [|c rest IH]; [reflexivity |].
  cbn [esc_free removeAll]. intros Hfree.
  apply andb_prop in Hfree as [Hc Hrest].
  destruct (matchAt (String c rest)) as [n|] eqn:Hm.
  - apply Hstart in Hm. subst c. discriminate Hc.
  - rewrite (IH Hrest). reflexivity.
Qed.

Lemma stripAnsi_esc_free (s : string) :
  esc_free s = true -> stripAnsi s = s.
Proof.
  intros Hfree. unfold stripAnsi.
  rewrite (removeAll_esc_free csiMatch s csiMatch_starts_with_esc Hfree).
  apply (removeAll_esc_free oscMatch s oscMatch_starts_with_esc Hfree).
Qed.

(** *** Well-formed output is stripped to its text *)

Lemma append_cons (c : ascii) (s rest : string) :
  String c s +:+ rest = String c (s +:+ rest).
Proof. reflexivity. Qed.

Lemma append_nil (s : string) : "" +:+ s = s.
Proof. reflexivity. Qed.

Lemma append_assoc (a b c : string) : (a +:+ b) +:+ c = a +:+ (b +:+ c).
Proof.
  induction a as [|x a IH]; [reflexivity |].
  rewrite !append_cons, IH. reflexivity.
Qed.

Lemma append_empty (a : string) : a +:+ "" = a.
Proof.
  induction a as [|x a IH]; [reflexivity |].
  rewrite append_cons, IH. reflexivity.
Qed.

(** Once a match is found, its characters are dropped. *)
Lemma removeAll_skip (matchAt : string -> option nat) (dropped rest : string) :
  removeAll matchAt (String.length dropped) (dropped +:+ rest)
  = removeAll matchAt 0 rest.
Proof.
  induction dropped as [|c dropped IH]; [reflexivity |].
  rewrite append_cons. cbn [String.length removeAll]. exact IH.
Qed.

(** Text without ESC is passed over. *)
Lemma removeAll_text (matchAt : string -> option nat) (t rest : string) :
  (forall c s n, matchAt (String c s) = Some n -> c = Js.ESC) ->
  esc_free t = true ->
  removeAll matchAt 0 (t +:+ rest) = t +:+ removeAll matchAt 0 rest.
Proof.
  intros Hstart. induction t as [|c t IH]; [reflexivity |].
  cbn [esc_free]. intros Hfree. apply andb_prop in Hfree as [Hc Ht].
  rewrite !append_cons. cbn [removeAll].
  destruct (matchAt (String c (t +:+ rest))) as [n|] eqn:Hm.
  - apply Hstart in Hm. subst c. discriminate Hc.
  - rewrite (IH Ht). reflexivity.
Qed.

Lemma param_not_letter (c : ascii) : is_param c = true -> is_letter c = false.
Proof. destruct c as [[] [] [] [] [] [] [] []]; cbv; congruence. Qed.

Lemma csiTail_sequence (params : string) (final : ascii) (rest : string) :
  every is_param params = true -> is_letter final = true ->
  csiTail (params +:+ String final rest)
  = Some (String.length (params +:+ String final "")).
Proof.
  intros Hparams Hfinal. induction params as [|c params IH].
  - rewrite !append_nil. cbn [csiTail]. rewrite Hfinal. reflexivity.
  - cbn [every] in Hparams. apply andb_prop in Hparams as [Hc Hparams].
    rewrite !append_cons. cbn [csiTail String.length].
    rewrite (param_not_letter c Hc), Hc, (IH Hparams). reflexivity.
Qed.

Lemma osc_byte_passes (c : ascii) (s : string) :
  osc_byte c = true ->
  bool_decide (c = Js.BEL) = false /\ at_line_terminator (String c s) = false.
Proof.
  unfold osc_byte, at_line_terminator. intros H.
  repeat (apply andb_prop in H as [H ?]).
  repeat match goal with
         | Hn : negb _ = true |- _ => apply negb_true_iff in Hn; rewrite Hn
         end.
  split; reflexivity.
Qed.

Lemma oscTail_sequence (body rest : string) :
  every osc_byte body = true ->
  oscTail (body +:+ String Js.BEL rest)
  = Some (String.length (body +:+ String Js.BEL "")).
Proof.
  intros Hbody. induction body as [|c body IH].
  - reflexivity.
  - cbn [every] in Hbody. apply andb_prop in Hbody as [Hc Hbody].
    rewrite !append_cons. cbn [oscTail String.length].
    destruct (osc_byte_passes c (body +:+ String Js.BEL rest) Hc) as [-> ->].
    rewrite (IH Hbody). reflexivity.
Qed.

Lemma osc_body_esc_free (body : string) :
  every osc_byte body = true ->
  esc_free (body +:+ String Js.BEL "") = true.
Proof.
  intros Hbody. induction body as [|c body IH]; [reflexivity |].
  cbn [every] in Hbody. apply andb_prop in Hbody as [Hc Hbody].
  rewrite append_cons. cbn [esc_free]. rewrite (IH Hbody), andb_true_r.
  unfold osc_byte in Hc. repeat (apply andb_prop in Hc as [Hc _]). exact Hc.
Qed.

(** The output with its CSI sequences removed. *)
Lemma csi_pass (gs : list Segment) :
  forallb well_formed gs = true ->
  removeAll csiMatch 0 (output gs) = output (withoutCsi gs).
Proof.
  induction gs as [|g gs IH]; [reflexivity |].
  cbn [forallb]. intros H. apply andb_prop in H as [Hg Hgs].
  specialize (IH Hgs).
  destruct g as [t|params final|body]; cbn [output rendered withoutCsi].
  - rewrite (removeAll_text csiMatch t _ csiMatch_starts_with_esc Hg), IH.
    reflexivity.
  - cbn [well_formed] in Hg. apply andb_prop in Hg as [Hparams Hfinal].
    rewrite !append_cons, append_assoc, append_cons, append_nil.
    cbn [removeAll]. unfold csiMatch at 1.
    rewrite bool_decide_eq_true_2 by reflexivity.
    rewrite (csiTail_sequence params final (output gs) Hparams Hfinal).
    cbn [fmap option_fmap option_map].
    rewrite <- IH.
    rewrite <- (removeAll_skip csiMatch (params +:+ String final "")
                  (output gs)).
    rewrite append_assoc, append_cons, append_nil. reflexivity.
  - rewrite !append_cons. cbn [removeAll]. unfold csiMatch at 1.
    destruct (csiMatch (String "]" _)) as [n|] eqn:Hm;
      [apply csiMatch_starts_with_esc in Hm; discriminate Hm |].
    rewrite (removeAll_text csiMatch _ _ csiMatch_starts_with_esc
               (osc_body_esc_free body Hg)), IH.
    reflexivity.
Qed.

(** The output with its OSC sequences removed as well. *)
Lemma osc_pass (gs : list Segment) :
  forallb well_formed gs = true ->
  removeAll oscMatch 0 (output (withoutCsi gs)) = visible gs.
Proof.
  induction gs as [|g gs IH]; [reflexivity |].
  cbn [forallb]. intros H. apply andb_prop in H as [Hg Hgs].
  specialize (IH Hgs).
  destruct g as [t|params final|body];
    cbn [output rendered withoutCsi visible].
  - rewrite (removeAll_text oscMatch t _ oscMatch_starts_with_esc Hg), IH.
    reflexivity.
  - exact IH.
  - rewrite !append_cons, append_assoc, append_cons, append_nil.
    cbn [removeAll]. unfold oscMatch at 1.
    rewrite bool_decide_eq_true_2 by reflexivity.
    rewrite (oscTail_sequence body (output (withoutCsi gs)) Hg).
    cbn [fmap option_fmap option_map].
    rewrite <- IH.
    rewrite <- (removeAll_skip oscMatch (body +:+ String Js.BEL "")
                  (output (withoutCsi gs))).
    rewrite append_assoc, append_cons, append_nil. reflexivity.
Qed.

Lemma visible_esc_free (gs : list Segment) :
  forallb well_formed gs = true -> esc_free (visible gs) = true.
Proof.
  induction gs as [|g gs IH]; [reflexivity |].
  cbn [forallb]. intros H. apply andb_prop in H as [Hg Hgs].
  specialize (IH Hgs). destruct g as [t|params final|body];
    cbn [visible]; try exact IH.
  cbn [well_formed] in Hg. clear Hgs. induction t as [|c t IHt]; [exact IH |].
  cbn [esc_free] in Hg. apply andb_prop in Hg as [Hc Ht].
  rewrite append_cons. cbn [esc_free]. rewrite Hc, (IHt Ht). reflexivity.
Qed.

(** On output made of plain text and complete CSI and OSC sequences,
    [stripAnsi] returns the text, and stripping again changes nothing. *)
Lemma stripAnsi_well_formed (gs : list Segment) :
  forallb well_formed gs = true ->
  stripAnsi (output gs) = visible gs
  /\ stripAnsi (stripAnsi (output gs)) = stripAnsi (output gs).
Proof.
  intros Hgs.
  assert (Hstrip : stripAnsi (output gs) = visible gs)
    by (unfold stripAnsi; rewrite (csi_pass gs Hgs); apply osc_pass, Hgs).
  split; [exact Hstrip |].
  rewrite Hstrip. apply stripAnsi_esc_free, visible_esc_free, Hgs.
Qed.

(** C7, as the specification states it, fails: removing a sequence can
    bring an ESC and the rest of a sequence together.  In ESC ESC [0m [0m
    the first pass removes the inner ESC [0m and leaves ESC [0m, which a
    second pass removes. *)
Lemma stripAnsi_not_idempotent :
  ~ (forall S : string, stripAnsi (stripAnsi S) = stripAnsi S).
Proof.
  intros Hidem. specialize (Hidem Samples.spliced).
  vm_compute in Hidem. discriminate Hidem.
Qed.

(** A global replace changes nothing where its expression matches
    nowhere, and shortens the text where it matches somewhere. *)
Lemma removeAll_matchFree (matchAt : string -> option nat) (s : string) :
  matchFree matchAt s = true -> removeAll matchAt 0 s = s.
Proof.
  induction s as [|c rest IH]; [reflexivity |].
  cbn [matchFree removeAll].
  destruct (matchAt (String c rest)) as [[|k]|]; try discriminate;
    intros Hfree; rewrite (IH Hfree); reflexivity.
Qed.

Lemma removeAll_length (matchAt : string -> option nat) (skip : nat)
    (s : string) :
  (String.length (removeAll matchAt skip s) <= String.length s)%nat.
Proof.
  revert skip. induction s as [|c rest IH]; intros skip; [reflexivity |].
  cbn [removeAll]. destruct skip as [|k].
  - destruct (matchAt (String c rest)) as [[|k]|]; cbn [String.length];
      try (specialize (IH 0%nat); lia).
    specialize (IH k). lia.
  - cbn [String.length]. specialize (IH k). lia.
Qed.

Lemma removeAll_shrinks (matchAt : string -> option nat) (s : string) :
  matchFree matchAt s = false ->
  (String.length (removeAll matchAt 0 s) < String.length s)%nat.
Proof.
  induction s as [|c rest IH]; [discriminate |].
  cbn [matchFree removeAll].
  destruct (matchAt (String c rest)) as [[|k]|]; cbn [String.length];
    try (intros Hm; specialize (IH Hm); lia).
  intros _. pose proof (removeAll_length matchAt k rest). lia.
Qed.

(** C7, amended.  Stripping a second time changes nothing exactly when
    the stripped text holds no complete CSI sequence and no complete OSC
    sequence: on those inputs, and on no others, [stripAnsi] is
    idempotent.  An ESC that starts no complete sequence (a private-mode
    CSI such as ESC [?25h, a charset selection ESC (B, an unfinished
    sequence) stays in the text and does no harm. *)
Theorem stripAnsi_idempotent_when_clean (S : string) :
  sequence_free (stripAnsi S) = true
  <-> stripAnsi (stripAnsi S) = stripAnsi S.
Proof.
  generalize (stripAnsi S). intros t. unfold sequence_free, stripAnsi.
  split.
  - intros Hfree. apply andb_prop in Hfree as [Hcsi Hosc].
    rewrite (removeAll_matchFree csiMatch t Hcsi).
    apply removeAll_matchFree, Hosc.
  - intros Hsame.
    destruct (matchFree csiMatch t) eqn:Hcsi.
    + rewrite (removeAll_matchFree csiMatch t Hcsi) in Hsame.
      destruct (matchFree oscMatch t) eqn:Hosc; [reflexivity |].
      pose proof (removeAll_shrinks oscMatch t Hosc) as Hshort.
      rewrite Hsame in Hshort. lia.
    + pose proof (removeAll_shrinks csiMatch t Hcsi) as Hshort.
      pose proof (removeAll_length oscMatch 0
                    (removeAll csiMatch 0 t)) as Hle.
      rewrite Hsame in Hle. lia.
Qed.

(** A line that hides the cursor with a private-mode sequence, which
    the expressions of [stripAnsi] do not match, between two colour
    codes, which they do. *)
Lemma stripAnsi_idempotent_when_clean_witness :
  let S :=
    String Js.ESC "[?25l" +:+ String Js.ESC "[32mPlease visit" +:+
    String Js.ESC "[0m" in
  stripAnsi S = String Js.ESC "[?25lPlease visit"
  /\ stripAnsi (stripAnsi S) = stripAnsi S.
Proof.
  split; [vm_compute; reflexivity |].
  apply (proj1 (stripAnsi_idempotent_when_clean
                  (String Js.ESC "[?25l" +:+
                   String Js.ESC "[32mPlease visit" +:+
                   String Js.ESC "[0m"))).
  vm_compute. reflexivity.
Defined.

End AnalyzerFacts.

(** ** The forwarder *)

Module ForwarderFacts.
Import Forwarder.

(** Scenario 2: a bare "no" denies the only pending request. *)
Example no_denies :
  delivered
    (onInboundMessage 5000
       {| m_channel := "whatsapp"; from := "+15550100"; text := "no" |}
       Samples.oneForwarded)
  = [{| requestId := id Samples.vercel; decision := Deny;
        instructions := None; resolvedBy := Some "whatsapp:+15550100";
        resolvedAtMs := 5000 |}].
Proof. vm_compute. reflexivity. Qed.

(** "approve" with the head of the request id is an approval with
    instructions; the id stays in them. *)
Example approve_with_id :
  delivered
    (onInboundMessage 5000
       {| m_channel := "whatsapp"; from := "+15550100";
          text := "approve 7c9e6679 only screenshot" |}
       Samples.oneForwarded)
  = [{| requestId := id Samples.vercel; decision := ApproveWithInstructions;
        instructions := Some "7c9e6679 only screenshot";
        resolvedBy := Some "whatsapp:+15550100";
        resolvedAtMs := 5000 |}].
Proof. vm_compute. reflexivity. Qed.

(** Scenario 3: the armed timer fires and denies. *)
Example timer_denies :
  delivered (onTimeout 1500 0 Samples.oneForwarded)
  = [{| requestId := id Samples.vercel; decision := Deny;
        instructions := None; resolvedBy := Some "timeout";
        resolvedAtMs := 1500 |}].
Proof. vm_compute. reflexivity. Qed.

Lemma map_set_elem (k : string) (v : PendingRequest)
    (m : list (string * PendingRequest)) :
  (k, v) ∈ map_set k v m.
Proof.
  induction m as [|e rest IH]; simpl.
  - apply list_elem_of_here.
  - destruct (Js.eqb e.1 k).
    + apply list_elem_of_here.
    + apply list_elem_of_further, IH.
Qed.

(** With a target configured, the call arms a timer of [auth.timeoutMs]
    and tracks the request. *)
Lemma targets_then_tracked (config : ConductorAuthConfig)
    (request : ExternalAccessRequest) (s : State) :
  default [] (targets config) <> [] ->
  let s' := requestAuthorization_complete config request s in
  exists entry,
    (id request, entry) ∈ pending s'
    /\ timers s' !! timer entry
       = Some (id request, default 120000 (timeoutMs config)).
Proof.
  intros Hne s'. subst s'.
  unfold requestAuthorization_complete, requestAuthorization.
  destruct (default [] (targets config)) as [|t ts]; [contradiction |].
  simpl. eexists. split.
  - apply map_set_elem.
  - simpl. apply lookup_insert_eq.
Qed.

(** C4.  What the code does when no target is configured: the call
    returns at once, before the timer and the pending entry.  The
    forwarder's state is as it was, so nothing will ever time the request
    out. *)
Theorem no_targets_nothing_registered (config : ConductorAuthConfig)
    (request : ExternalAccessRequest) :
  default [] (targets config) = [] ->
  (forall s, requestAuthorization_complete config request s = s)
  /\ timers (requestAuthorization_complete config request initial) = ∅
  /\ ~ tracked (id request)
         (requestAuthorization_complete config request initial).
Proof.
  intros Hnone.
  assert (Hsame : forall s, requestAuthorization_complete config request s = s).
  { intros s. unfold requestAuthorization_complete, requestAuthorization.
    rewrite Hnone. reflexivity. }
  split; [exact Hsame |]. rewrite Hsame. split; [reflexivity |].
  intros [entry [delay [Hin _]]]. simpl in Hin.
  apply elem_of_nil in Hin. exact Hin.
Qed.

Lemma no_targets_nothing_registered_witness :
  (forall s,
     requestAuthorization_complete Samples.noTargets Samples.portal s = s)
  /\ timers (requestAuthorization_complete Samples.noTargets Samples.portal
               initial) = ∅
  /\ ~ tracked (id Samples.portal)
         (requestAuthorization_complete Samples.noTargets Samples.portal
            initial).
Proof.
  apply (no_targets_nothing_registered Samples.noTargets Samples.portal).
  reflexivity.
Defined.

Lemma startsWith_app (t p : string) :
  Js.startsWith t p = true -> exists rest, t = p +:+ rest.
Proof.
  revert t. induction p as [|a p IH]; intros t; simpl.
  - exists t. reflexivity.
  - destruct t as [|b t]; [discriminate |].
    intros H. apply andb_prop in H as [Hab Hrest].
    apply bool_decide_eq_true in Hab. subst b.
    destruct (IH t Hrest) as [rest ->]. exists rest. reflexivity.
Qed.

Lemma trimStart_idempotent (s : string) :
  Js.trimStart (Js.trimStart s) = Js.trimStart s.
Proof.
  induction s as [|c rest IH]; [reflexivity |]. simpl.
  destruct (Js.is_space c) eqn:Hc; [exact IH |].
  simpl. rewrite Hc. reflexivity.
Qed.

Lemma map_delete_only (i : string) (entry : PendingRequest) :
  map_delete i [(i, entry)] = [].
Proof.
  unfold map_delete. rewrite filter_cons. simpl.
  destruct (decide (i <> i)) as [Hne|_]; [contradiction | reflexivity].
Qed.

(** The other half of C5 holds: "yes <instructions>" resolves the
    only pending request with the trimmed remainder as instructions. *)
Lemma yes_prefix_resolves (now : Z) (msg : InboundMessage) (s : State)
    (i : string) (entry : PendingRequest) (rest : string) :
  pending s = [(i, entry)] ->
  Js.toLowerCase (Js.trim (text msg)) = "yes " +:+ rest ->
  onInboundMessage now msg s
  = {| pending := [];
       timers := delete (timer entry) (timers s);
       nextTimer := nextTimer s;
       sent := sent s;
       delivered :=
         delivered s ++
         [{| requestId := i;
             decision := ApproveWithInstructions;
             instructions := Some (Js.trim rest);
             resolvedBy := Some (m_channel msg +:+ ":" +:+ from msg);
             resolvedAtMs := now |}] |}.
Proof.
  intros Hp Htext. unfold onInboundMessage. rewrite Hp, Htext.
  cbn [firstResolved length]. unfold resolves.
  replace (isApproval ("yes " +:+ rest)) with true by reflexivity.
  replace (hasInstructions ("yes " +:+ rest)) with true by reflexivity.
  cbn [Nat.eqb orb andb]. rewrite orb_true_r. cbn [requestId].
  rewrite map_delete_only.
  replace (stripApproval ("yes " +:+ rest)) with (Js.trimStart rest)
    by reflexivity.
  unfold Js.trim at 1. rewrite trimStart_idempotent. reflexivity.
Qed.

(** A text that starts with "approve " is neither an approval nor a
    denial for the handler. *)
Lemma approve_prefix_unrecognised (text : string) :
  Js.startsWith text "approve " = true ->
  isApproval text = false /\ isDenial text = false.
Proof.
  intros H. apply startsWith_app in H as [rest ->].
  split; reflexivity.
Qed.

(** C5.  What the code does with "approve <instructions>" from the
    operator while one request is pending: unless the text also holds the
    first eight characters of the request id, the handler does not count
    it as an approval and resolves nothing; the request stays pending and
    no authorization is delivered. *)
Theorem approve_prefix_not_resolved (now : Z) (msg : InboundMessage)
    (s : State) (i : string) (entry : PendingRequest) :
  pending s = [(i, entry)] ->
  Js.startsWith (Js.toLowerCase (Js.trim (text msg))) "approve " = true ->
  matchesId (Js.toLowerCase (Js.trim (text msg))) i = false ->
  onInboundMessage now msg s = s.
Proof.
  intros Hp Hprefix Hid. unfold onInboundMessage. rewrite Hp.
  destruct (approve_prefix_unrecognised _ Hprefix) as [Ha Hd].
  simpl. unfold resolves. rewrite Hid, Ha, Hd. reflexivity.
Qed.

Lemma approve_prefix_not_resolved_witness :
  onInboundMessage 5000 Samples.approveWithGuidance Samples.oneForwarded
  = Samples.oneForwarded.
Proof.
  apply (approve_prefix_not_resolved 5000 Samples.approveWithGuidance
           Samples.oneForwarded (id Samples.vercel)
           {| p_request := Samples.vercel; timer := 0 |}).
  - reflexivity.
  - vm_compute. reflexivity.
  - vm_compute. reflexivity.
Defined.

End ForwarderFacts.

(** ** The browser executor *)

Module BrowserExecutorFacts.
Import BrowserExecutor.

(** Scenario 1: an approval without instructions runs the suggested
    actions; "only screenshot" keeps the navigation and a screenshot. *)
Example resolveActions_railway :
  resolveActions Samples.railway (Samples.approves Samples.railway)
  = [Navigate "https://railway.app/dashboard"; Screenshot None;
     ExtractText None]
  /\ resolveActions Samples.railway
       {| requestId := id Samples.railway;
          decision := ApproveWithInstructions;
          instructions := Some "Only Screenshot please";
          resolvedBy := None; resolvedAtMs := 5000 |}
     = [Navigate "https://railway.app/dashboard"; Screenshot None].
Proof. vm_compute. split; reflexivity. Qed.

(** Offline: the failed navigate ends the loop, the extraction is not
    dispatched, the trailing screenshot is. *)
Example offline_dispatches :
  let done :=
    execute Samples.offline Samples.defaultBrowser Samples.database
      (Samples.approves Samples.database)
      {| browser := tt; dispatched := [] |} in
  dispatched done.2
  = [Navigate "https://railway.app/project/db"; Screenshot None]
  /\ (exists results, done.1 = Returned results /\ length results = 2%nat).
Proof.
  vm_compute. split; [reflexivity |].
  eexists. split; reflexivity.
Qed.

Section WithBrowser.

Context {Browser : Type}.
Variable executeAction :
  BrowserAction -> string -> Z -> Run Browser BrowserActionResult.

(** The loop catches what an action throws: it always returns. *)
Lemma actionLoop_returns (profile : string) (actionTimeoutMs : Z)
    (actions : list BrowserAction) (results : list BrowserActionResult)
    (p : Plane) :
  exists out p1,
    actionLoop executeAction profile actionTimeoutMs actions results p
    = (Returned out, p1).
Proof.
  revert results p. induction actions as [|a rest IH]; intros results p.
  - exists results, p. reflexivity.
  - cbn [actionLoop].
    destruct (dispatch executeAction profile actionTimeoutMs a p)
      as [[result|err] p'].
    + destruct (negb (success result) && is_navigate a).
      * eexists _, _. reflexivity.
      * apply IH.
    + apply IH.
Qed.

(** A failed navigate ends the loop: nothing after it is dispatched. *)
Lemma failed_navigate_stops (profile : string) (actionTimeoutMs : Z)
    (u : string) (rest : list BrowserAction)
    (results : list BrowserActionResult) (p : Plane)
    (failed : BrowserActionResult) (b : Browser) :
  executeAction (Navigate u) profile actionTimeoutMs (browser p)
  = (Returned failed, b) ->
  success failed = false ->
  actionLoop executeAction profile actionTimeoutMs (Navigate u :: rest)
    results p
  = (Returned (results ++ [failed]),
     {| browser := b; dispatched := dispatched p ++ [Navigate u] |}).
Proof.
  intros Hcall Hfailed. cbn [actionLoop]. unfold dispatch.
  rewrite Hcall, Hfailed. reflexivity.
Qed.

(** C10, amended.  When [captureScreenshots] is on and the resolved action
    list is not empty and holds no screenshot, the executor dispatches one
    screenshot after the loop, however the loop ended, and appends its
    result to the loop's results; when that screenshot throws, the loop's
    results are returned as they are. *)
Theorem trailing_screenshot_after_actions (config : ConductorBrowserConfig)
    (request : ExternalAccessRequest)
    (authorization : ConductorAuthorization) (p : Plane) :
  captureScreenshots config <> Some false ->
  resolveActions request authorization <> [] ->
  existsb is_screenshot (resolveActions request authorization) = false ->
  let profile := default "openclaw" (profile config) in
  let actionTimeoutMs := default 30000 (actionTimeoutMs config) in
  exists results p1,
    actionLoop executeAction profile actionTimeoutMs
      (resolveActions request authorization) [] p
    = (Returned results, p1)
    /\ dispatched (execute executeAction config request authorization p).2
       = dispatched p1 ++ [Screenshot None]
    /\ (execute executeAction config request authorization p).1
       = match executeAction (Screenshot None) profile actionTimeoutMs
                 (browser p1) with
         | (Returned screenshotResult, _) =>
             Returned (results ++ [screenshotResult])
         | (Threw _, _) => Returned results
         end.
Proof.
  intros Hon Hne Hnone profile actionTimeoutMs.
  destruct (actionLoop_returns profile actionTimeoutMs
              (resolveActions request authorization) [] p)
    as [results [p1 Hloop]].
  exists results, p1. split; [exact Hloop |].
  unfold execute. fold profile. fold actionTimeoutMs.
  destruct (resolveActions request authorization) as [|a rest] eqn:Hact;
    [contradiction |].
  cbn [length Nat.eqb]. unfold bind. rewrite Hloop, Hnone.
  rewrite bool_decide_eq_false_2 by exact Hon.
  cbn [negb andb]. unfold trailingScreenshot, dispatch.
  destruct (executeAction (Screenshot None) profile actionTimeoutMs
              (browser p1)) as [[shot|err] b]; split; reflexivity.
Qed.

End WithBrowser.

(** C10, read for every action list, fails: with nothing to act on, [execute]
    returns the empty list before the loop and dispatches no screenshot. *)
Lemma no_actions_no_screenshot :
  ~ (forall (config : ConductorBrowserConfig)
            (request : ExternalAccessRequest)
            (authorization : ConductorAuthorization)
            (p : Plane (Browser := unit)),
       captureScreenshots config <> Some false ->
       existsb is_screenshot (resolveActions request authorization) = false ->
       exists earlier,
         dispatched
           (execute Samples.offline config request authorization p).2
         = dispatched p ++ earlier ++ [Screenshot None]).
Proof.
  intros Hall.
  destruct (Hall Samples.defaultBrowser Samples.portal
              (Samples.approves Samples.portal)
              {| browser := tt; dispatched := [] |})
    as [earlier Heq].
  - discriminate.
  - reflexivity.
  - simpl in Heq. destruct earlier; discriminate Heq.
Qed.

(** The browser is offline: the navigate fails, the extraction is never
    dispatched, the screenshot is. *)
Lemma trailing_screenshot_after_actions_witness :
  exists results p1,
    actionLoop Samples.offline "openclaw" 30000
      (resolveActions Samples.database (Samples.approves Samples.database))
      [] {| browser := tt; dispatched := [] |}
    = (Returned results, p1)
    /\ dispatched
         (execute Samples.offline Samples.defaultBrowser Samples.database
            (Samples.approves Samples.database)
            {| browser := tt; dispatched := [] |}).2
       = dispatched p1 ++ [Screenshot None]
    /\ (execute Samples.offline Samples.defaultBrowser Samples.database
          (Samples.approves Samples.database)
          {| browser := tt; dispatched := [] |}).1
       = match Samples.offline (Screenshot None) "openclaw" 30000
                 (browser p1) with
         | (Returned screenshotResult, _) =>
             Returned (results ++ [screenshotResult])
         | (Threw _, _) => Returned results
         end.
Proof.
  apply (trailing_screenshot_after_actions Samples.offline
           Samples.defaultBrowser Samples.database
           (Samples.approves Samples.database)
           {| browser := tt; dispatched := [] |}).
  - discriminate.
  - discriminate.
  - reflexivity.
Defined.

End BrowserExecutorFacts.

(** ** The gateway's pending map *)

Module GatewayFacts.
Import Gateway.

Lemma drain_idle (now : Z) (s : State) : idle s -> drain now s = s.
Proof.
  unfold idle, drain. destruct s as [p h c m b r]. simpl.
  intros ->. reflexivity.
Qed.

Lemma decided_microtasks (now : Z) (n : nat) (s : State) :
  microtasks (conductor_request_decided now n s) = microtasks s.
Proof.
  unfold conductor_request_decided.
  destruct (calls s !! n) as [c|]; [| reflexivity].
  destruct (c_promise c); reflexivity.
Qed.

Lemma decided_all_microtasks (now : Z) (queue : list nat) (start : State) :
  microtasks
    (foldl (fun acc n => conductor_request_decided now n acc) start queue)
  = microtasks start.
Proof.
  revert start. induction queue as [|n rest IH]; intros start.
  - reflexivity.
  - cbn [foldl]. rewrite IH. apply decided_microtasks.
Qed.

Lemma drain_is_idle (now : Z) (s : State) : idle (drain now s).
Proof. unfold idle, drain. rewrite decided_all_microtasks. reflexivity. Qed.

Lemma perform_is_idle (now : Z) (t : Task) (s : State) :
  idle (perform now t s).2.
Proof.
  destruct t as [newId p|client p|n]; cbn [perform].
  - destruct (conductor_request now newId p s) as [r s'].
    apply drain_is_idle.
  - destruct (conductor_resolve now client p s) as [r s'].
    apply drain_is_idle.
  - apply drain_is_idle.
Qed.

(** *** Once absent, an id stays absent until it is drawn again *)

Lemma decided_absent (now : Z) (i : string) (n : nat) (s : State) :
  absent i s -> absent i (conductor_request_decided now n s).
Proof.
  unfold absent, conductor_request_decided. intros Hs.
  destruct (calls s !! n) as [c|]; [| exact Hs].
  destruct (c_promise c); try exact Hs. simpl.
  destruct (decide (e_id (c_entry c) = i)) as [->|Hne].
  - apply lookup_delete_eq.
  - rewrite lookup_delete_ne by exact Hne. exact Hs.
Qed.

Lemma drain_absent (now : Z) (i : string) (s : State) :
  absent i s -> absent i (drain now s).
Proof.
  intros Hs. unfold drain.
  assert (Hstart : absent i
            {| conductorPending := conductorPending s;
               conductorHistory := conductorHistory s;
               calls := calls s; microtasks := [];
               broadcasts := broadcasts s; responses := responses s |})
    by exact Hs.
  revert Hstart. generalize (microtasks s) as queue.
  generalize {| conductorPending := conductorPending s;
                conductorHistory := conductorHistory s;
                calls := calls s; microtasks := [];
                broadcasts := broadcasts s; responses := responses s |}
    as start.
  intros start queue. revert start.
  induction queue as [|n rest IH]; intros start Hstart.
  - exact Hstart.
  - cbn [foldl]. apply IH, decided_absent, Hstart.
Qed.

Lemma resolveDecision_pending (n : nat) (v : DecisionValue) (s : State) :
  conductorPending (resolveDecision n v s) = conductorPending s.
Proof.
  unfold resolveDecision. destruct (calls s !! n) as [c|]; [| reflexivity].
  destruct (c_promise c); reflexivity.
Qed.

Lemma request_absent (now : Z) (i newId : string)
    (p : ConductorRequestParams) (s : State) :
  newId <> i -> absent i s -> absent i (conductor_request now newId p s).2.
Proof.
  intros Hne Hs. unfold conductor_request.
  destruct (negb _ && negb _); [exact Hs |].
  unfold absent. simpl. rewrite lookup_insert_ne by exact Hne. exact Hs.
Qed.

Lemma resolve_absent (now : Z) (i : string) (client : option string)
    (p : ConductorResolveParams) (s : State) :
  absent i s -> absent i (conductor_resolve now client p s).2.
Proof.
  intros Hs. unfold conductor_resolve.
  destruct (r_id p) as [j|]; [| exact Hs].
  destruct (r_decision p) as [d|]; [| exact Hs].
  destruct (negb (Js.truthy j) || negb (Js.truthy d)); [exact Hs |].
  destruct (negb (valid_decision d)); [exact Hs |].
  destruct (conductorPending s !! j) as [e|]; [| exact Hs].
  unfold absent. simpl. rewrite resolveDecision_pending. exact Hs.
Qed.

Lemma timer_absent (i : string) (n : nat) (s : State) :
  absent i s -> absent i (onTimer n s).
Proof.
  intros Hs. unfold onTimer.
  destruct (calls s !! n) as [c|]; [| exact Hs].
  destruct (c_timer c); [| exact Hs].
  destruct (conductorPending s !! e_id (c_entry c)); [| exact Hs].
  unfold absent. rewrite resolveDecision_pending. simpl.
  destruct (decide (e_id (c_entry c) = i)) as [->|Hne].
  - apply lookup_delete_eq.
  - rewrite lookup_delete_ne by exact Hne. exact Hs.
Qed.

Lemma perform_absent (now : Z) (i : string) (t : Task) (s : State) :
  draws t <> Some i -> absent i s -> absent i (perform now t s).2.
Proof.
  intros Hd Hs. destruct t as [newId p|client p|n]; cbn [perform].
  - pose proof (request_absent now i newId p s) as H.
    destruct (conductor_request now newId p s) as [r s'].
    apply drain_absent, H; [| exact Hs].
    intros ->. apply Hd. reflexivity.
  - pose proof (resolve_absent now i client p s Hs) as H.
    destruct (conductor_resolve now client p s) as [r s'].
    apply drain_absent, H.
  - apply drain_absent, timer_absent, Hs.
Qed.

Lemma performAll_absent (i : string) (tasks : list (Z * Task)) (s : State) :
  Forall (fun nt => draws nt.2 <> Some i) tasks ->
  absent i s -> absent i (performAll tasks s).
Proof.
  intros Hall. revert s. unfold performAll.
  induction Hall as [|[now t] rest Hd _ IH]; intros s Hs.
  - exact Hs.
  - cbn [foldl]. apply IH, perform_absent; [exact Hd | exact Hs].
Qed.

Lemma performAll_idle (tasks : list (Z * Task)) (s : State) :
  idle s -> idle (performAll tasks s).
Proof.
  revert s. unfold performAll.
  induction tasks as [|[now t] rest IH]; intros s Hs.
  - exact Hs.
  - cbn [foldl]. apply IH, perform_is_idle.
Qed.

(** A well-formed resolve of an absent id is refused and changes nothing. *)
Lemma resolve_unknown (now : Z) (client : option string)
    (p : ConductorResolveParams) (i d : string) (s : State) :
  idle s -> absent i s ->
  r_id p = Some i -> i <> "" ->
  r_decision p = Some d -> valid_decision d = true ->
  perform now (CallResolve client p) s
  = (Some (RespondError INVALID_REQUEST "unknown request id"), s).
Proof.
  intros Hidle Habs Hi Hne Hd Hvalid. cbn [perform].
  unfold conductor_resolve. rewrite Hi, Hd, Hvalid.
  assert (Hti : Js.truthy i = true) by (destruct i; [contradiction | reflexivity]).
  assert (Htd : Js.truthy d = true) by (destruct d; [discriminate | reflexivity]).
  rewrite Hti, Htd. cbn [negb orb]. unfold absent in Habs. rewrite Habs.
  rewrite (drain_idle now s Hidle). reflexivity.
Qed.

(** Scenario 6: client A's request is answered with client B's approval,
    and the history records it. *)
Example request_then_resolve :
  let s :=
    performAll
      [(1000, CallRequest Samples.portalId Samples.openPortal);
       (2000, CallResolve (Some "client B") Samples.approvePortal)]
      initial in
  responses s
  = [(0%nat,
      RespondDecision Samples.portalId
        {| d_decision := "approve"; d_instructions := None |} 1000 121000)]
  /\ conductorPending s !! Samples.portalId = None
  /\ length (conductorHistory s) = 1%nat.
Proof. vm_compute. repeat split; reflexivity. Qed.

(** A decision outside the allowed set is refused before the lookup. *)
Example invalid_decision_refused :
  (perform 3000
     (CallResolve None
        {| r_id := Some Samples.portalId; r_decision := Some "maybe";
           r_instructions := None |})
     initial).1
  = Some (RespondError INVALID_REQUEST "invalid decision").
Proof. reflexivity. Qed.

(** The [conductor.resolve] handler itself leaves the pending map as it
    is: the entry goes when the continuation of [conductor.request] runs,
    at the end of the task. *)
Lemma resolve_handler_keeps_pending (now : Z) (client : option string)
    (p : ConductorResolveParams) (s : State) :
  conductorPending (conductor_resolve now client p s).2 = conductorPending s.
Proof.
  unfold conductor_resolve.
  destruct (r_id p) as [i|]; [| reflexivity].
  destruct (r_decision p) as [d|]; [| reflexivity].
  destruct (negb (Js.truthy i) || negb (Js.truthy d)); [reflexivity |].
  destruct (negb (valid_decision d)); [reflexivity |].
  destruct (conductorPending s !! i) as [e|]; [| reflexivity].
  simpl. apply resolveDecision_pending.
Qed.

(** *** The handlers keep the pending map consistent *)

Lemma initial_consistent : consistent initial.
Proof.
  split; [reflexivity |]. intros i e H. simpl in H.
  rewrite lookup_empty in H. discriminate H.
Qed.

(** An entry other than [i]'s is not owned by the call that closes over
    [i]. *)
Lemma other_owner (s : State) (i j : string) (e : ConductorPendingEntry)
    (n : nat) (c : RequestCall) :
  owned s -> calls s !! n = Some c -> e_id (c_entry c) = i ->
  conductorPending s !! j = Some e -> j <> i -> owner e <> n.
Proof.
  intros Hown Hn Hid Hj Hne Heq.
  destruct (Hown j e Hj) as [c' [Hc' [_ Hid']]].
  rewrite Heq, Hn in Hc'. injection Hc' as <-. congruence.
Qed.

Lemma request_consistent (now : Z) (newId : string)
    (p : ConductorRequestParams) (s : State) :
  consistent s -> consistent (conductor_request now newId p s).2.
Proof.
  intros [Hidle Hown]. unfold conductor_request.
  destruct (negb _ && negb _); [split; assumption |].
  split; [exact Hidle |]. intros i e. simpl.
  destruct (decide (newId = i)) as [->|Hne].
  - rewrite lookup_insert_eq. intros [= <-]. simpl.
    eexists. split; [apply list_lookup_middle; reflexivity |].
    split; reflexivity.
  - rewrite lookup_insert_ne by exact Hne. intros He.
    destruct (Hown i e He) as [c [Hc [Hp Hid]]].
    exists c. split; [| split; assumption].
    apply lookup_app_l_Some, Hc.
Qed.

(** The state a successful [conductor.resolve] leaves once its microtask
    has run: the id is gone and the rest is consistent. *)
Lemma resolve_found (now : Z) (client : option string)
    (d : string) (instr : option string) (i : string)
    (e : ConductorPendingEntry) (s : State) :
  consistent s ->
  conductorPending s !! i = Some e ->
  let s' :=
    drain now
      (let s1 := resolveDecision (owner e)
                   {| d_decision := d; d_instructions := instr |} s in
       {| conductorPending := conductorPending s1;
          conductorHistory := conductorHistory s1;
          calls := calls s1;
          microtasks := microtasks s1;
          broadcasts := broadcasts s1 ++ [Resolved i d instr client now];
          responses := responses s1 |}) in
  absent i s' /\ consistent s'.
Proof.
  intros [Hidle Hown] He s'. subst s'.
  destruct (Hown i e He) as [c [Hc [Hp Hid]]].
  unfold resolveDecision. rewrite Hc, Hp.
  unfold idle in Hidle. unfold drain. cbn -[insert delete lookup].
  rewrite Hidle. cbn [app foldl].
  unfold conductor_request_decided. cbn -[insert delete lookup].
  assert (Hlt : (owner e < length (calls s))%nat)
    by (eapply lookup_lt_Some; exact Hc).
  rewrite list_lookup_insert_eq by exact Hlt.
  cbn -[insert delete lookup]. rewrite Hid.
  split; [apply lookup_delete_eq |].
  split; [reflexivity |].
  intros j e'. cbn -[insert delete lookup].
  destruct (decide (i = j)) as [<-|Hne];
    [rewrite lookup_delete_eq; discriminate |].
  rewrite lookup_delete_ne by exact Hne. intros He'.
  assert (Hother : owner e' <> owner e).
  { eapply (other_owner s i j e'); eauto. }
  destruct (Hown j e' He') as [c' [Hc' [Hp' Hid']]].
  exists c'. split; [| split; assumption].
  rewrite !list_lookup_insert_ne by (intros Heq; apply Hother; symmetry; exact Heq).
  exact Hc'.
Qed.

Lemma resolve_consistent (now : Z) (client : option string)
    (p : ConductorResolveParams) (s : State) :
  consistent s -> consistent (perform now (CallResolve client p) s).2.
Proof.
  intros Hs. cbn [perform]. unfold conductor_resolve.
  assert (Hsame : consistent (drain now s))
    by (rewrite drain_idle; [exact Hs | apply Hs]).
  destruct (r_id p) as [i|]; [| exact Hsame].
  destruct (r_decision p) as [d|]; [| exact Hsame].
  destruct (negb (Js.truthy i) || negb (Js.truthy d)); [exact Hsame |].
  destruct (negb (valid_decision d)); [exact Hsame |].
  destruct (conductorPending s !! i) as [e|] eqn:He; [| exact Hsame].
  apply (resolve_found now client d (r_instructions p) i e s Hs He).
Qed.

Lemma timer_consistent (now : Z) (n : nat) (s : State) :
  consistent s -> consistent (perform now (TimerFires n) s).2.
Proof.
  intros [Hidle Hown]. cbn [perform]. unfold onTimer.
  assert (Hsame : consistent (drain now s))
    by (rewrite drain_idle; [split; assumption | exact Hidle]).
  destruct (calls s !! n) as [c|] eqn:Hc; [| exact Hsame].
  destruct (c_timer c); [| exact Hsame].
  assert (Hlt : (n < length (calls s))%nat)
    by (eapply lookup_lt_Some; exact Hc).
  unfold idle in Hidle.
  destruct (conductorPending s !! e_id (c_entry c)) as [e|] eqn:He.
  - unfold resolveDecision. cbn -[insert delete lookup].
    rewrite list_lookup_insert_eq by exact Hlt. cbn -[insert delete lookup].
    assert (Hkeep : forall (calls' : list RequestCall) j e',
              (forall m, m <> n -> calls' !! m = calls s !! m) ->
              delete (e_id (c_entry c)) (conductorPending s) !! j = Some e' ->
              exists c', calls' !! owner e' = Some c'
                         /\ c_promise c' = Unsettled
                         /\ e_id (c_entry c') = j).
    { intros calls' j e' Hcalls Hj.
      destruct (decide (e_id (c_entry c) = j)) as [<-|Hne];
        [rewrite lookup_delete_eq in Hj; discriminate |].
      rewrite lookup_delete_ne in Hj by exact Hne.
      assert (Hother : owner e' <> n).
      { eapply (other_owner s (e_id (c_entry c)) j e'); eauto. }
      destruct (Hown j e' Hj) as [c' [Hc' Hrest]].
      exists c'. split; [| exact Hrest].
      rewrite Hcalls by exact Hother. exact Hc'. }
    destruct (c_promise c) eqn:Hp.
    + unfold drain. cbn -[insert delete lookup]. rewrite Hidle.
      cbn [app foldl]. unfold conductor_request_decided.
      cbn -[insert delete lookup].
      rewrite list_lookup_insert_eq
        by (rewrite length_insert; exact Hlt).
      cbn -[insert delete lookup].
      split; [reflexivity |].
      intros j e'. cbn -[insert delete lookup]. intros Hj.
      apply (Hkeep _ j e').
      * intros m Hm. rewrite !list_lookup_insert_ne by congruence.
        reflexivity.
      * destruct (decide (e_id (c_entry c) = j)) as [<-|Hne];
          [rewrite lookup_delete_eq in Hj; discriminate |].
        rewrite lookup_delete_ne in Hj by exact Hne. exact Hj.
    + rewrite drain_idle by exact Hidle. split; [exact Hidle |].
      intros j e'. cbn -[insert delete lookup]. apply Hkeep.
      intros m Hm. rewrite list_lookup_insert_ne by congruence. reflexivity.
    + rewrite drain_idle by exact Hidle. split; [exact Hidle |].
      intros j e'. cbn -[insert delete lookup]. apply Hkeep.
      intros m Hm. rewrite list_lookup_insert_ne by congruence. reflexivity.
  - rewrite drain_idle by exact Hidle. split; [exact Hidle |].
    intros j e'. cbn -[insert delete lookup]. intros Hj.
    destruct (Hown j e' Hj) as [c' [Hc' [Hp' Hid']]].
    destruct (decide (owner e' = n)) as [Heq|Hne].
    + rewrite Heq in *. rewrite Hc in Hc'. injection Hc' as <-.
      eexists. split; [apply list_lookup_insert_eq; exact Hlt |].
      split; assumption.
    + exists c'. split; [| split; assumption].
      rewrite list_lookup_insert_ne by congruence. exact Hc'.
Qed.

Lemma perform_consistent (now : Z) (t : Task) (s : State) :
  consistent s -> consistent (perform now t s).2.
Proof.
  intros Hs. destruct t as [newId p|client p|n].
  - cbn [perform].
    pose proof (request_consistent now newId p s Hs) as H.
    destruct (conductor_request now newId p s) as [r s'].
    rewrite drain_idle; [exact H | apply H].
  - apply resolve_consistent, Hs.
  - apply timer_consistent, Hs.
Qed.

Lemma performAll_consistent (tasks : list (Z * Task)) (s : State) :
  consistent s -> consistent (performAll tasks s).
Proof.
  revert s. unfold performAll.
  induction tasks as [|[now t] rest IH]; intros s Hs.
  - exact Hs.
  - cbn [foldl]. apply IH, perform_consistent, Hs.
Qed.

(** A [conductor.resolve] that answers ok leaves its id absent. *)
Lemma resolve_ok_removes (now : Z) (client : option string)
    (p : ConductorResolveParams) (i : string) (s : State) :
  consistent s ->
  r_id p = Some i ->
  (perform now (CallResolve client p) s).1 = Some RespondOk ->
  i <> "" /\ absent i (perform now (CallResolve client p) s).2.
Proof.
  intros Hs Hi. cbn [perform]. unfold conductor_resolve. rewrite Hi.
  destruct (r_decision p) as [d|]; [| discriminate].
  destruct (Js.truthy i) eqn:Hti; [| discriminate].
  destruct (negb true || negb (Js.truthy d)); [discriminate |].
  destruct (negb (valid_decision d)); [discriminate |].
  destruct (conductorPending s !! i) as [e|] eqn:He; [| discriminate].
  intros _. split; [intros ->; discriminate Hti |].
  apply (resolve_found now client d (r_instructions p) i e s Hs He).
Qed.

(** *** Under any dispatcher *)






















End GatewayFacts.

(** ** Invariants of the orchestrator's event loop *)

Module LedgerFacts.
Import Interceptor Injector Conductor Ledger.

(** The writes of an injection happen together or not at all. *)
Lemma injectEnvelope_cases (text : string) (t : TerminalInterceptor) :
  injectEnvelope text t
  = if can_write t
    then (Returned tt,
          {| child := Some {| writable := true;
                              stdin := written t ++
                                       [Js.newline; text +:+ Js.newline;
                                        Js.newline] |} |})
    else (Threw not_writable, t).
Proof.
  unfold injectEnvelope, injectLine, inject, bind, can_write, written, throw.
  destruct t as [[[w l]|]]; simpl; [| reflexivity].
  destruct w; simpl; [| reflexivity].
  rewrite <- !app_assoc. reflexivity.
Qed.

Lemma spawn_establishes (S : Session -> Prop) (T : Awaiting -> Prop)
    (m : Run Session (option Awaiting)) (rest : list Awaiting) (s : Session) :
  establishes S T m s -> Forall T rest -> holds S T (spawn m rest s).
Proof.
  intros [HS HT] Hrest. unfold holds, spawn.
  destruct (m s) as [[[t|]|e] s']; simpl in *; split; try assumption.
  apply Forall_app. split; [exact Hrest |].
  constructor; [apply HT; reflexivity | constructor].
Qed.

(** An invariant that every method keeps is kept by every run. *)
Lemma steps_hold `{RegExp} (config : ConductorConfig)
    (S : Session -> Prop) (T : Awaiting -> Prop) :
  (forall now text s, S s -> establishes S T (handleTerminalOutput now text) s) ->
  (forall now a s, S s -> establishes S T (handleAuthorization now a) s) ->
  (forall now t r m s,
     T t -> resume config now t r = Some m -> S s -> establishes S T m s) ->
  forall inputs sys, holds S T sys -> holds S T (steps config inputs sys).
Proof.
  intros Hflush Hauth Hresume inputs. unfold steps.
  induction inputs as [|[now input] rest IH]; intros sys Hsys; [exact Hsys |].
  cbn [foldl]. apply IH. destruct Hsys as [HS HT].
  destruct input as [text|a|n r]; unfold step; cbn [fst snd].
  - apply spawn_establishes; [apply Hflush, HS | exact HT].
  - apply spawn_establishes; [apply Hauth, HS | exact HT].
  - destruct (tasks sys !! n) as [t|] eqn:Ht; [| split; assumption].
    destruct (resume config now t r) as [m|] eqn:Hr; [| split; assumption].
    apply spawn_establishes.
    + eapply Hresume; [| exact Hr | exact HS].
      eapply Forall_lookup_1; [exact HT | exact Ht].
    + apply Forall_delete, HT.
Qed.

(** Runs a method symbolically: every call is unfolded and every test the
    method makes on the state is a case. *)
Ltac unfold_method :=
  unfold establishes, handleTerminalOutput, handleAuthorization,
    handleTerminalOutput_analyzed, handleTerminalOutput_catch, under_caller,
    executeAndInject_call, executeAndInject_executed,
    executeAndInject_notified, executeAndInject_catch,
    try_catch, bind, gets, modify, ret, emit, audit, recordHistory,
    on_interceptor, injectDenial, injectResults, bind, ret;
  rewrite ?injectEnvelope_cases.

Ltac method_cases :=
  repeat match goal with
         | |- context [ injectEnvelope _ _ ] =>
             rewrite injectEnvelope_cases
         | |- context [ match ?x with _ => _ end ] =>
             lazymatch x with
             | context [ match _ with _ => _ end ] => fail
             | _ => destruct x eqn:?
             end; cbn -[checkAutoRules insert delete lookup] in *
         | |- context [ if ?x then _ else _ ] =>
             lazymatch x with
             | context [ if _ then _ else _ ] => fail
             | _ => destruct x eqn:?
             end; cbn -[checkAutoRules insert delete lookup] in *
         end.

(** *** The executor is never called for a denial *)

Ltac approved_close :=
  unfold approved_only in *; cbn -[insert delete lookup] in *;
  split;
  [ try assumption;
    try (apply Forall_app; split; [assumption |];
         repeat constructor; cbn; congruence)
  | let E := fresh "E" in intros ? E; try discriminate E; injection E as <-; cbn;
    try exact I; try congruence ].

Lemma approved_flush (now : Z) (text : string) (s : Session) :
  approved_only s ->
  establishes approved_only approved_task (handleTerminalOutput now text) s.
Proof. intros Hs. unfold_method. approved_close. Qed.

Lemma approved_authorization (now : Z) (a : ConductorAuthorization)
    (s : Session) :
  approved_only s ->
  establishes approved_only approved_task (handleAuthorization now a) s.
Proof.
  intros Hs. unfold_method. cbn -[insert delete lookup].
  method_cases; approved_close.
Qed.

Lemma approved_resume `{RegExp} (config : ConductorConfig) (now : Z)
    (t : Awaiting) (r : Settlement) (m : Run Session (option Awaiting))
    (s : Session) :
  approved_task t -> resume config now t r = Some m ->
  approved_only s -> establishes approved_only approved_task m s.
Proof.
  intros Ht Hr Hs.
  destruct t as [c rq a|c rq a|rq|text], r as [o newId|o|o];
    cbn in Hr; try discriminate Hr.
  - injection Hr as <-. destruct c, o; unfold_method;
      cbn -[insert delete lookup]; method_cases; approved_close.
  - injection Hr as <-. destruct c, o; unfold_method;
      cbn -[insert delete lookup]; method_cases; approved_close.
  - destruct o; injection Hr as <-; unfold_method; approved_close.
  - injection Hr as <-. destruct o; unfold_method;
      cbn -[checkAutoRules insert delete lookup]; method_cases; approved_close.
Qed.

(** *** What was written stays written *)

Lemma extends_refl (s : Session) : extends s s.
Proof. repeat split; reflexivity. Qed.

Ltac extends_close :=
  unfold extends in *; cbn -[insert delete lookup] in *;
  split; [| intros; exact I];
  repeat match goal with H : _ /\ _ |- _ => destruct H end;
  repeat match goal with
         | E : auditStream _ = _ |- _ => try rewrite E in *; clear E
         | E : can_write _ = _ |- _ => clear E
         end;
  cbn in *;
  repeat split; cbn; rewrite <- ?app_assoc;
  try assumption;
  try (etrans; [eassumption |]; apply prefix_app_r; reflexivity).

Lemma extends_flush (s0 : Session) (now : Z) (text : string) (s : Session) :
  extends s0 s ->
  establishes (extends s0) (fun _ => True) (handleTerminalOutput now text) s.
Proof. intros Hs. unfold_method. extends_close. Qed.

Lemma extends_authorization (s0 : Session) (now : Z)
    (a : ConductorAuthorization) (s : Session) :
  extends s0 s ->
  establishes (extends s0) (fun _ => True) (handleAuthorization now a) s.
Proof.
  intros Hs. unfold_method. cbn -[insert delete lookup].
  method_cases; extends_close.
Qed.

Lemma extends_resume `{RegExp} (s0 : Session) (config : ConductorConfig)
    (now : Z) (t : Awaiting) (r : Settlement)
    (m : Run Session (option Awaiting)) (s : Session) :
  resume config now t r = Some m ->
  extends s0 s -> establishes (extends s0) (fun _ => True) m s.
Proof.
  intros Hr Hs.
  destruct t as [c rq a|c rq a|rq|text], r as [o newId|o|o];
    cbn in Hr; try discriminate Hr.
  - injection Hr as <-. destruct c, o; unfold_method;
      cbn -[insert delete lookup]; method_cases; extends_close.
  - injection Hr as <-. destruct c, o; unfold_method;
      cbn -[insert delete lookup]; method_cases; extends_close.
  - destruct o; injection Hr as <-; unfold_method; extends_close.
  - injection Hr as <-. destruct o; unfold_method;
      cbn -[checkAutoRules insert delete lookup]; method_cases; extends_close.
Qed.

(** *** Three lines on stdin for every record *)

Ltac balanced_close :=
  unfold balanced in *; cbn -[insert delete lookup] in *;
  split; [| intros; exact I];
  rewrite ?length_app; cbn; lia.

Lemma balanced_flush (s0 : Session) (now : Z) (text : string) (s : Session) :
  balanced s0 s ->
  establishes (balanced s0) (fun _ => True) (handleTerminalOutput now text) s.
Proof. intros Hs. unfold_method. balanced_close. Qed.

Lemma balanced_authorization (s0 : Session) (now : Z)
    (a : ConductorAuthorization) (s : Session) :
  balanced s0 s ->
  establishes (balanced s0) (fun _ => True) (handleAuthorization now a) s.
Proof.
  intros Hs. unfold_method. cbn -[insert delete lookup].
  method_cases; balanced_close.
Qed.

Lemma balanced_resume `{RegExp} (s0 : Session) (config : ConductorConfig)
    (now : Z) (t : Awaiting) (r : Settlement)
    (m : Run Session (option Awaiting)) (s : Session) :
  resume config now t r = Some m ->
  balanced s0 s -> establishes (balanced s0) (fun _ => True) m s.
Proof.
  intros Hr Hs.
  destruct t as [c rq a|c rq a|rq|text], r as [o newId|o|o];
    cbn in Hr; try discriminate Hr.
  - injection Hr as <-. destruct c, o; unfold_method;
      cbn -[insert delete lookup]; method_cases; balanced_close.
  - injection Hr as <-. destruct c, o; unfold_method;
      cbn -[insert delete lookup]; method_cases; balanced_close.
  - destruct o; injection Hr as <-; unfold_method; balanced_close.
  - injection Hr as <-. destruct o; unfold_method;
      cbn -[checkAutoRules insert delete lookup]; method_cases; balanced_close.
Qed.

(** *** Every record is the record of its request *)

Lemma keyed_delete (i : string) (m : gmap string ExternalAccessRequest) :
  (forall j r, m !! j = Some r -> id r = j) ->
  forall j r, delete i m !! j = Some r -> id r = j.
Proof.
  intros Hm j r Hj. apply Hm.
  destruct (decide (i = j)) as [->|Hne].
  - rewrite lookup_delete_eq in Hj. discriminate Hj.
  - rewrite lookup_delete_ne in Hj by exact Hne. exact Hj.
Qed.

Lemma keyed_insert (r0 : ExternalAccessRequest)
    (m : gmap string ExternalAccessRequest) :
  (forall j r, m !! j = Some r -> id r = j) ->
  forall j r, <[id r0 := r0]> m !! j = Some r -> id r = j.
Proof.
  intros Hm j r Hj.
  destruct (decide (id r0 = j)) as [<-|Hne].
  - rewrite lookup_insert_eq in Hj. injection Hj as <-. reflexivity.
  - rewrite lookup_insert_ne in Hj by exact Hne. apply Hm, Hj.
Qed.

Ltac filed_close :=
  unfold filed, keyed, matched in *; cbn -[insert delete lookup] in *;
  repeat match goal with H : _ /\ _ |- _ => destruct H end;
  repeat match goal with
         | K : forall i r, pending _ !! i = Some r -> _,
           L : pending _ !! _ = Some _ |- _ => pose proof (K _ _ L); clear L
         end;
  split;
  [ split;
    [ first [ assumption
            | apply keyed_delete; assumption
            | apply (keyed_insert (Build_ExternalAccessRequest _ _ _ _ _ _ _ _ _ _ _));
              assumption ]
    | try assumption;
      try (apply Forall_app; split; [assumption |];
           repeat constructor; cbn; do 2 eexists;
           repeat split; cbn; solve [reflexivity | assumption | congruence]) ]
  | let E := fresh "E" in
    intros ? E; try discriminate E; injection E as <-; cbn;
    try exact I; try reflexivity; try assumption; try congruence ].

Lemma filed_flush (now : Z) (text : string) (s : Session) :
  filed s ->
  establishes filed matched_task (handleTerminalOutput now text) s.
Proof. intros Hs. unfold_method. filed_close. Qed.

Lemma filed_authorization (now : Z) (a : ConductorAuthorization)
    (s : Session) :
  filed s ->
  establishes filed matched_task (handleAuthorization now a) s.
Proof.
  intros Hs. unfold_method. cbn -[insert delete lookup].
  method_cases; filed_close.
Qed.

Lemma filed_resume `{RegExp} (config : ConductorConfig) (now : Z)
    (t : Awaiting) (r : Settlement) (m : Run Session (option Awaiting))
    (s : Session) :
  matched_task t -> resume config now t r = Some m ->
  filed s -> establishes filed matched_task m s.
Proof.
  intros Ht Hr Hs.
  destruct t as [c rq a|c rq a|rq|text], r as [o newId|o|o];
    cbn in Hr; try discriminate Hr.
  - injection Hr as <-. destruct c, o; unfold_method;
      cbn -[insert delete lookup]; method_cases; filed_close.
  - injection Hr as <-. destruct c, o; unfold_method;
      cbn -[insert delete lookup]; method_cases; filed_close.
  - destruct o; injection Hr as <-; unfold_method; filed_close.
  - injection Hr as <-. destruct o; unfold_method;
      cbn -[checkAutoRules insert delete lookup]; method_cases; filed_close.
Qed.

(** *** Over every run *)

(** X1.  The executor is only called with an approval.  From a state in
    which no call made so far and no suspended execution carries a denial,
    no run of the instance, whatever the flushes, authorizations and
    settlements, makes [executor.execute] see a "deny" decision. *)
Theorem executor_never_given_denial `{RegExp} (config : ConductorConfig)
    (inputs : list (Z * Input)) (sys : System) :
  holds approved_only approved_task sys ->
  approved_only (session (steps config inputs sys)).
Proof.
  intros Hsys.
  apply (steps_hold config approved_only approved_task); try exact Hsys.
  - intros; apply approved_flush; assumption.
  - intros; apply approved_authorization; assumption.
  - intros; eapply approved_resume; eassumption.
Qed.

(** The operator denies the Vercel request while the approved Railway
    request is executing. *)
Lemma executor_never_given_denial_witness :
  approved_only
    (session
       (steps (H := AsciiRegExp.engine) Samples.noConfig
          [(5000, Authorization (Samples.approves Samples.railway));
           (5100, Authorization (Samples.denies Samples.railway));
           (5200, Resume 0 (ExecutorSettled (Returned [])))]
          (Samples.waiting Samples.railway))).
Proof.
  apply (executor_never_given_denial (H := AsciiRegExp.engine)
           Samples.noConfig).
  split; constructor.
Defined.

(** X2.  Records are filed under their request.  From a state in which
    every pending request is stored under its own id, every history record
    carries an authorization and an injection for the id of its request,
    and every suspended execution runs for the id it was authorized for,
    every run of the instance leaves the pending map and the history so. *)
Theorem history_records_match `{RegExp} (config : ConductorConfig)
    (inputs : list (Z * Input)) (sys : System) :
  holds filed matched_task sys ->
  filed (session (steps config inputs sys)).
Proof.
  intros Hsys.
  apply (steps_hold config filed matched_task); try exact Hsys.
  - intros; apply filed_flush; assumption.
  - intros; apply filed_authorization; assumption.
  - intros; eapply filed_resume; eassumption.
Qed.

Lemma history_records_match_witness :
  filed
    (session
       (steps (H := AsciiRegExp.engine) Samples.noConfig
          [(5000, Authorization (Samples.denies Samples.railway))]
          (Samples.waiting Samples.railway))).
Proof.
  apply (history_records_match (H := AsciiRegExp.engine) Samples.noConfig).
  split; [split |]; [| constructor | constructor].
  intros i r Hi. cbn in Hi.
  apply lookup_singleton_Some in Hi as [<- <-]. reflexivity.
Defined.

(** X3.  The logs only grow.  Over any run of the instance the history,
    the lines written to the child's stdin, the audit log and the events
    delivered to the listeners each keep what they held as a prefix:
    nothing is dropped, rewritten or reordered. *)
Theorem logs_append_only `{RegExp} (config : ConductorConfig)
    (inputs : list (Z * Input)) (sys : System) :
  extends (session sys) (session (steps config inputs sys)).
Proof.
  apply (steps_hold config (extends (session sys)) (fun _ => True)).
  - intros; apply extends_flush; assumption.
  - intros; apply extends_authorization; assumption.
  - intros; eapply extends_resume; eassumption.
  - split; [apply extends_refl | apply Forall_true; intros; exact I].
Qed.

(** X4.  Three lines for every record.  Over any run of the instance the
    number of chunks written to the child's stdin is three times the
    number of history records appended: each record stands for one
    injection that was written whole (blank line, payload, blank line),
    and the orchestrator writes nothing else to the child. *)
Theorem three_writes_per_record `{RegExp} (config : ConductorConfig)
    (inputs : list (Z * Input)) (sys : System) :
  balanced (session sys) (session (steps config inputs sys)).
Proof.
  apply (steps_hold config (balanced (session sys)) (fun _ => True)).
  - intros; apply balanced_flush; assumption.
  - intros; apply balanced_authorization; assumption.
  - intros; eapply balanced_resume; eassumption.
  - split; [reflexivity | apply Forall_true; intros; exact I].
Qed.

(** *** A closed stdin *)

(** X5.  A denial is lost when the child's stdin is closed.  When the
    operator denies a pending request and the child's stdin is not
    writable, [handleAuthorization] fails at the first write: the request
    has already left the pending map, nothing is written, nothing is
    recorded in the history and the executor is not called, so the
    request cannot be resolved again and leaves no trace but the
    events. *)
Theorem denial_lost_when_stdin_closed (now : Z) (a : ConductorAuthorization)
    (r : ExternalAccessRequest) (s : Session) :
  pending s !! requestId a = Some r ->
  decision a = Deny ->
  can_write (interceptor s) = false ->
  let out := handleAuthorization now a s in
  out.1 = Threw not_writable
  /\ pending out.2 = delete (requestId a) (pending s)
  /\ history out.2 = history s
  /\ interceptor out.2 = interceptor s
  /\ executed out.2 = executed s
  /\ events out.2 = events s ++ [EvAuthorizationReceived a].
Proof.
  intros Hr Hd Hw. cbv zeta. unfold_method.
  cbn -[insert delete lookup]. rewrite Hr. cbn -[insert delete lookup].
  rewrite Hd. method_cases; try congruence; repeat split.
Qed.

Lemma denial_lost_when_stdin_closed_witness :
  let s :=
    {| pending := {[ id Samples.vercel := Samples.vercel ]};
       history := [];
       interceptor := {| child := None |};
       events := [];
       auditStream := Some [];
       executed := [];
       forwarded := [Samples.vercel];
       notified := [] |} in
  let out := handleAuthorization 5000 (Samples.denies Samples.vercel) s in
  out.1 = Threw not_writable
  /\ pending out.2
     = delete (requestId (Samples.denies Samples.vercel)) (pending s)
  /\ history out.2 = history s
  /\ interceptor out.2 = interceptor s
  /\ executed out.2 = executed s
  /\ events out.2
     = events s ++ [EvAuthorizationReceived (Samples.denies Samples.vercel)].
Proof.
  apply (denial_lost_when_stdin_closed 5000 (Samples.denies Samples.vercel)
           Samples.vercel).
  - apply lookup_singleton_eq.
  - reflexivity.
  - reflexivity.
Defined.

End LedgerFacts.

(** ** The interceptor's buffer *)

Module CaptureFacts.
Import Interceptor Capture.

Lemma concat_app (l k : list string) :
  Js.concat (l ++ k) = Js.concat l +:+ Js.concat k.
Proof.
  induction l as [|x l IH]; [reflexivity |].
  cbn [app Js.concat foldr] in *. unfold Js.concat in IH. rewrite IH.
  symmetry. apply AnalyzerFacts.append_assoc.
Qed.

Lemma flushes_app (l k : list Emitted) :
  flushes (l ++ k) = flushes l ++ flushes k.
Proof. apply omap_app. Qed.

Lemma outputs_app (l k : list Emitted) :
  outputs (l ++ k) = outputs l ++ outputs k.
Proof. apply omap_app. Qed.

Lemma captured_flushBuffer (s : State) :
  captured (flushBuffer s) = captured s.
Proof.
  unfold flushBuffer, captured.
  destruct (buffer s) as [|c b] eqn:Hb; cbn [Js.truthy]; [now rewrite Hb |].
  cbn [emitted emit set_buffer buffer].
  rewrite flushes_app, concat_app. cbn.
  rewrite !AnalyzerFacts.append_empty. reflexivity.
Qed.

Lemma captured_stopFlushTimer (s : State) :
  captured (stopFlushTimer s) = captured s.
Proof. unfold stopFlushTimer. destruct (flushTimer s); reflexivity. Qed.

Lemma captured_appendBuffer (maxBufferSize : Z) (text : string) (s : State) :
  captured (appendBuffer maxBufferSize text s) = captured s +:+ text.
Proof.
  unfold appendBuffer.
  destruct (_ <=? _); rewrite ?captured_flushBuffer;
    unfold captured; cbn; rewrite AnalyzerFacts.append_assoc; reflexivity.
Qed.

Lemma captured_forwardChunk (chunk : string) (s : State) :
  captured (forwardChunk chunk s) = captured s.
Proof.
  unfold forwardChunk. destruct (child s) as [c|]; [| reflexivity].
  destruct (writable (io c)); reflexivity.
Qed.

Lemma captured_iter (chunk : string) (n : nat) (s : State) :
  captured (Nat.iter n (forwardChunk chunk) s) = captured s.
Proof.
  induction n as [|n IH]; [reflexivity |].
  rewrite Nat.iter_succ. rewrite captured_forwardChunk. exact IH.
Qed.

Lemma captured_emit (e : Emitted) (s : State) :
  flushes [e] = [] -> captured (emit e s) = captured s.
Proof.
  intros He. unfold captured. cbn [emitted emit buffer].
  rewrite flushes_app, He, app_nil_r. reflexivity.
Qed.

Lemma captured_react (maxBufferSize : Z) (s : State) (e : Event) :
  captured (react maxBufferSize s e) = captured s +:+ carried e.
Proof.
  destruct e as [sp|d|text|text| |d|code sg|err|chunk];
    cbn [react carried]; rewrite ?AnalyzerFacts.append_empty.
  - unfold start. destruct (child s); reflexivity.
  - unfold stop.
    destruct (child (stopFlushTimer (flushBuffer s))) as [c|] eqn:Hc;
      [destruct (negb (killed c)) |];
      (transitivity (captured (stopFlushTimer (flushBuffer s)));
       [reflexivity |
        rewrite captured_stopFlushTimer; apply captured_flushBuffer]).
  - unfold inject. destruct (child s) as [c|]; [| reflexivity].
    destruct (writable (io c)); reflexivity.
  - unfold onData. rewrite captured_emit by reflexivity.
    apply captured_appendBuffer.
  - unfold onInterval. destruct (intervals s);
      [reflexivity | apply captured_flushBuffer].
  - unfold onForceKill. destruct (timeouts s) as [|n]; [reflexivity |].
    cbn. destruct (child s) as [c|]; [| reflexivity].
    destruct (negb (killed c)); reflexivity.
  - unfold onExit. rewrite captured_emit by reflexivity.
    rewrite captured_stopFlushTimer. apply captured_flushBuffer.
  - apply captured_emit. reflexivity.
  - apply captured_iter.
Qed.

Lemma outputs_flushBuffer (s : State) :
  outputs (emitted (flushBuffer s)) = outputs (emitted s).
Proof.
  unfold flushBuffer. destruct (Js.truthy (buffer s)); [| reflexivity].
  cbn. rewrite outputs_app. cbn. apply app_nil_r.
Qed.

Lemma emitted_stopFlushTimer (s : State) :
  emitted (stopFlushTimer s) = emitted s.
Proof. unfold stopFlushTimer. destruct (flushTimer s); reflexivity. Qed.

Lemma emitted_iter (chunk : string) (n : nat) (s : State) :
  emitted (Nat.iter n (forwardChunk chunk) s) = emitted s.
Proof.
  induction n as [|n IH]; [reflexivity |].
  rewrite Nat.iter_succ. rewrite <- IH. unfold forwardChunk.
  destruct (child _) as [c|]; [| reflexivity].
  destruct (writable (io c)); reflexivity.
Qed.

Lemma emitted_stop (delivered : bool) (s : State) :
  emitted (stop delivered s) = emitted (flushBuffer s).
Proof.
  unfold stop.
  destruct (child (stopFlushTimer (flushBuffer s))) as [c|];
    [destruct (negb (killed c)) |]; cbn; apply emitted_stopFlushTimer.
Qed.

Lemma emitted_start (spawned : ChildProcess) (s : State) :
  emitted (start spawned s).2 = emitted s.
Proof. unfold start. destruct (child s); reflexivity. Qed.

Lemma emitted_inject (text : string) (s : State) :
  emitted (inject text s).2 = emitted s.
Proof.
  unfold inject. destruct (child s) as [c|]; [| reflexivity].
  destruct (writable (io c)); reflexivity.
Qed.

Lemma emitted_onForceKill (delivered : bool) (s : State) :
  emitted (onForceKill delivered s) = emitted s.
Proof.
  unfold onForceKill. destruct (timeouts s) as [|n]; [reflexivity |].
  cbn. destruct (child s) as [c|]; [| reflexivity].
  destruct (negb (killed c)); reflexivity.
Qed.

Lemma outputs_react (maxBufferSize : Z) (s : State) (e : Event) :
  outputs (emitted (react maxBufferSize s e))
  = outputs (emitted s) ++ delivered_texts [e].
Proof.
  destruct e as [sp|d|text|text| |d|code sg|err|chunk];
    cbn [react delivered_texts omap]; rewrite ?app_nil_r.
  - now rewrite emitted_start.
  - now rewrite emitted_stop, outputs_flushBuffer.
  - now rewrite emitted_inject.
  - unfold onData. cbn [emitted emit]. rewrite outputs_app. cbn.
    f_equal. unfold appendBuffer.
    destruct (_ <=? _); rewrite ?outputs_flushBuffer; reflexivity.
  - unfold onInterval. destruct (intervals s);
      [reflexivity | apply outputs_flushBuffer].
  - now rewrite emitted_onForceKill.
  - unfold onExit. cbn [emitted emit]. rewrite outputs_app. cbn.
    rewrite app_nil_r, emitted_stopFlushTimer. apply outputs_flushBuffer.
  - unfold onError. cbn. rewrite outputs_app. cbn. apply app_nil_r.
  - unfold onStdin. now rewrite emitted_iter.
Qed.

(** X6.  The interceptor loses nothing and reorders nothing.  Whatever
    the calls and callbacks, the text of the ["flush"] events followed by
    what is still buffered grows by exactly the chunks the child's output
    streams delivered, in their order; and every chunk is emitted as one
    ["output"] event. *)
Theorem capture_lossless (maxBufferSize : Z) (events : list Event)
    (s : State) :
  let s' := reacts maxBufferSize events s in
  captured s' = captured s +:+ Js.concat (delivered_texts events)
  /\ outputs (emitted s') = outputs (emitted s) ++ delivered_texts events.
Proof.
  cbv zeta. unfold reacts. revert s.
  induction events as [|e events IH]; intros s.
  - cbn. rewrite AnalyzerFacts.append_empty, app_nil_r. split; reflexivity.
  - cbn [foldl]. destruct (IH (react maxBufferSize s e)) as [Hc Ho].
    rewrite Hc, Ho, captured_react, outputs_react.
    change (e :: events) with ([e] ++ events).
    unfold delivered_texts. rewrite omap_app.
    rewrite concat_app, <- app_assoc, AnalyzerFacts.append_assoc.
    split; [| reflexivity].
    f_equal. f_equal. destruct e; cbn; rewrite ?AnalyzerFacts.append_empty;
      reflexivity.
Qed.

(** *** Flushes *)

Lemma substantial_flushBuffer (s : State) :
  substantial s -> substantial (flushBuffer s).
Proof.
  unfold substantial, flushBuffer. intros Hs.
  destruct (buffer s) as [|c b] eqn:Hb; cbn [Js.truthy]; [exact Hs |].
  cbn. rewrite flushes_app. apply Forall_app. split; [exact Hs |].
  repeat constructor. discriminate.
Qed.

Lemma substantial_emitted (s s' : State) :
  emitted s' = emitted s -> substantial s -> substantial s'.
Proof. unfold substantial. now intros ->. Qed.

Lemma substantial_emit (e : Emitted) (s : State) :
  flushes [e] = [] -> substantial s -> substantial (emit e s).
Proof.
  unfold substantial. intros He Hs. cbn.
  rewrite flushes_app, He, app_nil_r. exact Hs.
Qed.

Lemma substantial_react (maxBufferSize : Z) (s : State) (e : Event) :
  substantial s -> substantial (react maxBufferSize s e).
Proof.
  intros Hs.
  destruct e as [sp|d|text|text| |d|code sg|err|chunk]; cbn [react].
  - eapply substantial_emitted; [apply emitted_start | exact Hs].
  - eapply substantial_emitted; [apply emitted_stop |].
    apply substantial_flushBuffer, Hs.
  - eapply substantial_emitted; [apply emitted_inject | exact Hs].
  - unfold onData. apply substantial_emit; [reflexivity |].
    unfold appendBuffer. destruct (_ <=? _);
      [apply substantial_flushBuffer |]; exact Hs.
  - unfold onInterval. destruct (intervals s);
      [exact Hs | apply substantial_flushBuffer, Hs].
  - eapply substantial_emitted; [apply emitted_onForceKill | exact Hs].
  - unfold onExit. apply substantial_emit; [reflexivity |].
    eapply substantial_emitted; [apply emitted_stopFlushTimer |].
    apply substantial_flushBuffer, Hs.
  - apply substantial_emit; [reflexivity | exact Hs].
  - eapply substantial_emitted; [apply emitted_iter | exact Hs].
Qed.

Lemma reacts_keep (P : State -> Prop) (maxBufferSize : Z) :
  (forall s e, P s -> P (react maxBufferSize s e)) ->
  forall events s, P s -> P (reacts maxBufferSize events s).
Proof.
  intros Hstep events. unfold reacts.
  induction events as [|e events IH]; intros s Hs; [exact Hs |].
  cbn [foldl]. apply IH, Hstep, Hs.
Qed.

(** X7.  No empty flush.  Whatever happens to an interceptor after its
    construction, none of the ["flush"] events it emits carries the empty
    string: the analyzer is never run on nothing. *)
Theorem flush_events_nonempty (maxBufferSize : Z) (events : list Event) :
  Forall (fun b => b <> "")
    (flushes (emitted (reacts maxBufferSize events created))).
Proof.
  apply (reacts_keep substantial maxBufferSize).
  - intros s e. apply substantial_react.
  - constructor.
Qed.

Lemma buffer_stopFlushTimer (s : State) :
  buffer (stopFlushTimer s) = buffer s.
Proof. unfold stopFlushTimer. destruct (flushTimer s); reflexivity. Qed.

Lemma buffer_iter (chunk : string) (n : nat) (s : State) :
  buffer (Nat.iter n (forwardChunk chunk) s) = buffer s.
Proof.
  induction n as [|n IH]; [reflexivity |].
  rewrite Nat.iter_succ. rewrite <- IH. unfold forwardChunk.
  destruct (child _) as [c|]; [| reflexivity].
  destruct (writable (io c)); reflexivity.
Qed.

Lemma below_flushBuffer (maxBufferSize : Z) (s : State) :
  0 < maxBufferSize -> below maxBufferSize (flushBuffer s).
Proof.
  unfold below, flushBuffer. intros Hmax.
  destruct (buffer s) as [|c b] eqn:Hb; cbn [Js.truthy];
    [rewrite Hb |]; cbn; lia.
Qed.

Lemma below_buffer (maxBufferSize : Z) (s s' : State) :
  buffer s' = buffer s -> below maxBufferSize s -> below maxBufferSize s'.
Proof. unfold below. now intros ->. Qed.

Lemma buffer_stop (delivered : bool) (s : State) :
  buffer (stop delivered s) = buffer (flushBuffer s).
Proof.
  unfold stop.
  destruct (child (stopFlushTimer (flushBuffer s))) as [c|];
    [destruct (negb (killed c)) |]; cbn; apply buffer_stopFlushTimer.
Qed.

Lemma below_react (maxBufferSize : Z) (s : State) (e : Event) :
  0 < maxBufferSize ->
  below maxBufferSize s -> below maxBufferSize (react maxBufferSize s e).
Proof.
  intros Hmax Hs.
  destruct e as [sp|d|text|text| |d|code sg|err|chunk]; cbn [react].
  - unfold start. destruct (child s); exact Hs.
  - eapply below_buffer; [apply buffer_stop |].
    apply below_flushBuffer, Hmax.
  - unfold inject. destruct (child s) as [c|]; [| exact Hs].
    destruct (writable (io c)); exact Hs.
  - unfold onData. eapply below_buffer; [reflexivity |].
    unfold appendBuffer.
    destruct (_ <=? _) eqn:Hfull; [apply below_flushBuffer, Hmax |].
    unfold below. cbn in *. lia.
  - unfold onInterval. destruct (intervals s);
      [exact Hs | apply below_flushBuffer, Hmax].
  - unfold onForceKill. destruct (timeouts s) as [|n]; [exact Hs |].
    cbn. destruct (child s) as [c|]; [| exact Hs].
    destruct (negb (killed c)); exact Hs.
  - unfold onExit. eapply below_buffer; [reflexivity |].
    eapply below_buffer; [apply buffer_stopFlushTimer |].
    apply below_flushBuffer, Hmax.
  - exact Hs.
  - eapply below_buffer; [apply buffer_iter | exact Hs].
Qed.

(** X8.  The buffer stays below its limit.  With a positive
    [maxBufferSize], after every call and callback the buffer holds fewer
    than [maxBufferSize] UTF-16 code units: a chunk that fills it is
    flushed in the same callback, however large the chunk. *)
Theorem buffer_below_limit (maxBufferSize : Z) (events : list Event) :
  0 < maxBufferSize ->
  Z.of_nat (length16 (buffer (reacts maxBufferSize events created)))
  < maxBufferSize.
Proof.
  intros Hmax. apply (reacts_keep (below maxBufferSize) maxBufferSize).
  - intros s e. apply below_react, Hmax.
  - unfold below. cbn. exact Hmax.
Qed.

(** A chunk of ten characters against a limit of eight. *)
Lemma buffer_below_limit_witness :
  Z.of_nat
    (length16
       (buffer
          (reacts 8
             [Start {| writable := true; stdin := [] |};
              Data "npm insta"; Data "ll"; Data "0123456789"; Data "ok"]
             created)))
  < 8.
Proof.
  apply (buffer_below_limit 8). lia.
Defined.

(** *** Timers *)

Lemma timed_flushBuffer (s : State) : timed s -> timed (flushBuffer s).
Proof.
  unfold flushBuffer. destruct (Js.truthy (buffer s)); intros H; exact H.
Qed.

Lemma timed_stopFlushTimer (s : State) :
  timed s -> timed (stopFlushTimer s) /\ flushTimer (stopFlushTimer s) = false.
Proof.
  unfold timed, stopFlushTimer. intros [Hn Hc].
  destruct (flushTimer s) eqn:Hf; cbn.
  - rewrite Hn. repeat split; [discriminate].
  - rewrite Hf. repeat split; [exact Hn | discriminate].
Qed.

Lemma timed_forwardChunk (chunk : string) (s : State) :
  timed s -> timed (forwardChunk chunk s).
Proof.
  unfold forwardChunk, timed. intros [Hn Hc].
  destruct (child s) as [c|] eqn:Hch; [| now rewrite Hch].
  destruct (writable (io c)); cbn; [| now rewrite Hch].
  split; [exact Hn | discriminate].
Qed.

Lemma timed_react (maxBufferSize : Z) (s : State) (e : Event) :
  timed s -> timed (react maxBufferSize s e).
Proof.
  intros Hs.
  destruct e as [sp|d|text|text| |d|code sg|err|chunk]; cbn [react].
  - unfold start. destruct (child s) eqn:Hch; [exact Hs |].
    destruct Hs as [Hn Hc]. unfold timed. cbn.
    destruct (flushTimer s); [now destruct Hc |].
    rewrite Hn. split; [reflexivity | discriminate].
  - unfold stop.
    destruct (timed_stopFlushTimer _ (timed_flushBuffer _ Hs)) as [[Hn _] Hf].
    destruct (child (stopFlushTimer (flushBuffer s))) as [c|];
      [destruct (negb (killed c)) |]; split; cbn; rewrite ?Hf in *;
        try exact Hn; discriminate.
  - unfold inject.
    destruct (child s) as [c|] eqn:Hch; [| exact Hs].
    destruct (writable (io c)); [| exact Hs].
    destruct Hs as [Hn Hc]. split; [exact Hn | discriminate].
  - unfold onData, appendBuffer.
    destruct (_ <=? _); [apply (timed_flushBuffer (set_buffer _ s)) |];
      exact Hs.
  - unfold onInterval. destruct (intervals s);
      [exact Hs | apply timed_flushBuffer, Hs].
  - unfold onForceKill.
    destruct (timeouts s) as [|n]; [exact Hs |].
    cbn. destruct (child s) as [c|] eqn:Hch; [| exact Hs].
    destruct (negb (killed c)); [| exact Hs].
    destruct Hs as [Hn Hc]. split; [exact Hn | discriminate].
  - unfold onExit.
    exact (proj1 (timed_stopFlushTimer _ (timed_flushBuffer _ Hs))).
  - exact Hs.
  - unfold onStdin. induction (listeners s) as [|n IH]; [exact Hs |].
    rewrite Nat.iter_succ. apply timed_forwardChunk, IH.
Qed.

(** X9.  No interval timer leaks.  Whatever happens to an interceptor
    after its construction, the only live [setInterval] timer is the one
    held in [flushTimer]; and right after [stop()] or the child's
    ["exit"], no timer is live and the buffer is empty, so no flush can
    follow unless more output arrives. *)
Theorem no_timer_leak (maxBufferSize : Z) (events : list Event) :
  let s := reacts maxBufferSize events created in
  intervals s = (if flushTimer s then 1%nat else 0%nat)
  /\ (forall delivered,
        intervals (stop delivered s) = 0%nat
        /\ buffer (stop delivered s) = "")
  /\ (forall code signal,
        intervals (onExit code signal s) = 0%nat
        /\ buffer (onExit code signal s) = "").
Proof.
  cbv zeta.
  assert (Hs : timed (reacts maxBufferSize events created)).
  { apply (reacts_keep timed maxBufferSize).
    - intros s e. apply timed_react.
    - split; [reflexivity | discriminate]. }
  set (s := reacts maxBufferSize events created) in *.
  assert (Hflushed : buffer (flushBuffer s) = "").
  { unfold flushBuffer. destruct (buffer s) eqn:Hb; cbn; [exact Hb | reflexivity]. }
  split; [exact (proj1 Hs) |].
  split.
  - intros d.
    pose proof (timed_react maxBufferSize s (Stop d) Hs) as [Hn _].
    cbn [react] in Hn. rewrite buffer_stop. split; [| exact Hflushed].
    rewrite Hn. unfold stop.
    destruct (timed_stopFlushTimer _ (timed_flushBuffer _ Hs)) as [_ Hf].
    destruct (child (stopFlushTimer (flushBuffer s))) as [c|];
      [destruct (negb (killed c)) |]; cbn; now rewrite Hf.
  - intros code sg.
    destruct (timed_stopFlushTimer _ (timed_flushBuffer _ Hs)) as [[Hn _] Hf].
    unfold onExit. cbn. rewrite buffer_stopFlushTimer.
    split; [| exact Hflushed]. rewrite Hn, Hf. reflexivity.
Qed.

(** *** Stopping and starting again *)

Lemma child_flushed (s : State) :
  child (stopFlushTimer (flushBuffer s)) = child s
  /\ released (stopFlushTimer (flushBuffer s)) = released s
  /\ timeouts (stopFlushTimer (flushBuffer s)) = timeouts s
  /\ listeners (stopFlushTimer (flushBuffer s)) = listeners s.
Proof.
  unfold stopFlushTimer, flushBuffer.
  destruct (Js.truthy (buffer s)); cbn; destruct (flushTimer s);
    repeat split.
Qed.

Lemma stop_releases (delivered : bool) (c : Spawned) (s : State) :
  child s = Some c -> killed c = false ->
  child (stop delivered s) = None
  /\ released (stop delivered s) = released s ++ [kill "SIGTERM" delivered c]
  /\ timeouts (stop delivered s) = S (timeouts s).
Proof.
  intros Hc Hk. unfold stop.
  destruct (child_flushed s) as (Hc' & Hr & Ht & _).
  rewrite Hc', Hc, Hk. cbn. rewrite Hr, Ht. repeat split.
Qed.

Lemma iter_no_child (chunk : string) (n : nat) (s : State) :
  child s = None -> Nat.iter n (forwardChunk chunk) s = s.
Proof.
  intros Hc. induction n as [|n IH]; [reflexivity |].
  rewrite Nat.iter_succ. rewrite IH. unfold forwardChunk.
  now rewrite Hc.
Qed.

Lemma idle_react (maxBufferSize : Z) (s : State) (e : Event) :
  is_start e = false -> child s = None ->
  child (react maxBufferSize s e) = None
  /\ released (react maxBufferSize s e) = released s.
Proof.
  intros He Hc.
  destruct e as [sp|d|text|text| |d|code sg|err|chunk]; cbn [react];
    try discriminate He.
  - unfold stop. destruct (child_flushed s) as (Hc' & Hr & _).
    rewrite Hc', Hc. cbn. split; [reflexivity | exact Hr].
  - unfold inject. rewrite Hc. split; [exact Hc | reflexivity].
  - unfold onData, appendBuffer, flushBuffer. cbn.
    destruct (_ <=? _); [destruct (Js.truthy _) |]; cbn;
      split; solve [exact Hc | reflexivity].
  - unfold onInterval, flushBuffer.
    destruct (intervals s); [| destruct (Js.truthy _)]; cbn;
      split; solve [exact Hc | reflexivity].
  - unfold onForceKill. destruct (timeouts s) as [|n];
      [split; [exact Hc | reflexivity] |].
    cbn. rewrite Hc. cbn. split; [exact Hc | reflexivity].
  - unfold onExit. cbn. destruct (child_flushed s) as (Hc' & Hr & _).
    rewrite Hc', Hr. split; [exact Hc | reflexivity].
  - split; [exact Hc | reflexivity].
  - unfold onStdin. rewrite iter_no_child by exact Hc.
    split; [exact Hc | reflexivity].
Qed.

Lemma idle_reacts (maxBufferSize : Z) (events : list Event) (s : State) :
  Forall (fun e => is_start e = false) events -> child s = None ->
  child (reacts maxBufferSize events s) = None
  /\ released (reacts maxBufferSize events s) = released s.
Proof.
  intros Hev. revert s. unfold reacts.
  induction Hev as [|e events He _ IH]; intros s Hc;
    [split; [exact Hc | reflexivity] |].
  cbn [foldl]. destruct (idle_react maxBufferSize s e He Hc) as [Hc' Hr].
  destruct (IH _ Hc') as [Hc'' Hr'].
  split; [exact Hc'' | now rewrite Hr', Hr].
Qed.

(** X10.  The force-kill never reaches the child that was stopped.
    [stop()] sends SIGTERM, arms the 5 s timeout and drops its reference
    to the child; whatever happens afterwards short of a new [start()],
    the callback of the timeout finds no child to signal: the stopped
    process has received SIGTERM and nothing more. *)
Theorem force_kill_misses_stopped_child (maxBufferSize : Z)
    (delivered delivered' : bool) (c : Spawned) (events : list Event)
    (s : State) :
  child s = Some c -> killed c = false ->
  Forall (fun e => is_start e = false) events ->
  let s' :=
    onForceKill delivered' (reacts maxBufferSize events (stop delivered s)) in
  child s' = None
  /\ released s' = released s ++ [kill "SIGTERM" delivered c].
Proof.
  intros Hc Hk Hev.
  destruct (stop_releases delivered c s Hc Hk) as (Hnone & Hrel & _).
  destruct (idle_reacts maxBufferSize events _ Hev Hnone) as [Hc' Hr'].
  pose proof (idle_react maxBufferSize _ (ForceKill delivered')
                eq_refl Hc') as [Hc'' Hr''].
  cbn [react] in Hc'', Hr''. cbv zeta.
  split; [exact Hc'' | now rewrite Hr'', Hr', Hrel].
Qed.

Lemma force_kill_misses_stopped_child_witness :
  let started :=
    reacts 8192 [Start {| writable := true; stdin := [] |}; Data "$ "]
      created in
  let s' :=
    onForceKill true
      (reacts 8192 [Data "bye"; Exit None (Some "SIGTERM")]
         (stop true started)) in
  child s' = None
  /\ released s'
     = released started
       ++ [kill "SIGTERM" true
             {| io := {| writable := true; stdin := [] |};
                killed := false; signals := [] |}].
Proof.
  apply (force_kill_misses_stopped_child 8192 true true
           {| io := {| writable := true; stdin := [] |};
              killed := false; signals := [] |}
           [Data "bye"; Exit None (Some "SIGTERM")]).
  - reflexivity.
  - reflexivity.
  - repeat constructor.
Defined.

(** X11.  A child started before the timeout fires is the one that is
    force-killed.  After [stop()] of a running child and a new
    [start()], the callback of the 5 s timeout finds the new child in
    [this.child] and sends it SIGKILL. *)
Theorem restart_is_force_killed (delivered delivered' : bool)
    (c : Spawned) (spawned : ChildProcess) (s : State) :
  child s = Some c -> killed c = false ->
  child (onForceKill delivered' (start spawned (stop delivered s)).2)
  = Some {| io := spawned; killed := delivered'; signals := ["SIGKILL"] |}.
Proof.
  intros Hc Hk.
  destruct (stop_releases delivered c s Hc Hk) as (Hnone & _ & Ht).
  unfold start. rewrite Hnone. cbn [snd].
  unfold onForceKill. cbn. rewrite Ht. cbn. reflexivity.
Qed.

Lemma restart_is_force_killed_witness :
  child
    (onForceKill true
       (start {| writable := true; stdin := [] |}
          (stop true
             (reacts 8192 [Start {| writable := true; stdin := [] |}]
                created))).2)
  = Some {| io := {| writable := true; stdin := [] |};
            killed := true; signals := ["SIGKILL"] |}.
Proof.
  apply (restart_is_force_killed true true
           {| io := {| writable := true; stdin := [] |};
              killed := false; signals := [] |}); reflexivity.
Defined.

Lemma busy_react (maxBufferSize : Z) (s : State) (e : Event) :
  is_stop e = false -> child s <> None ->
  child (react maxBufferSize s e) <> None.
Proof.
  intros He Hc.
  destruct (child s) as [c0|] eqn:E; [clear Hc | now destruct Hc].
  destruct e as [sp|d|text|text| |d|code sg|err|chunk]; cbn [react];
    try discriminate He.
  - unfold start. rewrite E. cbn. now rewrite E.
  - unfold inject. rewrite E.
    destruct (writable (io c0)); cbn; rewrite ?E; discriminate.
  - unfold onData, appendBuffer, flushBuffer. cbn.
    destruct (_ <=? _); [destruct (Js.truthy _) |]; cbn; now rewrite E.
  - unfold onInterval, flushBuffer.
    destruct (intervals s); [| destruct (Js.truthy _)]; cbn; now rewrite E.
  - unfold onForceKill. destruct (timeouts s) as [|n]; [now rewrite E |].
    cbn. rewrite E.
    destruct (negb (killed c0)); cbn; rewrite ?E; discriminate.
  - unfold onExit. cbn. now rewrite (proj1 (child_flushed s)), E.
  - cbn. now rewrite E.
  - unfold onStdin.
    assert (H : exists c, child s = Some c) by eauto. clear E.
    induction (listeners s) as [|n IH].
    + destruct H as [c H]. cbn. now rewrite H.
    + rewrite Nat.iter_succ. unfold forwardChunk at 1.
      destruct (child (Nat.iter n _ s)) as [c|] eqn:Hn; [| now destruct IH].
      destruct (writable (io c)); cbn; rewrite ?Hn; discriminate.
Qed.

(** X12.  Only [stop()] makes an interceptor startable again.  Once a
    child was started, [start()] throws "Interceptor already running" and
    changes nothing, whatever happened in between short of a [stop()];
    in particular after the child's ["exit"]. *)
Theorem start_throws_until_stopped (maxBufferSize : Z)
    (events : list Event) (spawned : ChildProcess) (s : State) :
  child s <> None ->
  Forall (fun e => is_stop e = false) events ->
  let s' := reacts maxBufferSize events s in
  start spawned s' = (Threw already_running, s').
Proof.
  intros Hc Hev. cbv zeta.
  assert (Hbusy : child (reacts maxBufferSize events s) <> None).
  { revert s Hc. unfold reacts.
    induction Hev as [|e events He _ IH]; intros s Hc; [exact Hc |].
    cbn [foldl]. apply IH, busy_react; assumption. }
  unfold start.
  destruct (child (reacts maxBufferSize events s));
    [reflexivity | now destruct Hbusy].
Qed.

Lemma start_throws_until_stopped_witness :
  let s' :=
    reacts 8192 [Data "done"; Exit (Some 0) None]
      (start {| writable := true; stdin := [] |} created).2 in
  start {| writable := true; stdin := [] |} s' = (Threw already_running, s').
Proof.
  apply (start_throws_until_stopped 8192 [Data "done"; Exit (Some 0) None]).
  - discriminate.
  - repeat constructor.
Defined.

(** *** The operator's keystrokes *)

Lemma listening_iter (chunk : string) (n : nat) (s : State) :
  listening s -> listening (Nat.iter n (forwardChunk chunk) s).
Proof.
  intros Hs. induction n as [|n IH]; [exact Hs |].
  rewrite Nat.iter_succ. revert IH. generalize (Nat.iter n (forwardChunk chunk) s).
  intros s' Hs'. unfold listening, forwardChunk in *.
  destruct (child s') as [c|] eqn:Hc; [| now rewrite Hc].
  destruct (writable (io c)); cbn; [exact Hs' | now rewrite Hc].
Qed.

Lemma listening_react (maxBufferSize : Z) (s : State) (e : Event) :
  listening s -> listening (react maxBufferSize s e).
Proof.
  unfold listening. intros Hs.
  destruct e as [sp|d|text|text| |d|code sg|err|chunk]; cbn [react].
  - unfold start. destruct (child s) eqn:Hc; cbn; rewrite ?Hc; lia.
  - unfold stop. destruct (child_flushed s) as (Hc & Hr & _ & Hl).
    rewrite Hc. destruct (child s) as [c|];
      [destruct (negb (killed c)) |]; cbn; rewrite Hl, Hr, ?length_app;
      cbn; lia.
  - unfold inject. destruct (child s) as [c|] eqn:Hc;
      [destruct (writable (io c)) |]; cbn; rewrite ?Hc; lia.
  - unfold onData, appendBuffer, flushBuffer. cbn.
    destruct (_ <=? _); [destruct (Js.truthy _) |]; exact Hs.
  - unfold onInterval, flushBuffer.
    destruct (intervals s); [| destruct (Js.truthy _)]; exact Hs.
  - unfold onForceKill. destruct (timeouts s) as [|n]; [exact Hs |].
    cbn. destruct (child s) as [c|] eqn:Hc;
      [destruct (negb (killed c)) |]; cbn; rewrite ?Hc; lia.
  - unfold onExit. cbn. destruct (child_flushed s) as (Hc & Hr & _ & Hl).
    now rewrite Hc, Hr, Hl.
  - exact Hs.
  - apply listening_iter, Hs.
Qed.

Lemma iter_forwardChunk (chunk : string) (n : nat) (c : Spawned) (s : State) :
  child s = Some c -> writable (io c) = true ->
  child (Nat.iter n (forwardChunk chunk) s)
  = Some {| io := {| writable := true;
                     stdin := stdin (io c) ++ replicate n chunk |};
            killed := killed c; signals := signals c |}.
Proof.
  intros Hc Hw. induction n as [|n IH].
  - cbn. rewrite app_nil_r, Hc. destruct c as [[w l] k sg]. cbn in *.
    now rewrite Hw.
  - rewrite Nat.iter_succ. unfold forwardChunk at 1. rewrite IH. cbn.
    rewrite <- app_assoc.
    change (chunk :: replicate n chunk) with (replicate (S n) chunk).
    rewrite <- replicate_cons_app. reflexivity.
Qed.

(** X13.  A keystroke is written once for every child ever started.
    Each [start()] adds a ["data"] listener to [process.stdin] and
    nothing removes one, so on an interceptor whose current child has a
    writable stdin, a chunk typed by the operator is written to that child
    once, and once more for every child that was stopped before. *)
Theorem keystroke_once_per_child (maxBufferSize : Z) (events : list Event)
    (chunk : string) (c : Spawned) :
  let s := reacts maxBufferSize events created in
  child s = Some c -> writable (io c) = true ->
  child (onStdin chunk s)
  = Some {| io := {| writable := true;
                     stdin := stdin (io c)
                              ++ replicate (S (length (released s))) chunk |};
            killed := killed c; signals := signals c |}.
Proof.
  cbv zeta. intros Hc Hw.
  assert (Hl : listening (reacts maxBufferSize events created)).
  { apply (reacts_keep listening maxBufferSize).
    - intros s e. apply listening_react.
    - reflexivity. }
  unfold listening in Hl. rewrite Hc in Hl.
  unfold onStdin. rewrite (iter_forwardChunk chunk _ c) by assumption.
  rewrite Hl. repeat f_equal. lia.
Qed.

(** Started, stopped and started again: the chunk arrives twice. *)
Lemma keystroke_once_per_child_witness :
  child
    (onStdin "y"
       (reacts 8192
          [Start {| writable := true; stdin := [] |}; Stop true;
           Start {| writable := true; stdin := [] |}]
          created))
  = Some {| io := {| writable := true; stdin := ["y"; "y"] |};
            killed := false; signals := [] |}.
Proof.
  apply (keystroke_once_per_child 8192
           [Start {| writable := true; stdin := [] |}; Stop true;
            Start {| writable := true; stdin := [] |}]
           "y"
           {| io := {| writable := true; stdin := [] |};
              killed := false; signals := [] |}); reflexivity.
Defined.

(** [inject] on the instance is [inject] as the injector sees it. *)
Lemma inject_stdin_side (text : string) (s : State) :
  Interceptor.inject text (stdin_side s)
  = ((inject text s).1, stdin_side (inject text s).2).
Proof.
  unfold inject, Interceptor.inject, stdin_side, throw.
  destruct (child s) as [c|] eqn:Hc; cbn; [| now rewrite Hc].
  destruct (writable (io c)); cbn; [reflexivity | now rewrite Hc].
Qed.

End CaptureFacts.

(** ** The regex analyzer *)

Module DetectionFacts.
Import Analyzer Detection.

Lemma startsWith_skip (p s : string) :
  Js.startsWith s p = true -> s = p +:+ skip (String.length p) s.
Proof.
  revert s. induction p as [|a p IH]; intros s; cbn.
  - intros _. destruct s; reflexivity.
  - destruct s as [|b s]; [discriminate |].
    intros H. apply andb_prop in H as [Hab Hrest].
    apply bool_decide_eq_true in Hab. subst b.
    rewrite AnalyzerFacts.append_cons. f_equal. apply IH, Hrest.
Qed.

Lemma startsWith_more (a b w : string) :
  Js.startsWith a w = true -> Js.startsWith (a +:+ b) w = true.
Proof.
  revert a. induction w as [|c w IH]; intros a; cbn; [reflexivity |].
  destruct a as [|d a]; [discriminate |].
  rewrite AnalyzerFacts.append_cons.
  intros H. apply andb_prop in H as [Hcd Hrest].
  rewrite Hcd. cbn. apply IH, Hrest.
Qed.

Lemma urlRun_prefix (s : string) : exists after, s = urlRun s +:+ after.
Proof.
  induction s as [|c s [after IH]]; [exists ""; reflexivity |].
  cbn [urlRun]. destruct (url_char (String c s)).
  - exists after. rewrite AnalyzerFacts.append_cons. f_equal. exact IH.
  - exists (String c s). reflexivity.
Qed.

(** A character of the class stays one when the text after it is cut. *)
Lemma url_char_cut (c : ascii) (a b : string) :
  url_char (String c (a +:+ b)) = true -> url_char (String c a) = true.
Proof.
  unfold url_char, at_space. intros H.
  apply andb_prop in H as [Hspace Hstop]. rewrite Hstop, andb_true_r.
  apply negb_true_iff in Hspace. apply negb_true_iff.
  apply orb_false_iff in Hspace as [Hc Hwide].
  rewrite Hc. cbn [orb].
  apply not_true_is_false. intros Hex.
  apply existsb_exists in Hex as (w & Hin & Hw).
  assert (Hex' : existsb (fun w => Js.startsWith (String c (a +:+ b)) w)
                   wide_spaces = true).
  { apply existsb_exists. exists w. split; [exact Hin |].
    rewrite <- AnalyzerFacts.append_cons. apply startsWith_more, Hw. }
  congruence.
Qed.

Lemma urlRun_fixpoint (s : string) : urlRun (urlRun s) = urlRun s.
Proof.
  induction s as [|c s IH]; [reflexivity |].
  cbn [urlRun]. destruct (url_char (String c s)) eqn:Hc; [| reflexivity].
  cbn [urlRun]. destruct (urlRun_prefix s) as [after Hs].
  rewrite Hs in Hc. apply url_char_cut in Hc. rewrite Hc, IH. reflexivity.
Qed.

(** The bytes a URL can hold: no ASCII white space and none of the six
    delimiters. *)
Lemma urlRun_bytes (s : string) :
  every (fun c => negb (Js.is_space c) && negb (url_stop c)) (urlRun s)
  = true.
Proof.
  induction s as [|c s IH]; [reflexivity |].
  cbn [urlRun]. destruct (url_char (String c s)) eqn:Hc; [| reflexivity].
  cbn [every]. rewrite IH, andb_true_r.
  unfold url_char, at_space in Hc.
  apply andb_prop in Hc as [Hspace Hstop]. rewrite Hstop, andb_true_r.
  apply negb_true_iff in Hspace. apply orb_false_iff in Hspace as [-> _].
  reflexivity.
Qed.

Lemma schemeAt_spec (s scheme rest : string) :
  schemeAt s = Some (scheme, rest) ->
  (scheme = "https://" \/ scheme = "http://") /\ s = scheme +:+ rest.
Proof.
  unfold schemeAt.
  destruct (Js.startsWith s "https://") eqn:Hs;
    [| destruct (Js.startsWith s "http://") eqn:Hp];
    intros [= <- <-].
  - split; [left; reflexivity | apply (startsWith_skip "https://"), Hs].
  - split; [right; reflexivity | apply (startsWith_skip "http://"), Hp].
Qed.

Lemma urlAt_spec (s u : string) :
  urlAt s = Some u ->
  exists scheme rest,
    (scheme = "https://" \/ scheme = "http://")
    /\ s = scheme +:+ rest /\ urlRun rest <> ""
    /\ u = scheme +:+ urlRun rest.
Proof.
  unfold urlAt. destruct (schemeAt s) as [[scheme rest]|] eqn:Hs;
    [| discriminate].
  destruct (schemeAt_spec _ _ _ Hs) as [Hscheme ->].
  destruct (urlRun rest) as [|c found] eqn:Hrun; [discriminate |].
  intros [= <-]. exists scheme, rest. rewrite Hrun.
  repeat split; [exact Hscheme | discriminate].
Qed.

Lemma extractUrl_spec (text u : string) :
  extractUrl text = Some u ->
  exists before s, text = before +:+ s /\ urlAt s = Some u.
Proof.
  induction text as [|c text IH]; cbn [extractUrl].
  - destruct (urlAt "") eqn:H0; [| discriminate].
    intros [= <-]. exists "", "". split; [reflexivity | exact H0].
  - destruct (urlAt (String c text)) eqn:Hc.
    + intros [= <-]. exists "", (String c text). split; [reflexivity | exact Hc].
    + intros H. destruct (IH H) as (before & s & -> & Hs).
      exists (String c before), s. split; [reflexivity | exact Hs].
Qed.

Lemma urlAt_fixpoint (s u : string) : urlAt s = Some u -> urlAt u = Some u.
Proof.
  intros Hs.
  destruct (urlAt_spec _ _ Hs) as (scheme & rest & Hscheme & -> & Hne & ->).
  unfold urlAt.
  assert (Hat : schemeAt (scheme +:+ urlRun rest)
                = Some (scheme, urlRun rest)).
  { destruct Hscheme as [-> | ->]; reflexivity. }
  rewrite Hat, urlRun_fixpoint.
  destruct (urlRun rest); [now destruct Hne | reflexivity].
Qed.

(** X14.  What [extractUrl] returns is a URL of the text.  The result is
    a piece of the text made of the scheme [http://] or [https://] and at
    least one more character; it holds no white space and none of the
    delimiters double quote, quote, backquote, closing parenthesis,
    closing bracket and greater-than; and it is read back as itself:
    extracting from the result gives the result again. *)
Theorem extractUrl_shape (text u : string) :
  extractUrl text = Some u ->
  (exists scheme found before after,
     u = scheme +:+ found
     /\ (scheme = "https://" \/ scheme = "http://")
     /\ found <> ""
     /\ every (fun c => negb (Js.is_space c) && negb (url_stop c)) found
        = true
     /\ text = before +:+ u +:+ after)
  /\ extractUrl u = Some u.
Proof.
  intros Hu. destruct (extractUrl_spec _ _ Hu) as (before & s & -> & Hs).
  split.
  - destruct (urlAt_spec _ _ Hs) as (scheme & rest & Hscheme & -> & Hne & ->).
    destruct (urlRun_prefix rest) as [after Hafter].
    exists scheme, (urlRun rest), before, after.
    repeat split; try assumption; [apply urlRun_bytes |].
    rewrite AnalyzerFacts.append_assoc, <- Hafter. reflexivity.
  - apply urlAt_fixpoint in Hs.
    destruct u as [|c u]; cbn [extractUrl]; now rewrite Hs.
Qed.

Lemma extractUrl_shape_witness :
  (exists scheme found before after,
     "https://railway.app/dashboard" = scheme +:+ found
     /\ (scheme = "https://" \/ scheme = "http://")
     /\ found <> ""
     /\ every (fun c => negb (Js.is_space c) && negb (url_stop c)) found
        = true
     /\ "(see https://railway.app/dashboard) for the DB URL"
        = before +:+ "https://railway.app/dashboard" +:+ after)
  /\ extractUrl "https://railway.app/dashboard"
     = Some "https://railway.app/dashboard".
Proof.
  apply (extractUrl_shape
           "(see https://railway.app/dashboard) for the DB URL").
  vm_compute. reflexivity.
Defined.

(** *** Suggested actions *)

Ltac only_reads :=
  repeat (constructor; [first [left; reflexivity | right; reflexivity] |]);
  constructor.

Lemma extractUrl_truthy (text u : string) :
  extractUrl text = Some u -> Js.truthy u = true.
Proof.
  intros Hu. destruct (extractUrl_spec _ _ Hu) as (before & s & _ & Hs).
  destruct (urlAt_spec _ _ Hs) as (scheme & rest & [-> | ->] & _ & _ & ->);
    reflexivity.
Qed.

Lemma buildSuggestedActions_some (kind : ExternalAccessKind) (u : string) :
  Js.truthy u = true ->
  exists rest,
    buildSuggestedActions kind (Some u) = Some (Navigate u :: rest)
    /\ Forall reads_page rest.
Proof.
  intros Hu. unfold buildSuggestedActions. rewrite Hu. cbn.
  destruct kind; eexists; (split; [reflexivity |]); only_reads.
Qed.

(** X15.  Suggested actions exist exactly for a request with a URL, and
    they only read.  [buildSuggestedActions] returns nothing when there is
    no URL or an empty one; otherwise the list starts with the navigation
    to that URL and goes on with at most two actions, each a screenshot
    or a text extraction of the whole page: never a click, typing, a
    wait or a second navigation. *)
Theorem suggested_actions_shape (kind : ExternalAccessKind)
    (url : option string) :
  match buildSuggestedActions kind url with
  | None => url = None \/ url = Some ""
  | Some actions =>
      exists u rest,
        url = Some u /\ u <> "" /\ actions = Navigate u :: rest
        /\ Forall reads_page rest /\ (length rest <= 2)%nat
  end.
Proof.
  unfold buildSuggestedActions.
  destruct url as [[|c u]|]; cbn; [right; reflexivity | | left; reflexivity].
  exists (String c u).
  destruct kind; eexists; (split; [reflexivity |]);
    (split; [discriminate |]); (split; [reflexivity |]);
    (split; [only_reads | cbn; lia]).
Qed.

Section WithHost.
Context `{Host}.

Lemma analyze_request (patterns : list string) (text : string)
    (q : AnalyzedRequest) :
  request (analyze patterns text) = Some q ->
  a_rawOutput q = text
  /\ (exists source, a_url q = extractUrl source)
  /\ a_suggestedActions q = buildSuggestedActions (a_kind q) (a_url q)
  /\ detected (analyze patterns text) = true
  /\ confidence (analyze patterns text) = (8 # 10)%Q.
Proof.
  unfold analyze.
  destruct (firstMatch _ _) as [[[whole group] kind]|]; [| discriminate].
  cbn. intros [= <-]. cbn. repeat split. eexists. reflexivity.
Qed.

Lemma analyze_detected (patterns : list string) (text : string) :
  detected (analyze patterns text) = true ->
  exists q, request (analyze patterns text) = Some q.
Proof.
  unfold analyze.
  destruct (firstMatch _ _) as [[[whole group] kind]|]; [| discriminate].
  intros _. eexists. reflexivity.
Qed.

(** X16.  A detected URL is what the executor visits, and it only reads
    there.  For a request built from a detection of the regex analyzer
    that found a URL, whatever instructions the operator added to the
    approval, the action list the browser executor resolves starts with
    the navigation to that URL, and every action after it is a
    screenshot or a text extraction. *)
Theorem detected_url_is_visited (patterns : list string) (text u : string)
    (q : AnalyzedRequest) (r : ExternalAccessRequest)
    (authorization : ConductorAuthorization) :
  request (analyze patterns text) = Some q ->
  a_url q = Some u ->
  built_from q r ->
  exists rest,
    BrowserExecutor.resolveActions r authorization = Navigate u :: rest
    /\ Forall reads_page rest.
Proof.
  intros Hq Hu [Hurl Hsug].
  destruct (analyze_request _ _ _ Hq)
    as (_ & [source Hextract] & Hactions & _).
  rewrite Hu in Hextract. symmetry in Hextract.
  apply extractUrl_truthy in Hextract.
  destruct (buildSuggestedActions_some (a_kind q) u Hextract)
    as (rest & Hbuilt & Hrest).
  rewrite Hu, Hbuilt in Hactions. rewrite Hactions in Hsug.
  unfold BrowserExecutor.resolveActions. rewrite Hsug. cbn.
  destruct (instructions authorization) as [given|];
    [| exists rest; split; [reflexivity | exact Hrest]].
  destruct (negb (Js.truthy given));
    [exists rest; split; [reflexivity | exact Hrest] |].
  destruct (_ || _); [eexists; split; [reflexivity | only_reads] |].
  destruct (_ || _); [eexists; split; [reflexivity | only_reads] |].
  exists rest. split; [reflexivity | exact Hrest].
Qed.

(** X17.  Colours do not change what is detected.  Two outputs that
    [stripAnsi] reduces to the same text get the same analysis from the
    regex analyzer, the [rawOutput] it hands back aside. *)
Theorem detection_ignores_colour (patterns : list string)
    (text text' : string) :
  stripAnsi text = stripAnsi text' ->
  analyze patterns text' = with_rawOutput text' (analyze patterns text).
Proof.
  intros Hsame. unfold analyze. rewrite Hsame.
  destruct (firstMatch _ _) as [[found kind]|]; reflexivity.
Qed.

(** *** Against the orchestrator's threshold *)

Lemma above_confidence (t : Q) :
  (8 # 10 < t)%Q -> Qle_bool t (8 # 10) = false.
Proof.
  intros Hlt. apply not_true_is_false. intros Hle.
  apply Qle_bool_iff in Hle. exact (Qlt_not_le _ _ Hlt Hle).
Qed.

Lemma no_auth_no_rule `{RegExp} (config : ConductorConfig)
    (r : ExternalAccessRequest) :
  auth config = None -> Conductor.checkAutoRules config r = None.
Proof.
  intros Hauth. unfold Conductor.checkAutoRules. rewrite Hauth.
  destruct (url r) as [u|]; [| reflexivity].
  destruct (negb (Js.truthy u)); reflexivity.
Qed.

(** X18.  A threshold above 0.8 mutes the regex analyzer.  The regex
    analyzer reports every detection with confidence 0.8, so under a
    configured [confidenceThreshold] greater than 0.8 the orchestrator
    drops whatever it finds: no request, no event, no write, the state is
    as it was. *)
Theorem threshold_above_regex_confidence `{RegExp}
    (config : ConductorConfig) (threshold : Q) (now : Z) (newId : string)
    (patterns : list string) (text : string) (s : Conductor.Session) :
  analyzer config ≫= confidenceThreshold = Some threshold ->
  (8 # 10 < threshold)%Q ->
  Conductor.handleTerminalOutput_analyzed config now newId
    (Returned (analyze patterns text)) s
  = (Returned None, s).
Proof.
  intros Ht Hlt. unfold Conductor.handleTerminalOutput_analyzed.
  destruct (analyzer config) as [[given]|]; cbn in Ht; [| discriminate].
  subst given. cbn [mbind option_bind confidenceThreshold default].
  unfold analyze.
  destruct (firstMatch _ _) as [[found kind]|]; cbn; [| reflexivity].
  rewrite above_confidence by exact Hlt. reflexivity.
Qed.

(** X19.  Under the default threshold every regex detection reaches the
    operator.  With no [confidenceThreshold] and no auth section
    configured, a detection of the regex analyzer becomes a pending
    request under the new id, carrying the raw output and expiring after
    120 s, and is handed to the forwarder; nothing is written to the
    child and the executor is not called. *)
Theorem regex_detection_forwarded_by_default `{RegExp}
    (config : ConductorConfig) (now : Z) (newId : string)
    (patterns : list string) (text : string) (s : Conductor.Session) :
  detected (analyze patterns text) = true ->
  analyzer config ≫= confidenceThreshold = None ->
  auth config = None ->
  let out :=
    Conductor.handleTerminalOutput_analyzed config now newId
      (Returned (analyze patterns text)) s in
  exists r,
    out.1 = Returned (Some (Conductor.AwaitForward r))
    /\ id r = newId /\ rawOutput r = text
    /\ expiresAtMs r = now + 120000
    /\ Conductor.pending out.2 = <[newId := r]> (Conductor.pending s)
    /\ Conductor.forwarded out.2 = Conductor.forwarded s ++ [r]
    /\ Conductor.interceptor out.2 = Conductor.interceptor s
    /\ Conductor.executed out.2 = Conductor.executed s.
Proof.
  intros Hd Ht Hauth. cbv zeta.
  destruct (analyze_detected _ _ Hd) as [q Hq].
  destruct (analyze_request _ _ _ Hq) as (Hraw & _ & _ & _ & Hc).
  unfold Conductor.handleTerminalOutput_analyzed.
  assert (Hdefault :
    default (7 # 10)%Q (a ← analyzer config; confidenceThreshold a)
    = (7 # 10)%Q).
  { destruct (analyzer config) as [[given]|]; cbn in Ht |- *;
      [now subst given | reflexivity]. }
  rewrite Hdefault, Hq, Hd, Hc. clear Hdefault.
  change (negb true || negb (Qle_bool (7 # 10) (8 # 10))) with false.
  cbv iota. rewrite no_auth_no_rule by exact Hauth. rewrite Hauth.
  unfold try_catch, bind, modify, Conductor.emit, Conductor.audit, ret.
  cbn -[insert]. destruct (Conductor.auditStream s); cbn -[insert];
    eexists; repeat split; exact Hraw.
Qed.

End WithHost.

Lemma threshold_above_regex_confidence_witness :
  Conductor.handleTerminalOutput_analyzed (H := AsciiRegExp.engine)
    {| analyzer := Some {| confidenceThreshold := Some (9 # 10)%Q |};
       auth := None; browser := None |}
    2000 "de305d54-75b4-431b-adb2-eb6b9e546014"
    (Returned
       (analyze (H := Literal.host) ["deploy hook"]
          "the deploy hook is at https://x.dev/hooks"))
    (Samples.awaiting Samples.vercel)
  = (Returned None, Samples.awaiting Samples.vercel).
Proof.
  apply (threshold_above_regex_confidence (H := Literal.host)
           (H0 := AsciiRegExp.engine) _ (9 # 10)%Q).
  - reflexivity.
  - reflexivity.
Defined.

Lemma regex_detection_forwarded_by_default_witness :
  let out :=
    Conductor.handleTerminalOutput_analyzed (H := AsciiRegExp.engine)
      Samples.noConfig 2000 "de305d54-75b4-431b-adb2-eb6b9e546014"
      (Returned
         (analyze (H := Literal.host) ["deploy hook"]
            "the deploy hook is at https://x.dev/hooks"))
      (Samples.awaiting Samples.vercel) in
  exists r,
    out.1 = Returned (Some (Conductor.AwaitForward r))
    /\ id r = "de305d54-75b4-431b-adb2-eb6b9e546014"
    /\ rawOutput r = "the deploy hook is at https://x.dev/hooks"
    /\ expiresAtMs r = 2000 + 120000
    /\ Conductor.pending out.2
       = <["de305d54-75b4-431b-adb2-eb6b9e546014" := r]>
           (Conductor.pending (Samples.awaiting Samples.vercel))
    /\ Conductor.forwarded out.2
       = Conductor.forwarded (Samples.awaiting Samples.vercel) ++ [r]
    /\ Conductor.interceptor out.2
       = Conductor.interceptor (Samples.awaiting Samples.vercel)
    /\ Conductor.executed out.2
       = Conductor.executed (Samples.awaiting Samples.vercel).
Proof.
  apply (regex_detection_forwarded_by_default (H := Literal.host)
           (H0 := AsciiRegExp.engine) Samples.noConfig); reflexivity.
Defined.

Lemma detected_url_is_visited_witness :
  exists rest,
    BrowserExecutor.resolveActions
      {| id := "de305d54-75b4-431b-adb2-eb6b9e546014";
         kind := UnknownKind;
         summary := "External access request: https://x.dev/hooks";
         rawOutput := "the deploy hook is at https://x.dev/hooks";
         url := Some "https://x.dev/hooks";
         service := None;
         dataNeeded := None;
         suggestedActions :=
           Some [Navigate "https://x.dev/hooks"; Screenshot None];
         createdAtMs := 1000;
         expiresAtMs := 121000;
         sessionKey := None |}
      {| requestId := "de305d54-75b4-431b-adb2-eb6b9e546014";
         decision := ApproveWithInstructions;
         instructions := Some "only fetch the hook id";
         resolvedBy := Some "whatsapp:+15550100";
         resolvedAtMs := 5000 |}
    = Navigate "https://x.dev/hooks" :: rest
    /\ Forall reads_page rest.
Proof.
  apply (detected_url_is_visited (H := Literal.host) ["deploy hook"]
           "the deploy hook is at https://x.dev/hooks"
           "https://x.dev/hooks"
           {| a_kind := UnknownKind;
              a_summary := "External access request: https://x.dev/hooks";
              a_rawOutput := "the deploy hook is at https://x.dev/hooks";
              a_url := Some "https://x.dev/hooks";
              a_service := None;
              a_dataNeeded := None;
              a_suggestedActions :=
                Some [Navigate "https://x.dev/hooks"; Screenshot None] |}).
  - vm_compute. reflexivity.
  - reflexivity.
  - split; reflexivity.
Defined.

Lemma detection_ignores_colour_witness :
  analyze (H := Literal.host) ["deploy hook"]
    "the deploy hook is at https://x.dev/hooks"
  = with_rawOutput "the deploy hook is at https://x.dev/hooks"
      (analyze (H := Literal.host) ["deploy hook"]
         (String Js.ESC "[1mthe deploy hook" +:+ String Js.ESC "[0m" +:+
          " is at https://x.dev/hooks")).
Proof.
  apply (detection_ignores_colour (H := Literal.host) ["deploy hook"]
           (String Js.ESC "[1mthe deploy hook" +:+ String Js.ESC "[0m" +:+
            " is at https://x.dev/hooks")
           "the deploy hook is at https://x.dev/hooks").
  vm_compute. reflexivity.
Defined.

End DetectionFacts.

(** ** Replies and timeouts *)

Module ForwarderLoopFacts.
Import Forwarder ForwarderLoop.

Lemma resolves_approves (now : Z) (msg : InboundMessage) (text : string)
    (size : nat) (i : string) (a : ConductorAuthorization) :
  isDenial text = false ->
  resolves now msg text size i = Some a ->
  decision a <> Deny /\ requestId a = i.
Proof.
  unfold resolves. intros Hno. rewrite Hno, orb_false_r. cbn [negb].
  rewrite andb_true_r.
  destruct (matchesId text i || (size =? 1)%nat && isApproval text) eqn:Hc;
    [| discriminate].
  intros [= <-]. cbn. split; [| reflexivity].
  assert (Happroved : isApproval text || matchesId text i = true).
  { destruct (matchesId text i), (isApproval text); try reflexivity.
    cbn in Hc. now rewrite andb_false_r in Hc. }
  rewrite Happroved. destruct (hasInstructions text); discriminate.
Qed.

Lemma firstResolved_key (now : Z) (msg : InboundMessage) (text : string)
    (size : nat) (entries : list (string * PendingRequest))
    (entry : PendingRequest) (a : ConductorAuthorization) :
  firstResolved now msg text size entries = Some (entry, a) ->
  (requestId a, entry) ∈ entries
  /\ resolves now msg text size (requestId a) = Some a.
Proof.
  induction entries as [|[i e] rest IH]; cbn; [discriminate |].
  destruct (resolves now msg text size i) as [a'|] eqn:Hr.
  - intros [= <- <-].
    assert (Hid : requestId a' = i).
    { unfold resolves in Hr. destruct (_ || _); [| discriminate].
      injection Hr as <-. reflexivity. }
    rewrite Hid. split; [apply list_elem_of_here | exact Hr].
  - intros H. destruct (IH H) as [Hin Hres].
    split; [apply list_elem_of_further, Hin | exact Hres].
Qed.

(** X20.  Only the words of a denial deny.  When the reply, trimmed and
    in lower case, is not "no", "deny" or "n" and does not start with
    "no ", whatever it resolves it approves: a reply that names the
    request id approves it even when it reads "deny <id>". *)
Theorem only_denial_words_deny (now : Z) (msg : InboundMessage) (s : State) :
  isDenial (Js.toLowerCase (Js.trim (text msg))) = false ->
  delivered (onInboundMessage now msg s) = delivered s
  \/ exists a,
       delivered (onInboundMessage now msg s) = delivered s ++ [a]
       /\ decision a <> Deny.
Proof.
  intros Hno. unfold onInboundMessage.
  destruct (firstResolved _ _ _ _ _) as [[entry a]|] eqn:Hf;
    [| left; reflexivity].
  right. exists a. split; [reflexivity |].
  apply firstResolved_key in Hf as [_ Hr].
  exact (proj1 (resolves_approves _ _ _ _ _ _ Hno Hr)).
Qed.

Lemma only_denial_words_deny_witness :
  delivered
    (onInboundMessage 5000
       {| m_channel := "whatsapp"; from := "+15550100";
          text := "deny 7c9e6679" |}
       Samples.oneForwarded)
  = delivered Samples.oneForwarded
  \/ exists a,
       delivered
         (onInboundMessage 5000
            {| m_channel := "whatsapp"; from := "+15550100";
               text := "deny 7c9e6679" |}
            Samples.oneForwarded)
       = delivered Samples.oneForwarded ++ [a]
       /\ decision a <> Deny.
Proof.
  apply (only_denial_words_deny 5000
           {| m_channel := "whatsapp"; from := "+15550100";
              text := "deny 7c9e6679" |}
           Samples.oneForwarded).
  reflexivity.
Defined.

(** "deny" followed by the head of the request id approves the request. *)
Example deny_with_id_approves :
  delivered
    (onInboundMessage 5000
       {| m_channel := "whatsapp"; from := "+15550100";
          text := "deny 7c9e6679" |}
       Samples.oneForwarded)
  = [{| requestId := id Samples.vercel; decision := Approve;
        instructions := None; resolvedBy := Some "whatsapp:+15550100";
        resolvedAtMs := 5000 |}].
Proof. vm_compute. reflexivity. Qed.

Lemma firstResolved_none (now : Z) (msg : InboundMessage) (text : string)
    (size : nat) (entries : list (string * PendingRequest)) :
  size <> 1%nat ->
  Forall (fun e => matchesId text e.1 = false) entries ->
  firstResolved now msg text size entries = None.
Proof.
  intros Hsize Hids. induction Hids as [|[i e] rest Hi _ IH]; [reflexivity |].
  cbn in *. unfold resolves. rewrite Hi.
  apply Nat.eqb_neq in Hsize. rewrite Hsize. cbn. exact IH.
Qed.

(** X21.  A reply without an id is ignored while several requests wait.
    With two or more requests pending, a message whose text holds the
    first eight characters of none of their ids resolves nothing, be it
    "yes" or "no": the forwarder's state is unchanged and the timeouts
    keep running. *)
Theorem bare_reply_is_ambiguous (now : Z) (msg : InboundMessage) (s : State) :
  (2 <= length (pending s))%nat ->
  Forall (fun e => matchesId (Js.toLowerCase (Js.trim (text msg))) e.1 = false)
    (pending s) ->
  onInboundMessage now msg s = s.
Proof.
  intros Hsize Hids. unfold onInboundMessage.
  rewrite firstResolved_none; [reflexivity | lia | exact Hids].
Qed.

Lemma bare_reply_is_ambiguous_witness :
  let s :=
    requestAuthorization_complete Samples.oneTarget Samples.railway
      Samples.oneForwarded in
  onInboundMessage 5000
    {| m_channel := "whatsapp"; from := "+15550100"; text := "YES" |} s
  = s.
Proof.
  apply (bare_reply_is_ambiguous 5000
           {| m_channel := "whatsapp"; from := "+15550100"; text := "YES" |}).
  - vm_compute. lia.
  - vm_compute. repeat constructor.
Defined.

(** *** One authorization for one request *)

Lemma tally_app {A : Type} (p : A -> bool) (l k : list A) :
  tally p (l ++ k) = (tally p l + tally p k)%nat.
Proof.
  induction l as [|x l IH]; cbn [tally app]; [reflexivity |].
  rewrite IH. apply Nat.add_assoc.
Qed.

Lemma tally_delete {A : Type} (p : A -> bool) (l : list A) (n : nat) (x : A) :
  l !! n = Some x ->
  tally p l = (bit (p x) + tally p (delete n l))%nat.
Proof.
  revert n. induction l as [|y l IH]; intros [|n] Hn; simpl in Hn;
    try discriminate Hn.
  - injection Hn as ->. reflexivity.
  - change (delete (S n) (y :: l)) with (y :: delete n l).
    cbn [tally]. rewrite (IH n Hn). lia.
Qed.

Lemma eqb_true (a b : string) : Js.eqb a b = true <-> a = b.
Proof. unfold Js.eqb. apply bool_decide_eq_true. Qed.

Lemma eqb_false (a b : string) : Js.eqb a b = false <-> a <> b.
Proof. unfold Js.eqb. apply bool_decide_eq_false. Qed.

Lemma eqb_same (a : string) : Js.eqb a a = true.
Proof. now apply eqb_true. Qed.

Lemma has_delete_same (k : string) (m : list (string * PendingRequest)) :
  map_has k (map_delete k m) = false.
Proof.
  unfold map_has, map_delete. induction m as [|[j e] m IH]; [reflexivity |].
  rewrite filter_cons. cbn [fst].
  destruct (decide (j <> k)) as [Hne | Heq]; [| exact IH].
  cbn [existsb fst]. rewrite IH, orb_false_r. apply eqb_false, Hne.
Qed.

Lemma has_delete_other (k j : string) (m : list (string * PendingRequest)) :
  k <> j -> map_has k (map_delete j m) = map_has k m.
Proof.
  intros Hkj. unfold map_has, map_delete.
  induction m as [|[j' e] m IH]; [reflexivity |].
  rewrite filter_cons. cbn [fst existsb].
  destruct (decide (j' <> j)) as [Hne | Heq].
  - cbn [existsb fst]. now rewrite IH.
  - rewrite IH. apply dec_stable in Heq. subst j'.
    assert (Hjk : Js.eqb j k = false) by (apply eqb_false; congruence).
    now rewrite Hjk.
Qed.

Lemma has_set_same (k : string) (v : PendingRequest)
    (m : list (string * PendingRequest)) :
  map_has k (map_set k v m) = true.
Proof.
  unfold map_has. induction m as [|[j e] m IH]; cbn [map_set existsb fst].
  - now rewrite eqb_same.
  - destruct (Js.eqb j k) eqn:Hj; cbn [existsb fst].
    + now rewrite eqb_same.
    + rewrite Hj. exact IH.
Qed.

Lemma has_set_other (k j : string) (v : PendingRequest)
    (m : list (string * PendingRequest)) :
  k <> j -> map_has k (map_set j v m) = map_has k m.
Proof.
  intros Hkj.
  assert (Hjk : Js.eqb j k = false) by (apply eqb_false; congruence).
  unfold map_has. induction m as [|[j' e] m IH]; cbn [map_set existsb fst].
  - now rewrite Hjk.
  - destruct (Js.eqb j' j) eqn:Hj; cbn [existsb fst].
    + apply eqb_true in Hj. subst j'. reflexivity.
    + now rewrite IH.
Qed.

Lemma elem_has (k : string) (e : PendingRequest)
    (m : list (string * PendingRequest)) :
  (k, e) ∈ m -> map_has k m = true.
Proof.
  intros Hin. unfold map_has. apply existsb_exists.
  exists (k, e). split; [apply list_elem_of_In, Hin | apply eqb_same].
Qed.

(** Delivering an authorization for [j] takes [j] out of the pending
    map: for every id, what was delivered and what is still pending
    together do not grow. *)
Lemma deliver_balance (i j : string) (a : ConductorAuthorization)
    (m : list (string * PendingRequest))
    (before : list ConductorAuthorization) :
  requestId a = j -> map_has j m = true ->
  (tally (fun a => Js.eqb (requestId a) i) (before ++ [a])
   + bit (map_has i (map_delete j m))
   = tally (fun a => Js.eqb (requestId a) i) before
     + bit (map_has i m))%nat.
Proof.
  intros Hid Hhas. rewrite tally_app. cbn [tally]. rewrite Hid.
  destruct (decide (i = j)) as [-> | Hne].
  - rewrite has_delete_same, Hhas, eqb_same. cbn [bit]. lia.
  - rewrite has_delete_other by exact Hne.
    assert (Hji : Js.eqb j i = false) by (apply eqb_false; congruence).
    rewrite Hji. cbn [bit]. lia.
Qed.

Lemma step_balance (config : ConductorAuthConfig) (i : string) (now : Z)
    (input : Input) (sys : System) :
  (deliveries i (state (step config now input sys))
   + outstanding i (step config now input sys)
   <= deliveries i (state sys) + outstanding i sys
      + bit (requests_id i (now, input)))%nat.
Proof.
  unfold deliveries, outstanding.
  destruct input as [request|n|msg|h]; cbn [step requests_id snd].
  - unfold requestAuthorization.
    destruct (length (default [] (targets config)) =? 0)%nat;
      cbn [state sending pending delivered].
    + lia.
    + rewrite tally_app. cbn [tally]. lia.
  - destruct (sending sys !! n) as [request|] eqn:Hn;
      [| cbn [bit]; lia].
    cbn [state sending requestAuthorization_settled pending delivered bit].
    rewrite (tally_delete _ (sending sys) _ _ Hn).
    destruct (Js.eqb (id request) i) eqn:Hi.
    + apply eqb_true in Hi. subst i. rewrite has_set_same.
      cbn [bit]. destruct (map_has _ _); cbn [bit]; lia.
    + apply eqb_false in Hi. rewrite has_set_other by congruence.
      cbn [bit]. lia.
  - cbn [state sending bit]. unfold onInboundMessage.
    destruct (firstResolved _ _ _ _ _) as [[entry a]|] eqn:Hf; [| lia].
    apply firstResolved_key in Hf as [Hin _]. apply elem_has in Hin.
    cbn [pending delivered].
    pose proof (deliver_balance i _ a _ (delivered (state sys))
                  eq_refl Hin). lia.
  - cbn [state sending bit]. unfold onTimeout.
    destruct (timers (state sys) !! h) as [[j delay]|]; [| lia].
    destruct (map_has j (pending (state sys))) eqn:Hj;
      cbn [pending delivered]; [| lia].
    pose proof (deliver_balance i j
                  {| requestId := j; decision := Deny; instructions := None;
                     resolvedBy := Some "timeout"; resolvedAtMs := now |}
                  _ (delivered (state sys)) eq_refl Hj). lia.
Qed.

Lemma steps_balance (config : ConductorAuthConfig) (i : string)
    (inputs : list (Z * Input)) (sys : System) :
  (deliveries i (state (steps config inputs sys))
   + outstanding i (steps config inputs sys)
   <= deliveries i (state sys) + outstanding i sys + requests i inputs)%nat.
Proof.
  unfold steps, requests. revert sys.
  induction inputs as [|[now input] inputs IH]; intros sys; cbn [foldl tally].
  - lia.
  - specialize (IH (step config now input sys)).
    pose proof (step_balance config i now input sys). cbn [fst snd]. lia.
Qed.

(** X22.  One authorization for one request.  Over any run of a
    forwarder, replies, timeouts and late timers included, the
    authorizations delivered for a request id are never more than the
    calls of [requestAuthorization] made for it: a request that was
    forwarded once is resolved at most once, by the operator or by its
    timeout, never by both. *)
Theorem one_authorization_per_request (config : ConductorAuthConfig)
    (i : string) (inputs : list (Z * Input)) :
  (deliveries i (state (steps config inputs started)) <= requests i inputs)%nat.
Proof.
  pose proof (steps_balance config i inputs started) as H.
  change (deliveries i (state started)) with 0%nat in H.
  change (outstanding i started) with 0%nat in H. lia.
Qed.

(** The timeout fires after the operator's reply, and a second reply
    follows. *)
Example reply_then_timeout :
  delivered
    (state
       (steps Samples.oneTarget
          [(1000, Request Samples.vercel); (1001, SendsSettled 0);
           (5000, Message {| m_channel := "whatsapp"; from := "+15550100";
                            text := "yes" |});
           (1501, TimerFires 0);
           (6000, Message {| m_channel := "whatsapp"; from := "+15550100";
                            text := "no" |})]
          started))
  = [{| requestId := id Samples.vercel; decision := Approve;
        instructions := None; resolvedBy := Some "whatsapp:+15550100";
        resolvedAtMs := 5000 |}].
Proof. vm_compute. reflexivity. Qed.

End ForwarderLoopFacts.

(** ** What the gateway answers and records *)

Module GatewayQueryFacts.
Import Gateway GatewayQueries.

Lemma decided_mirrored (now : Z) (n : nat) (s : State) :
  mirrored s -> mirrored (conductor_request_decided now n s).
Proof.
  unfold mirrored, conductor_request_decided. intros Hs.
  destruct (calls s !! n) as [c|]; [| exact Hs].
  destruct (c_promise c); try exact Hs.
  cbn. rewrite omap_app, map_app, Hs. reflexivity.
Qed.

Lemma drain_mirrored (now : Z) (s : State) :
  mirrored s -> mirrored (drain now s).
Proof.
  unfold drain. intros Hs.
  assert (Hstart :
    mirrored {| conductorPending := conductorPending s;
                conductorHistory := conductorHistory s;
                calls := calls s; microtasks := [];
                broadcasts := broadcasts s; responses := responses s |})
    by exact Hs.
  revert Hstart.
  generalize {| conductorPending := conductorPending s;
                conductorHistory := conductorHistory s;
                calls := calls s; microtasks := [];
                broadcasts := broadcasts s; responses := responses s |}.
  induction (microtasks s) as [|n queue IH]; intros start Hstart;
    [exact Hstart |].
  cbn [foldl]. apply IH, decided_mirrored, Hstart.
Qed.

Lemma resolveDecision_logs (n : nat) (v : DecisionValue) (s : State) :
  responses (resolveDecision n v s) = responses s
  /\ conductorHistory (resolveDecision n v s) = conductorHistory s.
Proof.
  unfold resolveDecision. destruct (calls s !! n) as [c|]; [| now split].
  destruct (c_promise c); now split.
Qed.

Lemma perform_mirrored (now : Z) (t : Task) (s : State) :
  mirrored s -> mirrored (perform now t s).2.
Proof.
  intros Hs. destruct t as [newId p|client p|n]; cbn [perform].
  - unfold conductor_request.
    destruct (_ && _); cbn [snd]; apply drain_mirrored; exact Hs.
  - destruct (conductor_resolve now client p s) as [r s'] eqn:Hr.
    cbn [snd]. apply drain_mirrored.
    unfold conductor_resolve in Hr.
    destruct (r_id p) as [i|]; [| injection Hr as _ <-; exact Hs].
    destruct (r_decision p) as [d|]; [| injection Hr as _ <-; exact Hs].
    destruct (_ || _); [injection Hr as _ <-; exact Hs |].
    destruct (negb _); [injection Hr as _ <-; exact Hs |].
    destruct (conductorPending s !! i) as [e|];
      [| injection Hr as _ <-; exact Hs].
    injection Hr as _ <-. unfold mirrored. cbn.
    destruct (resolveDecision_logs (owner e)
                {| d_decision := d; d_instructions := r_instructions p |} s)
      as [-> ->].
    exact Hs.
  - cbn [snd]. apply drain_mirrored. unfold onTimer.
    destruct (calls s !! n) as [c|]; [| exact Hs].
    destruct (c_timer c); [| exact Hs].
    destruct (conductorPending s !! e_id (c_entry c)); [| exact Hs].
    unfold mirrored.
    match goal with
    | |- context [resolveDecision ?n ?v ?s'] =>
        destruct (resolveDecision_logs n v s') as [-> ->]
    end.
    exact Hs.
Qed.

(** X23.  The history is the record of the answers.  Whatever calls and
    timers the gateway handled since it started, the decisions it
    answered [conductor.request] calls with and the entries of the
    history are the same, id by id and decision by decision, in the same
    order: nothing is answered without a record and nothing is recorded
    that was not answered. *)
Theorem history_mirrors_answers (tasks : list (Z * Task)) :
  let s := performAll tasks initial in
  omap answered (responses s) = map recorded (conductorHistory s).
Proof.
  cbv zeta. unfold performAll.
  assert (Hstart : mirrored initial) by reflexivity.
  revert Hstart. generalize initial.
  induction tasks as [|[now t] tasks IH]; intros s Hs; [exact Hs |].
  cbn [foldl]. apply IH, perform_mirrored, Hs.
Qed.

(** X24.  A refused call changes nothing.  When a call of
    [conductor.request] or [conductor.resolve] is answered with an error,
    whichever of the four it is, the pending map, the history, the
    waiting calls and the broadcasts are as they were before the call. *)
Theorem refused_call_changes_nothing (now : Z) (t : Task) (s : State)
    (code : ErrorCode) (message : string) :
  idle s ->
  (perform now t s).1 = Some (RespondError code message) ->
  (perform now t s).2 = s.
Proof.
  intros Hidle. destruct t as [newId p|client p|n]; cbn [perform].
  - unfold conductor_request.
    destruct (_ && _); cbn [fst snd]; [| discriminate].
    intros _. apply GatewayFacts.drain_idle, Hidle.
  - unfold conductor_resolve.
    destruct (r_id p) as [i|];
      [| intros _; apply GatewayFacts.drain_idle, Hidle].
    destruct (r_decision p) as [d|];
      [| intros _; apply GatewayFacts.drain_idle, Hidle].
    destruct (_ || _); [intros _; apply GatewayFacts.drain_idle, Hidle |].
    destruct (negb _); [intros _; apply GatewayFacts.drain_idle, Hidle |].
    destruct (conductorPending s !! i) as [e|];
      [discriminate | intros _; apply GatewayFacts.drain_idle, Hidle].
  - discriminate.
Qed.

Lemma refused_call_changes_nothing_witness :
  (perform 3000
     (CallResolve (Some "client B")
        {| r_id := Some Samples.portalId; r_decision := Some "maybe";
           r_instructions := None |})
     (performAll [(1000, CallRequest Samples.portalId Samples.openPortal)]
        initial)).2
  = performAll [(1000, CallRequest Samples.portalId Samples.openPortal)]
      initial.
Proof.
  apply (refused_call_changes_nothing 3000 _ _ INVALID_REQUEST
           "invalid decision"); reflexivity.
Defined.

(** *** The waiting call is answered *)





(** X26.  The timeout answers with a denial.  When the timer of a call
    of [conductor.request] fires while its request is still pending,
    the call is answered in that task with the decision "deny" and no
    instructions, the history gets a "deny" entry and the request
    leaves the pending map; nothing is broadcast. *)
Theorem timeout_answers_deny (now : Z) (i : string)
    (e : ConductorPendingEntry) (c : RequestCall) (s : State) :
  consistent s ->
  conductorPending s !! i = Some e ->
  calls s !! owner e = Some c ->
  c_timer c = true ->
  let out := perform now (TimerFires (owner e)) s in
  responses out.2
  = responses s ++
    [(owner e,
      RespondDecision i {| d_decision := "deny"; d_instructions := None |}
        (e_createdAtMs (c_entry c)) (e_expiresAtMs (c_entry c)))]
  /\ conductorHistory out.2
     = conductorHistory s ++
       [{| g_id := i; g_kind := e_kind (c_entry c);
           g_summary := e_summary (c_entry c);
           g_decision := "deny"; g_completedAtMs := now |}]
  /\ conductorPending out.2 = delete i (conductorPending s)
  /\ broadcasts out.2 = broadcasts s.
Proof.
  intros [Hidle Hown] He Hc Htimer. cbv zeta.
  destruct (Hown i e He) as (c' & Hc' & Hp & Hid).
  rewrite Hc in Hc'. injection Hc' as <-.
  cbn [perform snd]. unfold onTimer. rewrite Hc, Htimer, Hid, He.
  assert (Hlt : (owner e < length (calls s))%nat)
    by (eapply lookup_lt_Some; exact Hc).
  unfold resolveDecision. cbn -[insert delete lookup].
  rewrite list_lookup_insert_eq by exact Hlt.
  cbn -[insert delete lookup]. rewrite Hp.
  unfold idle in Hidle. unfold drain. cbn -[insert delete lookup].
  rewrite Hidle. cbn [app foldl]. unfold conductor_request_decided.
  cbn -[insert delete lookup].
  rewrite list_lookup_insert_eq by (rewrite length_insert; exact Hlt).
  cbn -[insert delete lookup]. rewrite Hid.
  repeat split. apply delete_id, lookup_delete_eq.
Qed.

Lemma timeout_answers_deny_witness :
  let s :=
    performAll [(1000, CallRequest Samples.portalId Samples.openPortal)]
      initial in
  let out := perform 121000 (TimerFires 0) s in
  responses out.2
  = responses s ++
    [(0%nat,
      RespondDecision Samples.portalId
        {| d_decision := "deny"; d_instructions := None |} 1000 121000)]
  /\ conductorHistory out.2
     = conductorHistory s ++
       [{| g_id := Samples.portalId; g_kind := "unknown";
           g_summary := "open portal";
           g_decision := "deny"; g_completedAtMs := 121000 |}]
  /\ conductorPending out.2 = delete Samples.portalId (conductorPending s)
  /\ broadcasts out.2 = broadcasts s.
Proof.
  apply (timeout_answers_deny 121000 Samples.portalId
           {| e_id := Samples.portalId; e_kind := "unknown";
              e_summary := "open portal"; e_url := Some "https://x.test";
              e_createdAtMs := 1000; e_expiresAtMs := 121000;
              owner := 0 |}
           {| c_entry :=
                {| e_id := Samples.portalId; e_kind := "unknown";
                   e_summary := "open portal"; e_url := Some "https://x.test";
                   e_createdAtMs := 1000; e_expiresAtMs := 121000;
                   owner := 0 |};
              c_promise := Unsettled; c_timer := true |}).
  - apply GatewayFacts.performAll_consistent, GatewayFacts.initial_consistent.
  - reflexivity.
  - reflexivity.
  - reflexivity.
Defined.

(** *** The history query *)

(** X27.  What [conductor.history] returns for a limit.  The entries
    are always the newest ones, in their order, and the total is the
    length of the whole history.  A positive limit gives that many
    entries, or all when there are fewer; the limit 0 gives the whole
    history, not the empty list; a negative limit drops that many of the
    oldest entries; no limit means 50. *)
Theorem history_limit (limit : option Z) (s : State) :
  let l := default 50 limit in
  let out := conductor_history limit s in
  let all := conductorHistory s in
  out.2 = length all
  /\ (exists older, all = older ++ out.1)
  /\ (0 < l -> length out.1 = Nat.min (Z.to_nat l) (length all))
  /\ (l = 0 -> out.1 = all)
  /\ (l < 0 -> out.1 = drop (Z.to_nat (- l)) all).
Proof.
  cbv zeta. unfold conductor_history, slice_from. cbn [fst snd].
  set (l := default 50 limit).
  set (all := conductorHistory s).
  split; [reflexivity |].
  split; [eexists; symmetry; apply take_drop |].
  split; [| split]; intros Hl.
  - rewrite (proj2 (Z.ltb_lt (- l) 0)) by lia.
    rewrite length_drop. lia.
  - rewrite Hl. change (- 0 <? 0) with false. cbv iota.
    rewrite Z.min_l by lia. reflexivity.
  - rewrite (proj2 (Z.ltb_ge (- l) 0)) by lia.
    destruct (Z.min_spec (- l) (Z.of_nat (length all)))
      as [[_ ->] | [Hle ->]]; [reflexivity |].
    rewrite Nat2Z.id. rewrite !drop_ge by lia. reflexivity.
Qed.

End GatewayQueryFacts.

(** ** One browser action *)

Module BrowserActionFacts.
Import BrowserExecutor BrowserActions.

Example decimal_renders :
  decimal 1500 = "1500" /\ decimal 0 = "0" /\ decimal (-20) = "-20".
Proof. vm_compute. repeat split. Qed.

Section WithClient.
Context {Browser : Type} `{BrowserClient Browser}.

Lemma ensureRunning_returns (profile : string) (b : Browser) :
  exists b', ensureRunning profile b = (Returned tt, b').
Proof.
  unfold ensureRunning, try_catch, bind, ret.
  destruct (browserStatus profile b) as [[[|[[]|]]|err] b1].
  - destruct (browserStart profile b1) as [[[]|err] b2];
      [eexists; reflexivity |].
    destruct (browserStart profile b2) as [[[]|err'] b3];
      eexists; reflexivity.
  - eexists; reflexivity.
  - destruct (browserStart profile b1) as [[[]|err] b2];
      [eexists; reflexivity |].
    destruct (browserStart profile b2) as [[[]|err'] b3];
      eexists; reflexivity.
  - eexists; reflexivity.
  - destruct (browserStart profile b1) as [[[]|err'] b2];
      eexists; reflexivity.
Qed.

Ltac reported :=
  eexists _, _; split; [reflexivity |]; split; [reflexivity |];
  first [left; split; reflexivity
        | right; split; [reflexivity |]; split; [discriminate | reflexivity]].

Lemma executeAction_returns (a : BrowserAction) (profile : string)
    (actionTimeoutMs : Z) (b : Browser) :
  exists r b',
    executeAction a profile actionTimeoutMs b = (Returned r, b')
    /\ reports a r.
Proof.
  unfold executeAction, reports, bind at 1.
  destruct (ensureRunning_returns profile b) as [b1 ->].
  destruct a as [url|selector|selector|selector|selector text|ms|url sels];
    unfold try_catch, bind, ret, throw.
  - destruct (browserNavigate url profile b1) as [[[]|err] b2]; reported.
  - destruct (browserScreenshotAction selector profile b1)
      as [[path|err] b2]; reported.
  - destruct (browserSnapshot selector profile b1)
      as [[[[text|] json|rendered]|err] b2]; try reported.
    destruct json as [json|err]; reported.
  - destruct (browserAct (ActClick selector) profile b1)
      as [[[]|err] b2]; reported.
  - destruct (browserAct (ActType selector text) profile b1)
      as [[[]|err] b2]; reported.
  - reported.
  - destruct (browserNavigate url profile b1) as [[[]|err] b2];
      [| reported].
    destruct (browserSnapshot None profile b2)
      as [[[[text|] json|rendered]|err] b3]; try reported.
    destruct json as [json|err]; reported.
Qed.

Lemma actionLoop_timeout (profile : string) (t t' : Z)
    (actions : list BrowserAction) (results : list BrowserActionResult)
    (p : Plane) :
  actionLoop executeAction profile t actions results p
  = actionLoop executeAction profile t' actions results p.
Proof.
  revert results p. induction actions as [|a rest IH]; intros results p;
    [reflexivity |].
  cbn [actionLoop].
  change (dispatch executeAction profile t a p)
    with (dispatch executeAction profile t' a p).
  destruct (dispatch executeAction profile t' a p) as [[result|err] p'].
  - destruct (negb (success result) && is_navigate a);
      [reflexivity | apply IH].
  - apply IH.
Qed.

(** X28.  The configured action timeout has no effect.  [executeAction]
    receives [actionTimeoutMs] and never reads it, so two
    configurations that differ only in [browser.actionTimeoutMs] run
    a request in the same way: the same calls of the browser client,
    the same results. *)
Theorem action_timeout_is_unused (config config' : ConductorBrowserConfig)
    (request : ExternalAccessRequest)
    (authorization : ConductorAuthorization) (p : Plane) :
  profile config = profile config' ->
  captureScreenshots config = captureScreenshots config' ->
  execute executeAction config request authorization p
  = execute executeAction config' request authorization p.
Proof.
  intros Hprofile Hcapture. unfold execute.
  rewrite Hprofile, Hcapture.
  destruct (length (resolveActions request authorization) =? 0)%nat;
    [reflexivity |].
  unfold bind.
  rewrite (actionLoop_timeout _ (default 30000 (actionTimeoutMs config))
             (default 30000 (actionTimeoutMs config'))).
  destruct (actionLoop _ _ _ _ _ p) as [[results|err] p1]; [| reflexivity].
  destruct (_ && _); reflexivity.
Qed.

(** The loop with [executeAction]: one result for every action
    dispatched, in their order, and the actions dispatched are the first
    ones of the list. *)
Lemma actionLoop_follows (profile : string) (t : Z)
    (actions : list BrowserAction) (results : list BrowserActionResult)
    (p : Plane) :
  exists out p1 listed,
    actionLoop executeAction profile t actions results p
    = (Returned (results ++ out), p1)
    /\ dispatched p1 = dispatched p ++ listed
    /\ map action out = listed
    /\ listed `prefix_of` actions.
Proof.
  revert results p. induction actions as [|a rest IH]; intros results p.
  - exists [], p, []. cbn. rewrite !app_nil_r. repeat split.
    apply prefix_nil.
  - cbn [actionLoop]. unfold dispatch.
    destruct (executeAction_returns a profile t (browser p))
      as (r & b' & -> & Ha & _).
    destruct (negb (success r) && is_navigate a).
    + exists [r], {| browser := b'; dispatched := dispatched p ++ [a] |}, [a].
      cbn. rewrite Ha. repeat split. apply prefix_cons, prefix_nil.
    + destruct (IH (results ++ [r])
                  {| browser := b'; dispatched := dispatched p ++ [a] |})
        as (out & p1 & listed & -> & Hd & Hm & Hpre).
      exists (r :: out), p1, (a :: listed).
      rewrite <- app_assoc. cbn in *. rewrite Hd, <- app_assoc, Ha, Hm.
      repeat split. apply prefix_cons, Hpre.
Qed.

(** X29.  The results are the account of what was dispatched.
    [execute] with [executeAction] always returns, and its results are
    one per action dispatched to the browser, in the order of the
    dispatch, each carrying its action; what was dispatched is the
    resolved action list from its start, up to a failed navigation at
    the latest, then perhaps the trailing screenshot. *)
Theorem results_follow_plan (config : ConductorBrowserConfig)
    (request : ExternalAccessRequest)
    (authorization : ConductorAuthorization) (p : Plane) :
  let out := execute executeAction config request authorization p in
  exists results,
    out.1 = Returned results
    /\ dispatched out.2 = dispatched p ++ map action results
    /\ follows (resolveActions request authorization) (map action results).
Proof.
  cbv zeta. unfold execute, follows.
  destruct (length (resolveActions request authorization) =? 0)%nat.
  - exists []. cbn. rewrite app_nil_r. repeat split.
    exists []. split; [apply prefix_nil | left; reflexivity].
  - unfold bind.
    destruct (actionLoop_follows
                (default "openclaw" (profile config))
                (default 30000 (actionTimeoutMs config))
                (resolveActions request authorization) [] p)
      as (out & p1 & listed & -> & Hd & Hm & Hpre).
    cbn [app].
    destruct (_ && _).
    + unfold trailingScreenshot, dispatch.
      destruct (executeAction_returns (Screenshot None)
                  (default "openclaw" (profile config))
                  (default 30000 (actionTimeoutMs config)) (browser p1))
        as (r & b' & -> & Ha & _).
      exists (out ++ [r]). cbn. rewrite map_app, Hd, Hm. cbn. rewrite Ha.
      rewrite <- app_assoc. repeat split.
      exists listed. split; [exact Hpre | right; reflexivity].
    + exists out. cbn. rewrite Hd, Hm. repeat split.
      exists listed. split; [exact Hpre | left; reflexivity].
Qed.

(** X30.  An action always ends in a result that reports on it.  Once
    its modules are loaded, [executeAction] never throws: whatever the
    browser client does, it returns a result that carries the action it
    was given and either succeeded without an error or failed with the
    error as a string and no data; so the [catch] around it in the
    executor's loop never runs. *)
Theorem executeAction_reports (a : BrowserAction) (profile : string)
    (actionTimeoutMs : Z) (p : Plane) :
  (exists r b',
     executeAction a profile actionTimeoutMs (browser p) = (Returned r, b')
     /\ reports a r)
  /\ (forall err p',
        dispatch executeAction profile actionTimeoutMs a p
        <> (Threw err, p')).
Proof.
  destruct (executeAction_returns a profile actionTimeoutMs (browser p))
    as (r & b' & Hr & Hreports).
  split; [exists r, b'; split; assumption |].
  intros err p'. unfold dispatch. rewrite Hr. discriminate.
Qed.

End WithClient.

Lemma action_timeout_is_unused_witness :
  execute (executeAction (H := unplugged))
    {| profile := None; actionTimeoutMs := Some 1;
       captureScreenshots := None |}
    Samples.database (Samples.approves Samples.database)
    {| browser := tt; dispatched := [] |}
  = execute (executeAction (H := unplugged))
      {| profile := None; actionTimeoutMs := Some 600000;
         captureScreenshots := None |}
      Samples.database (Samples.approves Samples.database)
      {| browser := tt; dispatched := [] |}.
Proof.
  apply (action_timeout_is_unused (H := unplugged)); reflexivity.
Defined.

(** Without network: the navigation fails, the extraction is not
    dispatched, the trailing screenshot is taken. *)
Example unplugged_run :
  (execute (executeAction (H := unplugged)) Samples.defaultBrowser
     Samples.database (Samples.approves Samples.database)
     {| browser := tt; dispatched := [] |}).1
  = Returned
      [{| action := Navigate "https://railway.app/project/db";
          success := false; data := None; screenshotPath := None;
          error := Some "Error: net::ERR_INTERNET_DISCONNECTED" |};
       {| action := Screenshot None; success := true;
          data := Some "Screenshot saved to /tmp/shot.png";
          screenshotPath := Some "/tmp/shot.png"; error := None |}].
Proof. vm_compute. reflexivity. Qed.

End BrowserActionFacts.
